(** * Aldo, an app-icon gallery: a shallow embedding and its properties

    The gallery loads a catalog from a spreadsheet (gviz payload), looks the
    entries up in a store service, derives a dominant colour per icon,
    classifies the colour into a palette bucket and exports icons as images.

    Sources embedded here:
    - [src/services/appService.ts] (class [AppService]): [loadAppsFromSheet],
      [getAppsByCategory], [searchAppsByCategory], [getAppDetails],
      [getDominantColor];
    - the gallery component (function [App] and the helpers above it):
      [addRoundedRectPath], [getBorderRadiusRatio],
      [copySingleImageWithRadius], [generateCombinedCanvas], [COLORS],
      [hexToHsl], [hueDistance], [getClosestColorId], [searchApps],
      [loadAppsByCategory].

    Conventions of the embedding.
    - Strings are [string] (sequences of bytes); [trim] and [toLowerCase]
      act on the ASCII range, which is where the catalog labels and the
      palette live. The listing and the search of the catalog, which read
      names typed by people, take [localeCompare], [toLowerCase] and [trim]
      as parameters.
    - A loaded record is kept with the values its name and category cells
      hold, of whatever type; a method called on a value that has no such
      method raises a TypeError, which is [None].
    - Catalog identifiers are JavaScript numbers whose only observed
      properties are finiteness, sign and decimal text: they are whole
      numbers, NaN or an infinity ([number]).
    - Colour channels, hues, ratios and radii are JavaScript numbers used in
      fractional arithmetic: they are exact rationals ([Q]); the rounding of
      binary64 is not represented. Rounding moves a saturation or a hue
      distance computed from channels by far less than two distinct exact
      values differ, so a comparison is decided as in exact arithmetic
      unless the exact values are equal: the properties of the classifier
      are stated for strict inequalities and leave the choice among equally
      near hues open.
    - Counts and indices are [nat]; pixel sizes are [Z].
    - Network and DOM access is passed in as data: the gviz payload, the
      store's answers, the pixel buffer, the computed style. *)

From Stdlib Require Import List String Ascii Strings.Byte Bool Arith PeanoNat ZArith.
From Stdlib Require Import QArith Qround Qabs Qminmax Lia Lqa Permutation DecimalString.
From Stdlib Require Import Sorted.
From Equations Require Import Equations.
Import ListNotations.

Local Close Scope Q_scope.
Local Open Scope nat_scope.
Local Open Scope string_scope.
Local Open Scope list_scope.

(** ** JavaScript strings, numbers and cell values *)

Module JS.

(** White space skipped by [String.prototype.trim] and by [parseInt]
    (ASCII range): TAB, LF, VT, FF, CR and SPACE. *)
Definition isWhiteSpace (c : ascii) : bool :=
  let n := N_of_ascii c in
  ((9 <=? n) && (n <=? 13) || (n =? 32))%N.

Fixpoint trimStart (s : string) : string :=
  match s with
  | EmptyString => EmptyString
  | String c s' => if isWhiteSpace c then trimStart s' else s
  end.

Fixpoint trimEnd (s : string) : string :=
  match s with
  | EmptyString => EmptyString
  | String c s' =>
      match trimEnd s' with
      | EmptyString => if isWhiteSpace c then EmptyString else String c EmptyString
      | t => String c t
      end
  end.

(** [s.trim()] *)
Definition trim (s : string) : string := trimEnd (trimStart s).

Definition lowerChar (c : ascii) : ascii :=
  let n := N_of_ascii c in
  if ((65 <=? n) && (n <=? 90))%N then ascii_of_N (n + 32) else c.

(** [s.toLowerCase()] *)
Fixpoint toLowerCase (s : string) : string :=
  match s with
  | EmptyString => EmptyString
  | String c s' => String (lowerChar c) (toLowerCase s')
  end.

(** [s.includes(sub)]: [sub] occurs in [s] as a contiguous substring. *)
Fixpoint includes (s sub : string) : bool :=
  prefix sub s ||
  match s with
  | EmptyString => false
  | String _ s' => includes s' sub
  end.

(** [sep]-separated concatenation, [parts.join(sep)]. *)
Fixpoint join (sep : string) (parts : list string) : string :=
  match parts with
  | [] => ""
  | [p] => p
  | p :: rest => p ++ sep ++ join sep rest
  end.

(** [arr.includes(x)] on an array of strings. *)
Definition arrayIncludes (arr : list string) (x : string) : bool :=
  existsb (String.eqb x) arr.

(** A JavaScript number as the catalog uses it: a whole number, NaN, or an
    infinity. *)
Inductive number : Type :=
| Int (z : Z)
| NaN
| PosInfinity
| NegInfinity.

(** [Number.isFinite(n)] *)
Definition Number_isFinite (n : number) : bool :=
  match n with
  | Int _ => true
  | _ => false
  end.

(** [n > 0] *)
Definition isPositive (n : number) : bool :=
  match n with
  | Int z => (0 <? z)%Z
  | PosInfinity => true
  | _ => false
  end.

(** [String(n)] and [n.toString()]: plain decimal for whole numbers. *)
Definition NumberToString (n : number) : string :=
  match n with
  | Int z => NilZero.string_of_int (Z.to_int z)
  | NaN => "NaN"
  | PosInfinity => "Infinity"
  | NegInfinity => "-Infinity"
  end.

(** A whole number read from decimal text becomes a binary64 value; from
    [2^1024 - 2^970] on, round-to-nearest yields an infinity. *)
Definition overflowBound : Z := 2 ^ 1024 - 2 ^ 970.

Definition ofInteger (z : Z) : number :=
  if (overflowBound <=? z)%Z then PosInfinity
  else if (z <=? - overflowBound)%Z then NegInfinity
  else Int z.

Definition digitValue (c : ascii) : option Z :=
  let n := N_of_ascii c in
  if ((48 <=? n) && (n <=? 57))%N then Some (Z.of_N (n - 48)) else None.

(** The longest prefix of decimal digits, as a number; [acc] is [None] until
    a digit has been read. *)
Fixpoint parseDigits (s : string) (acc : option Z) : option Z :=
  match s with
  | EmptyString => acc
  | String c s' =>
      match digitValue c with
      | Some d =>
          parseDigits s' (Some (10 * match acc with Some a => a | None => 0 end + d)%Z)
      | None => acc
      end
  end.

(** [parseInt(s, 10)]: leading white space, an optional sign, then digits;
    NaN when no digit follows. *)
Definition parseInt (s : string) : number :=
  let s1 := trimStart s in
  let '(negative, s2) :=
    match s1 with
    | String "-"%char r => (true, r)
    | String "+"%char r => (false, r)
    | _ => (false, s1)
    end in
  match parseDigits s2 None with
  | None => NaN
  | Some m => ofInteger (if negative then - m else m)%Z
  end.

(** The scalar a gviz cell carries in its [v] field when it is not null. *)
Inductive value : Type :=
| VNum (n : number)
| VStr (s : string)
| VBool (b : bool).

(** [typeof v === 'number'] *)
Definition isNumber (v : value) : bool :=
  match v with
  | VNum _ => true
  | _ => false
  end.

(** [String(v)] *)
Definition ToString (v : value) : string :=
  match v with
  | VNum n => NumberToString n
  | VStr s => s
  | VBool true => "true"
  | VBool false => "false"
  end.

(** Truthiness, as [||], [&&], [?:] and [Boolean] test it. *)
Definition truthy (v : value) : bool :=
  match v with
  | VNum (Int z) => negb (z =? 0)%Z
  | VNum NaN => false
  | VNum _ => true
  | VStr s => negb (s =? "")
  | VBool b => b
  end.

(** A string is truthy when it is not empty. *)
Definition nonEmpty (s : string) : bool := negb (s =? "").

(** The type assertion [v as string | null] on a non-null cell value. It does
    nothing at run time; the columns it is applied to hold strings. A value
    of another type is carried as its text when truthy and as the empty
    string when falsy, so that every truthiness test made on the asserted
    value decides as it does in JavaScript. *)
Definition asString (v : value) : string :=
  match v with
  | VStr s => s
  | other => if truthy other then ToString other else ""
  end.

End JS.

(** ** Arrays *)

Module Arrays.

(** [arr.filter(Boolean)] on an array whose entries may be null. *)
Fixpoint dropNulls {A : Type} (l : list (option A)) : list A :=
  match l with
  | [] => []
  | Some x :: rest => x :: dropNulls rest
  | None :: rest => dropNulls rest
  end.

(** [arr.slice(start, stop)] for [start <= stop]. *)
Definition slice {A : Type} (l : list A) (start stop : nat) : list A :=
  firstn (stop - start) (skipn start l).

(** [arr.sort(cmp)], where [nonPositive a b] tells that [cmp(a, b) <= 0].
    The sort is stable: an element goes in front of the first element of the
    sorted rest that it does not exceed, so equal elements keep their order.
    For a comparator that is a total preorder every stable sort returns this
    list. *)
Fixpoint insertSorted {A : Type} (nonPositive : A -> A -> bool) (x : A) (l : list A) : list A :=
  match l with
  | [] => [x]
  | y :: rest => if nonPositive x y then x :: l else y :: insertSorted nonPositive x rest
  end.

Definition sort {A : Type} (nonPositive : A -> A -> bool) (l : list A) : list A :=
  fold_right (insertSorted nonPositive) [] l.

(** [arr.find(p)] *)
Definition find {A : Type} (p : A -> bool) (l : list A) : option A := List.find p l.

(** [arr.filter(p)] for a predicate that may raise: the elements are tested
    in order, and the first test that raises ends the call. *)
Fixpoint filterOrRaise {A : Type} (p : A -> option bool) (l : list A) : option (list A) :=
  match l with
  | [] => Some []
  | x :: rest =>
      match p x with
      | None => None
      | Some keep =>
          match filterOrRaise p rest with
          | Some kept => Some (if keep then x :: kept else kept)
          | None => None
          end
      end
  end.

(** Whether the comparator returns on every pair of elements. *)
Definition neverRaises {A : Type} (cmp : A -> A -> option Z) (l : list A) : bool :=
  forallb (fun x => forallb (fun y => match cmp x y with Some _ => true | None => false end) l) l.

(** [arr.sort(cmp)] for a comparator that may raise. An array of fewer than
    two elements is returned without any call of the comparator. Otherwise
    the engine chooses the pairs it compares, and a call that raises ends the
    sort: the sort is taken to raise as soon as the comparator raises on
    some pair of elements, so that what this function returns is returned
    on every engine. *)
Definition sortOrRaise {A : Type} (cmp : A -> A -> option Z) (l : list A) : option (list A) :=
  if (List.length l <? 2)%nat || neverRaises cmp l
  then Some (sort (fun x y => match cmp x y with
                              | Some c => (c <=? 0)%Z
                              | None => false
                              end) l)
  else None.

End Arrays.

(** ** The catalog service, [AppService] *)

Module AppService.
Import JS Arrays.

(** The gviz payload: [{ table: { cols: [{label}], rows: [{c: [{v}|null]}] } }],
    every level optional or nullable as the interfaces declare. *)
Record GvizCell : Type := { v : option value }.
Record GvizRow : Type := { c : list (option GvizCell) }.
Record GvizColumn : Type := { label : option string }.
Record GvizTable : Type :=
  { cols : option (list (option GvizColumn));
    rows : option (list (option GvizRow)) }.
Record GvizResponse : Type := { table : option GvizTable }.

(** [AppData]: a catalog record. *)
Record AppData : Type :=
  { id : number;
    name : string;
    app_store_id : string;
    category : option string;
    created_at : option string;
    updated_at : option string }.

(** [labelToIndex: Record<string, number>]: the latest assignment to a key is
    the one a lookup finds. *)
Definition LabelMap : Type := list (string * nat).

Definition setLabel (m : LabelMap) (key : string) (idx : nat) : LabelMap :=
  (key, idx) :: m.

Fixpoint getLabel (m : LabelMap) (key : string) : option nat :=
  match m with
  | [] => None
  | (k, idx) :: rest => if k =? key then Some idx else getLabel rest key
  end.

(** [cols.forEach((col, idx) => ...)], from index [idx] on. *)
Fixpoint indexLabels (columns : list GvizColumn) (idx : nat) (m : LabelMap) : LabelMap :=
  match columns with
  | [] => m
  | col :: rest =>
      indexLabels rest (S idx)
        match label col with
        | Some l => setLabel m (toLowerCase (trim l)) idx
        | None => m
        end
  end.

(** [payload?.table?.cols ?? []] without its null entries. *)
Definition payloadCols (payload : GvizResponse) : list GvizColumn :=
  dropNulls
    match table payload with
    | Some t => match cols t with Some l => l | None => [] end
    | None => []
    end.

(** [payload?.table?.rows ?? []] without its null entries. *)
Definition payloadRows (payload : GvizResponse) : list GvizRow :=
  dropNulls
    match table payload with
    | Some t => match rows t with Some l => l | None => [] end
    | None => []
    end.

Definition labelToIndex (payload : GvizResponse) : LabelMap :=
  indexLabels (payloadCols payload) 0 [].

(** [getVal(row, label)]: the cell's value, or null ([None]) when the label is
    unknown, the cell is missing or null, or its value is null. *)
Definition getVal (m : LabelMap) (row : GvizRow) (lbl : string) : option value :=
  match getLabel m lbl with
  | None => None
  | Some idx =>
      match nth_error (c row) idx with
      | Some (Some cell) => v cell
      | _ => None
      end
  end.

(** [x ? String(x) : undefined] on an optional string. *)
Definition textOrUndefined (x : option string) : option string :=
  match x with
  | Some s => if nonEmpty s then Some s else None
  | None => None
  end.

(** The body of [rows.map((row) => ...)]. *)
Definition rowToApp (m : LabelMap) (row : GvizRow) : AppData :=
  let idRaw := getVal m row "id" in
  let name := match getVal m row "name" with Some x => asString x | None => "" end in
  let appStoreIdRaw := getVal m row "app_store_id" in
  let category := option_map asString (getVal m row "category") in
  let createdAt := option_map asString (getVal m row "created_at") in
  let updatedAt := option_map asString (getVal m row "updated_at") in
  let id :=
    match idRaw with
    | Some (VNum n) => n
    | Some x => parseInt (ToString (if truthy x then x else VStr "0"))
    | None => parseInt "0"
    end in
  let app_store_id :=
    match appStoreIdRaw with
    | Some x => ToString x
    | None => ""
    end in
  {| id := id;
     name := name;
     app_store_id := app_store_id;
     category := category;
     created_at := textOrUndefined createdAt;
     updated_at := textOrUndefined updatedAt |}.

(** The predicate of [.filter(a => Number.isFinite(a.id) && a.name && a.app_store_id)]. *)
Definition validApp (a : AppData) : bool :=
  Number_isFinite (id a) && nonEmpty (name a) && nonEmpty (app_store_id a).

(** [loadAppsFromSheet], from the parsed payload on. *)
Definition loadAppsFromSheet (payload : GvizResponse) : list AppData :=
  filter validApp (map (rowToApp (labelToIndex payload)) (payloadRows payload)).

(** *** Listing and searching

    The casts [as string | null] of lines 90 to 94 do nothing at run time:
    the [name] and the [category] of a loaded record are the values of
    their cells, of whatever type. A method called on a name that is not a
    string, [a.name.toLowerCase()] or [a.name.localeCompare(..)], raises a
    TypeError, for which [None] stands. *)

(** A loaded record at run time: the record as the interface [AppData]
    declares it, beside the values that its name and its category hold. *)
Record LoadedApp : Type :=
  { typed : AppData;
    nameValue : value;
    categoryValue : option value }.

(** The body of [rows.map((row) => ...)], with the run-time values. *)
Definition rowToLoaded (m : LabelMap) (row : GvizRow) : LoadedApp :=
  {| typed := rowToApp m row;
     nameValue := match getVal m row "name" with Some x => x | None => VStr "" end;
     categoryValue := getVal m row "category" |}.

(** [loadAppsFromSheet], with the run-time values. *)
Definition loadedApps (payload : GvizResponse) : list LoadedApp :=
  filter (fun a => validApp (typed a))
         (map (rowToLoaded (labelToIndex payload)) (payloadRows payload)).

(** [categories.includes(x)] on an array of strings: a value that is not a
    string is none of them. *)
Definition includesValue (categories : list string) (x : value) : bool :=
  match x with
  | VStr s => arrayIncludes categories s
  | _ => false
  end.

(** [a.category && categories.includes(a.category)] *)
Definition inCategories (categories : list string) (a : LoadedApp) : bool :=
  match categoryValue a with
  | Some cat => truthy cat && includesValue categories cat
  | None => false
  end.

Section Sorted.

(** [a.localeCompare(b)]: negative, zero or positive. *)
Variable localeCompare : string -> string -> Z.

(** [s.toLowerCase()] and [s.trim()] *)
Variable toLowerCase : string -> string.
Variable trim : string -> string.

(** The comparator [(a, b) => a.name.localeCompare(b.name)]: a TypeError
    unless [a.name] is a string; the argument is converted to a string. *)
Definition compareNames (a b : LoadedApp) : option Z :=
  match nameValue a with
  | VStr s => Some (localeCompare s (ToString (nameValue b)))
  | _ => None
  end.

(** The test [a.name.toLowerCase().includes(term)]. *)
Definition nameIncludes (term : string) (a : LoadedApp) : option bool :=
  match nameValue a with
  | VStr s => Some (includes (toLowerCase s) term)
  | _ => None
  end.

Definition getAllApps (payload : GvizResponse) : option (list LoadedApp) :=
  sortOrRaise compareNames (loadedApps payload).

Definition getAppsByCategory (payload : GvizResponse) (categories : list string)
    : option (list LoadedApp) :=
  if arrayIncludes categories "all" then getAllApps payload
  else sortOrRaise compareNames (filter (inCategories categories) (loadedApps payload)).

Definition searchAppsByCategory (payload : GvizResponse) (searchTerm : string)
    (categories : list string) : option (list LoadedApp) :=
  let apps := loadedApps payload in
  let term := toLowerCase (trim searchTerm) in
  match filterOrRaise (nameIncludes term) apps with
  | None => None
  | Some byName =>
      let result :=
        if arrayIncludes categories "all" then byName
        else filter (inCategories categories) byName in
      sortOrRaise compareNames result
  end.

End Sorted.

(** [AppWithDetails]: a record of the store's lookup answer, later completed
    with the dominant colour of its artwork. The interface extends [AppData],
    but the store's answer carries none of the catalog's fields and the
    gallery reads none of them from it. *)
Record AppWithDetails : Type :=
  { trackId : number;
    trackName : string;
    artworkUrl100 : string;
    primaryGenreName : string;
    genres : list string;
    trackViewUrl : string;
    dominantColor : option string }.

(** The parsed body of a lookup answer, [{ results?: [...] }]. *)
Record LookupResponse : Type := { results : option (list AppWithDetails) }.

(** How a promise settles. *)
Inductive Settled (A : Type) : Type :=
| Resolved (a : A)
| Rejected.
Arguments Resolved {A} a.
Arguments Rejected {A}.

(** [Promise.all]: the values in order, or a rejection as soon as one of the
    promises rejects. *)
Fixpoint PromiseAll {A : Type} (ps : list (Settled A)) : Settled (list A) :=
  match ps with
  | [] => Resolved []
  | Rejected :: _ => Rejected
  | Resolved a :: rest =>
      match PromiseAll rest with
      | Resolved l => Resolved (a :: l)
      | Rejected => Rejected
      end
  end.

Definition batchSize : nat := 10.

(** The loop [for (let i = 0; i < appStoreIds.length; i += batchSize)] from
    index [i] on: the batches pushed, in order. *)
Equations? batchesFrom (appStoreIds : list string) (i : nat) : list (list string)
  by wf (List.length appStoreIds - i) lt :=
  batchesFrom appStoreIds i with lt_dec i (List.length appStoreIds) => {
    | left _ => slice appStoreIds i (i + batchSize) :: batchesFrom appStoreIds (i + batchSize);
    | right _ => [] }.
Proof.
  unfold batchSize. lia.
Qed.

Definition batches (appStoreIds : list string) : list (list string) :=
  batchesFrom appStoreIds 0.

Section Lookup.

(** Whether the page is served from another host than localhost. *)
Variable production : bool.

(** [fetch(url).then(res => res.json())] *)
Variable fetchJson : string -> Settled LookupResponse.

Definition getItunesUrl (ids : string) : string :=
  if production then "/api/itunes?id=" ++ ids
  else "https://itunes.apple.com/lookup?id=" ++ ids.

(** The requests issued by [batches.map(batch => fetch(...))], one per batch. *)
Definition lookupRequests (appStoreIds : list string) : list string :=
  map (fun batch => getItunesUrl (join "," batch)) (batches appStoreIds).

(** [result.results || []] *)
Definition resultsOrEmpty (result : LookupResponse) : list AppWithDetails :=
  match results result with
  | Some l => l
  | None => []
  end.

Definition getAppDetails (appStoreIds : list string) : Settled (list AppWithDetails) :=
  match PromiseAll (map fetchJson (lookupRequests appStoreIds)) with
  | Resolved responses => Resolved (flat_map resultsOrEmpty responses)
  | Rejected => Rejected
  end.

End Lookup.

(** *** Dominant colour of a pixel buffer *)

Definition hexDigit (n : N) : ascii :=
  if (n <? 10)%N then ascii_of_N (48 + n) else ascii_of_N (87 + n).

(** [x.toString(16)] for a byte: one or two lower-case digits. *)
Definition toString16 (x : byte) : string :=
  let n := Byte.to_N x in
  if (n <? 16)%N then String (hexDigit n) ""
  else String (hexDigit (n / 16)) (String (hexDigit (n mod 16)) "").

(** [hex.length === 1 ? '0' + hex : hex] *)
Definition padHex (x : byte) : string :=
  let hex := toString16 x in
  if (String.length hex =? 1)%nat then "0" ++ hex else hex.

(** ['#' + [r, g, b].map(...).join('')] *)
Definition rgbToHex (r g b : byte) : string :=
  "#" ++ join "" (map padHex [r; g; b]).

(** [colorCounts: { [key: string]: number }], its entries in insertion
    order, as [Object.entries] lists the keys of an object (a key starting
    with [#] is never an array index). *)
Definition ColorCounts : Type := list (string * nat).

(** [colorCounts[hex] = (colorCounts[hex] || 0) + 1] *)
Fixpoint increment (colorCounts : ColorCounts) (hex : string) : ColorCounts :=
  match colorCounts with
  | [] => [(hex, 1)]
  | (k, n) :: rest =>
      if k =? hex then (k, S n) :: rest else (k, n) :: increment rest hex
  end.

(** The sampling loop [for (let i = 0; i < data.length; i += 4)]. A buffer
    that ends inside a pixel's first two bytes makes [toString] fail on
    [undefined]: [None]. *)
Fixpoint samplePixels (data : list byte) (colorCounts : ColorCounts) : option ColorCounts :=
  match data with
  | [] => Some colorCounts
  | r :: g :: b :: _ :: rest => samplePixels rest (increment colorCounts (rgbToHex r g b))
  | [r; g; b] => Some (increment colorCounts (rgbToHex r g b))
  | _ => None
  end.

(** The loop over [Object.entries(colorCounts)]. *)
Fixpoint mostCommon (entries : ColorCounts) (maxCount : nat) (dominantColor : string) : string :=
  match entries with
  | [] => dominantColor
  | (color, count) :: rest =>
      if (maxCount <? count)%nat then mostCommon rest count color
      else mostCommon rest maxCount dominantColor
  end.

(** [getDominantColor], from the pixel buffer [imageData.data] on. *)
Definition getDominantColor (data : list byte) : option string :=
  match samplePixels data [] with
  | Some colorCounts => Some (mostCommon colorCounts 0 "#666666")
  | None => None
  end.

End AppService.

(** ** Colour classification: [COLORS], [hexToHsl], [hueDistance], [getClosestColorId] *)

Module Palette.
Import JS Arrays.

(** An entry of the palette [COLORS]. *)
Record Color : Type := { id : string; name : string; value : string }.

Definition COLORS : list Color :=
  [ {| id := "all"; name := "All Colors"; value := "all" |};
    {| id := "red"; name := "Red"; value := "#ff0000" |};
    {| id := "orange"; name := "Orange"; value := "#ffa500" |};
    {| id := "yellow"; name := "Yellow"; value := "#ffff00" |};
    {| id := "green"; name := "Green"; value := "#00ff00" |};
    {| id := "blue"; name := "Blue"; value := "#0000ff" |};
    {| id := "purple"; name := "Purple"; value := "#800080" |};
    {| id := "pink"; name := "Pink"; value := "#ff1493" |};
    {| id := "black"; name := "Black"; value := "#000000" |};
    {| id := "white"; name := "White"; value := "#ffffff" |} ].

(** [a < b] and [a === b] on numbers. *)
Definition Qltb (a b : Q) : bool := negb (Qle_bool b a).

(** [Math.max(a, b, c)] and [Math.min(a, b, c)] *)
Definition max3 (a b c : Q) : Q := Qmax (Qmax a b) c.
Definition min3 (a b c : Q) : Q := Qmin (Qmin a b) c.

(** The integer part of a number, towards zero. *)
Definition Qtruncate (x : Q) : Z := Z.quot (Qnum x) (Zpos (Qden x)).

(** [x % m], the remainder that takes the sign of [x]. *)
Definition Qrem (x m : Q) : Q := (x - m * inject_Z (Qtruncate (x / m)))%Q.

(** The value of a hexadecimal digit, in either case ([[a-f\d]] under the
    [i] flag). *)
Definition hexValue (ch : ascii) : option Z :=
  let n := N_of_ascii ch in
  if ((48 <=? n) && (n <=? 57))%N then Some (Z.of_N (n - 48))
  else if ((97 <=? n) && (n <=? 102))%N then Some (Z.of_N (n - 87))
  else if ((65 <=? n) && (n <=? 70))%N then Some (Z.of_N (n - 55))
  else None.

(** [parseInt(pair, 16)] on a group of two hexadecimal digits. *)
Definition hexPair (hi lo : ascii) : option Z :=
  match hexValue hi, hexValue lo with
  | Some a, Some b => Some (16 * a + b)%Z
  | _, _ => None
  end.

(** The match of [/^#?([a-f\d]{2})([a-f\d]{2})([a-f\d]{2})$/i]: the three
    channels, when the text is six hexadecimal digits after an optional [#]. *)
Definition execHex (hex : string) : option (Z * Z * Z) :=
  let digits :=
    match hex with
    | String "#"%char rest => rest
    | _ => hex
    end in
  match digits with
  | String r1 (String r2 (String g1 (String g2 (String b1 (String b2 EmptyString))))) =>
      match hexPair r1 r2, hexPair g1 g2, hexPair b1 b2 with
      | Some r, Some g, Some b => Some (r, g, b)
      | _, _, _ => None
      end
  | _ => None
  end.

Record HSL : Type := { h : Q; s : Q; l : Q }.

Definition hexToHsl (hex : string) : option HSL :=
  match execHex hex with
  | None => None
  | Some (r8, g8, b8) =>
      let r := (inject_Z r8 / 255)%Q in
      let g := (inject_Z g8 / 255)%Q in
      let b := (inject_Z b8 / 255)%Q in
      let max := max3 r g b in
      let min := min3 r g b in
      let l := ((max + min) / 2)%Q in
      let d := (max - min)%Q in
      if Qeq_bool d 0 then Some {| h := 0; s := 0; l := l |}
      else
        let s := if Qltb (1 # 2) l then (d / (2 - max - min))%Q else (d / (max + min))%Q in
        let h :=
          if Qeq_bool max r then ((g - b) / d + (if Qltb g b then 6 else 0))%Q
          else if Qeq_bool max g then ((b - r) / d + 2)%Q
          else if Qeq_bool max b then ((r - g) / d + 4)%Q
          else 0%Q in
        Some {| h := (h * 60)%Q; s := s; l := l |}
  end.

Definition hueDistance (a b : Q) : Q :=
  let d := Qrem (Qabs (a - b)) 360 in
  if Qltb 180 d then (360 - d)%Q else d.

(** [all], [white] and [black] carry no hue. *)
Definition isHueBucket (c : Color) : bool :=
  negb (id c =? "all") && negb (id c =? "white") && negb (id c =? "black").

(** [hexToHsl(c.value)!.h]: reading [.h] of [null] is a TypeError ([None]). *)
Fixpoint withHues (palette : list Color) : option (list (string * Q)) :=
  match palette with
  | [] => Some []
  | c :: rest =>
      match hexToHsl (value c), withHues rest with
      | Some hsl, Some tl => Some ((id c, h hsl) :: tl)
      | _, _ => None
      end
  end.

Definition paletteWithHues : option (list (string * Q)) :=
  withHues (filter isHueBucket COLORS).

(** The comparator [(a, b) => a.dist - b.dist], as the test that its result
    is not positive. *)
Definition compareDist (a b : string * Q) : bool :=
  Qle_bool (snd a - snd b) 0.

(** [getClosestColorId]; [None] stands for a TypeError. *)
Definition getClosestColorId (color : string) : option string :=
  match hexToHsl color with
  | None => Some "black"
  | Some hsl =>
      if Qltb (s hsl) (12 # 100) then
        Some (if Qltb (8 # 10) (l hsl) then "white" else "black")
      else
        match paletteWithHues with
        | None => None
        | Some hues =>
            let closest :=
              hd_error (sort compareDist
                          (map (fun p => (fst p, hueDistance (h hsl) (snd p))) hues)) in
            match closest with
            | Some (cid, _) => Some (if nonEmpty cid then cid else "black")
            | None => Some "black"
            end
        end
  end.

End Palette.

(** ** The gallery: search history and the join with the catalog *)

Module Gallery.
Import JS Arrays.

(** *** Search history *)

(** The updater passed to [setSearchHistory]:
    [[searchValue, ...prev.filter(t => t !== searchValue)].slice(0, 5)]. *)
Definition addToHistory (searchValue : string) (prev : list string) : list string :=
  slice (searchValue :: filter (fun t => negb (t =? searchValue)) prev) 0 5.

(** The part of the component state that a search reads and writes. *)
Record SearchState : Type :=
  { searchTerm : string;
    searchHistory : list string }.

Definition initialState : SearchState :=
  {| searchTerm := ""; searchHistory := [] |}.

(** [term || searchTerm] *)
Definition searchValueOf (term : option string) (st : SearchState) : string :=
  match term with
  | Some t => if nonEmpty t then t else searchTerm st
  | None => searchTerm st
  end.

(** What the gallery does to the search state. *)
Inductive Event : Type :=
| Typed (text : string)
    (* the input box calls [setSearchTerm(text)] *)
| Searched (term : option string) (succeeded : bool)
    (* [searchApps(term)]; [succeeded] tells whether the lookups resolved *)
| Cleared.
    (* [clearSearch()] *)

(** [searchApps(term)] on the search state: a blank search value returns
    before anything is written; otherwise the history is updated first, and
    [setSearchTerm(term)] runs only after the lookups have resolved. *)
Definition searchApps (term : option string) (succeeded : bool) (st : SearchState) : SearchState :=
  let searchValue := searchValueOf term st in
  if negb (nonEmpty (trim searchValue)) then st
  else
    let history := addToHistory searchValue (searchHistory st) in
    match term with
    | Some t =>
        if succeeded && nonEmpty t
        then {| searchTerm := t; searchHistory := history |}
        else {| searchTerm := searchTerm st; searchHistory := history |}
    | None => {| searchTerm := searchTerm st; searchHistory := history |}
    end.

Definition step (st : SearchState) (e : Event) : SearchState :=
  match e with
  | Typed text => {| searchTerm := text; searchHistory := searchHistory st |}
  | Searched term succeeded => searchApps term succeeded st
  | Cleared => {| searchTerm := ""; searchHistory := searchHistory st |}
  end.

Definition run (events : list Event) : SearchState :=
  fold_left step events initialState.

(** *** Joining the store's answer with the catalog *)

(** The body of [appDetails.map(app => ...)]: the catalog record whose
    [app_store_id] is the text of [trackId] gives the name. *)
Definition withCatalogName (appsFromDb : list AppService.AppData)
    (app : AppService.AppWithDetails) : AppService.AppWithDetails :=
  let dbApp :=
    find (fun dbApp => AppService.app_store_id dbApp =? NumberToString (AppService.trackId app))
         appsFromDb in
  {| AppService.trackId := AppService.trackId app;
     AppService.trackName :=
       match dbApp with
       | Some d => AppService.name d
       | None => AppService.trackName app
       end;
     AppService.artworkUrl100 := AppService.artworkUrl100 app;
     AppService.primaryGenreName := AppService.primaryGenreName app;
     AppService.genres := AppService.genres app;
     AppService.trackViewUrl := AppService.trackViewUrl app;
     AppService.dominantColor := AppService.dominantColor app |}.

Section Display.

Variable localeCompare : string -> string -> Z.
Variable toLowerCase : string -> string.
Variable trim : string -> string.

(** The comparator [(a, b) => a.trackName.localeCompare(b.trackName)]. *)
Definition compareTrackNames (a b : AppService.AppWithDetails) : bool :=
  (localeCompare (AppService.trackName a) (AppService.trackName b) <=? 0)%Z.

(** [appDetails.map(...).sort(...)], the list [allApps] of both
    [loadAppsByCategory] and [searchApps]. *)
Definition allApps (appsFromDb : list AppService.AppData)
    (appDetails : list AppService.AppWithDetails) : list AppService.AppWithDetails :=
  sort compareTrackNames (map (withCatalogName appsFromDb) appDetails).


End Display.

(** Comparison of strings by their bytes, a comparator to run examples with. *)
Definition byteCompare (a b : string) : Z :=
  match String.compare a b with
  | Lt => (-1)%Z
  | Eq => 0%Z
  | Gt => 1%Z
  end.

End Gallery.

(** ** Image export: rounded clip paths and the combined sheet *)

Module ImageExport.
Import JS Arrays.

(** The calls made on the 2D context while a path is built. *)
Inductive PathCommand : Type :=
| beginPath
| moveTo (x y : Q)
| arcTo (x1 y1 x2 y2 radius : Q)
| closePath.

(** The radius [r] that [addRoundedRectPath] draws with:
    [Math.max(0, Math.min(radius, Math.min(width, height) / 2))]. *)
Definition cornerRadius (width height radius : Q) : Q :=
  Qmax 0 (Qmin radius (Qmin width height / 2)).

Definition addRoundedRectPath (x y width height radius : Q) : list PathCommand :=
  let r := cornerRadius width height radius in
  [ beginPath;
    moveTo (x + r) y;
    arcTo (x + width) y (x + width) (y + height) r;
    arcTo (x + width) (y + height) x (y + height) r;
    arcTo x (y + height) x y r;
    arcTo x y (x + width) y r;
    closePath ].

(** The radii of the arcs of a path, in drawing order. *)
Fixpoint arcRadii (path : list PathCommand) : list Q :=
  match path with
  | [] => []
  | arcTo _ _ _ _ r :: rest => r :: arcRadii rest
  | _ :: rest => arcRadii rest
  end.

(** What the export reads of an image element: two properties of its
    computed style, its bounding rectangle and its natural size. *)
Record ImageElement : Type :=
  { borderTopLeftRadius : string;
    borderRadius : string;
    rectWidth : Q;
    rectHeight : Q;
    naturalWidth : N;
    naturalHeight : N }.

(** [a || b] on strings. *)
Definition orElse (a b : string) : string := if nonEmpty a then a else b.

(** [s.split(sep)[0]]: the text before the first [sep]. *)
Fixpoint beforeFirst (sep : ascii) (s : string) : string :=
  match s with
  | EmptyString => EmptyString
  | String ch rest => if Ascii.eqb ch sep then EmptyString else String ch (beforeFirst sep rest)
  end.

(** [s.endsWith('%')] *)
Fixpoint endsWithPercent (s : string) : bool :=
  match s with
  | EmptyString => false
  | String ch EmptyString => Ascii.eqb ch "%"%char
  | String _ rest => endsWithPercent rest
  end.

(** [x || d] on numbers: zero is falsy. *)
Definition orNumber (x d : Q) : Q := if Qeq_bool x 0 then d else x.

Section Ratio.

(** [parseFloat]: the number a text starts with, [None] for NaN. *)
Variable parseFloat : string -> option Q.

(** [parseFloat(first) || 0] *)
Definition parseOrZero (first : string) : Q :=
  match parseFloat first with
  | Some x => x
  | None => 0%Q
  end.

(** The local [first] of [getBorderRadiusRatio]: the first length of the
    top-left radius, [br.split('/')[0].trim().split(' ')[0]]. *)
Definition firstLength (el : ImageElement) : string :=
  let br := orElse (borderTopLeftRadius el) (orElse (borderRadius el) "0") in
  beforeFirst " "%char (trim (beforeFirst "/"%char br)).

Definition getBorderRadiusRatio (el : ImageElement) : Q :=
  let first := firstLength el in
  let base := orNumber (Qmin (orNumber (rectWidth el) 0) (orNumber (rectHeight el) 0)) 1 in
  if endsWithPercent first then
    let pct := parseOrZero first in
    Qmax 0 (Qmin 1 (pct / 100))
  else
    let px := parseOrZero first in
    Qmax 0 (Qmin 1 (px / base)).

(** What [copySingleImageWithRadius] draws: the canvas size, the requested
    radius and the clip path. *)
Record SingleExport : Type :=
  { canvasWidth : N;
    canvasHeight : N;
    requestedRadius : Q;
    clipPath : list PathCommand }.

Definition NtoQ (n : N) : Q := inject_Z (Z.of_N n).

Definition copySingleImageWithRadius (imgEl : ImageElement) : SingleExport :=
  let width := naturalWidth imgEl in
  let height := naturalHeight imgEl in
  let ratio := getBorderRadiusRatio imgEl in
  let radius := (ratio * Qmin (NtoQ width) (NtoQ height))%Q in
  {| canvasWidth := width;
     canvasHeight := height;
     requestedRadius := radius;
     clipPath := addRoundedRectPath 0 0 (NtoQ width) (NtoQ height) radius |}.

(** [Math.round(x)]: the nearest whole number, halves upwards. *)
Definition round (x : Q) : Z := Qfloor (x + (1 # 2)).

(** [Math.ceil(Math.sqrt(n))] for an array length [n]: the least [k] with
    [n <= k * k]. The square root of binary64 is correctly rounded, hence
    exact on perfect squares and short of the next whole number otherwise. *)
Definition ceilSqrt (n : nat) : nat := Nat.sqrt_up n.

(** [Math.ceil(n / cols)] for array lengths: the least [r] with
    [n <= r * cols]; NaN ([None]) for [0 / 0]. A quotient of two such
    lengths that is not whole lies further from the whole numbers than
    binary64 rounds. *)
Definition ceilDiv (n cols : nat) : option nat :=
  match cols with
  | O => None
  | S _ => Some ((n + cols - 1) / cols)
  end.

(** [options?: { cellSize?: number; gap?: number }] *)
Record LayoutOptions : Type := { cellSize : option Z; gap : option Z }.

(** [options?.cellSize ?? 512] *)
Definition cellOf (options : option LayoutOptions) : Z :=
  match options with
  | Some o => match cellSize o with Some x => x | None => 512%Z end
  | None => 512%Z
  end.

(** [options?.gap ?? Math.round(cell * 0.06)] *)
Definition gapOf (options : option LayoutOptions) : Z :=
  let fallback := round (inject_Z (cellOf options) * (6 # 100)) in
  match options with
  | Some o => match gap o with Some x => x | None => fallback end
  | None => fallback
  end.

(** [img.naturalWidth / img.naturalHeight] *)
Inductive Aspect : Type :=
| AspectNaN                (* 0 / 0 *)
| AspectInfinity           (* a positive width over 0 *)
| AspectOf (q : Q).

Definition aspectOf (img : ImageElement) : Aspect :=
  if (naturalHeight img =? 0)%N then
    if (naturalWidth img =? 0)%N then AspectNaN else AspectInfinity
  else AspectOf (NtoQ (naturalWidth img) / NtoQ (naturalHeight img)).

(** The size [(drawW, drawH)] an image is drawn at inside a cell. *)
Definition drawSize (cell : Z) (aspect : Aspect) : Z * Z :=
  match aspect with
  | AspectNaN => (cell, cell)
  | AspectInfinity => (cell, round 0)
  | AspectOf a =>
      if Palette.Qltb 1 a then (cell, round (inject_Z cell / a))
      else if Palette.Qltb a 1 then (round (inject_Z cell * a), cell)
      else (cell, cell)
  end.

(** One iteration of the drawing loop. *)
Record Tile : Type :=
  { col : nat;
    row : nat;
    tileX : Z;
    tileY : Z;
    drawW : Z;
    drawH : Z;
    dx : Z;
    dy : Z;
    radius : Q;
    path : list PathCommand }.

Definition drawTile (cols : nat) (cell gap : Z) (i : nat) (img : ImageElement) : Tile :=
  let col := i mod cols in
  let row := i / cols in
  let tileX := (gap + Z.of_nat col * (cell + gap))%Z in
  let tileY := (gap + Z.of_nat row * (cell + gap))%Z in
  let '(drawW, drawH) := drawSize cell (aspectOf img) in
  let dx := (tileX + round (inject_Z (cell - drawW) / 2))%Z in
  let dy := (tileY + round (inject_Z (cell - drawH) / 2))%Z in
  let ratio := getBorderRadiusRatio img in
  let radius := (ratio * inject_Z (Z.min drawW drawH))%Q in
  {| col := col; row := row; tileX := tileX; tileY := tileY;
     drawW := drawW; drawH := drawH; dx := dx; dy := dy;
     radius := radius;
     path := addRoundedRectPath (inject_Z dx) (inject_Z dy) (inject_Z drawW)
               (inject_Z drawH) radius |}.

(** The loop [for (let i = 0; i < n; i++)] from index [i] on. *)
Fixpoint drawTiles (cols : nat) (cell gap : Z) (i : nat) (ready : list ImageElement) : list Tile :=
  match ready with
  | [] => []
  | img :: rest => drawTile cols cell gap i img :: drawTiles cols cell gap (S i) rest
  end.

(** The combined sheet: the grid, the canvas size in pixels and the tiles.
    A NaN height reads back as 0 from the canvas. *)
Record CombinedCanvas : Type :=
  { columns : nat;
    rowCount : option nat;
    width : Z;
    height : Z;
    tiles : list Tile }.

Definition generateCombinedCanvas (images : list ImageElement)
    (options : option LayoutOptions) : CombinedCanvas :=
  let ready := images in
  let n := List.length ready in
  let cols := ceilSqrt n in
  let rows := ceilDiv n cols in
  let cell := cellOf options in
  let gap := gapOf options in
  {| columns := cols;
     rowCount := rows;
     width := (Z.of_nat cols * cell + (Z.of_nat cols + 1) * gap)%Z;
     height :=
       match rows with
       | Some r => (Z.of_nat r * cell + (Z.of_nat r + 1) * gap)%Z
       | None => 0%Z
       end;
     tiles := drawTiles cols cell gap 0 ready |}.

End Ratio.

(** A reader of plain decimal text ([12], [-3], [7.25]), to run examples
    with: an optional sign, digits, an optional fraction. *)
Fixpoint readFraction (s : string) (scale : positive) (acc : Z) : Z * positive :=
  match s with
  | EmptyString => (acc, scale)
  | String ch rest =>
      match digitValue ch with
      | Some d => readFraction rest (scale * 10) (10 * acc + d)%Z
      | None => (acc, scale)
      end
  end.

Fixpoint readDecimal (s : string) (acc : option Z) : option Q :=
  match s with
  | EmptyString => option_map inject_Z acc
  | String ch rest =>
      match digitValue ch with
      | Some d =>
          readDecimal rest (Some (10 * match acc with Some a => a | None => 0 end + d)%Z)
      | None =>
          match acc with
          | Some a =>
              if Ascii.eqb ch "."%char
              then let '(num, scale) := readFraction rest 1 a in Some (num # scale)%Q
              else Some (inject_Z a)
          | None => None
          end
      end
  end.

Definition decimalParseFloat (s : string) : option Q :=
  match trimStart s with
  | String "-"%char rest => option_map Qopp (readDecimal rest None)
  | String "+"%char rest => readDecimal rest None
  | t => readDecimal t None
  end.

End ImageExport.

(** ** Texts by index: [indexOf], [lastIndexOf], [slice] *)

Module Text.

(** [s.indexOf(ch)] from index [i] on: the index of the first occurrence,
    [-1] when there is none. *)
Fixpoint indexOfFrom (ch : ascii) (s : string) (i : Z) : Z :=
  match s with
  | EmptyString => (-1)%Z
  | String c rest => if Ascii.eqb c ch then i else indexOfFrom ch rest (i + 1)
  end.

Definition indexOf (s : string) (ch : ascii) : Z := indexOfFrom ch s 0.

(** [s.lastIndexOf(ch)]: the index of the last occurrence, [found] being
    the last one seen so far. *)
Fixpoint lastIndexOfFrom (ch : ascii) (s : string) (i found : Z) : Z :=
  match s with
  | EmptyString => found
  | String c rest => lastIndexOfFrom ch rest (i + 1) (if Ascii.eqb c ch then i else found)
  end.

Definition lastIndexOf (s : string) (ch : ascii) : Z := lastIndexOfFrom ch s 0 (-1).

(** An index argument of [slice] brought into [0 .. len]: a negative index
    counts from the end. *)
Definition clampIndex (len i : Z) : Z :=
  if (i <? 0)%Z then Z.max (len + i) 0 else Z.min i len.

(** [s.slice(start, stop)]: empty when the span is empty or negative. *)
Definition slice (s : string) (start stop : Z) : string :=
  let len := Z.of_nat (String.length s) in
  let from := clampIndex len start in
  let to := clampIndex len stop in
  substring (Z.to_nat from) (Z.to_nat (to - from)) s.

(** The text between the first [{] and the last [}] of a gviz answer,
    [text.slice(text.indexOf('{'), text.lastIndexOf('}') + 1)]. *)
Definition extractJson (text : string) : string :=
  let jsonStart := indexOf text "{"%char in
  let jsonEnd := (lastIndexOf text "}"%char + 1)%Z in
  slice text jsonStart jsonEnd.

End Text.

(** ** The serverless proxies, [api/sheets.ts] and [api/itunes.ts] *)

Module Http.

(** A JSON body as the handlers write it: the data passed through, or the
    object [{ error, message? }]. *)
Inductive Body (A : Type) : Type :=
| NoBody
| Data (data : A)
| ErrorBody (error : string) (message : option string).
Arguments NoBody {A}.
Arguments Data {A} data.
Arguments ErrorBody {A} error message.

Record Response (A : Type) : Type :=
  { headers : list (string * string);
    status : Z;
    body : Body A }.
Arguments headers {A} _.
Arguments status {A} _.
Arguments body {A} _.

(** The three [response.setHeader] calls of both handlers. *)
Definition corsHeaders : list (string * string) :=
  [ ("Access-Control-Allow-Origin", "*");
    ("Access-Control-Allow-Methods", "GET, OPTIONS");
    ("Access-Control-Allow-Headers", "Content-Type") ].

(** [response.status(code).json(body)], or [.end()] without a body. *)
Definition respond {A : Type} (status : Z) (body : Body A) : Response A :=
  {| headers := corsHeaders; status := status; body := body |}.

End Http.

Module Sheets.
Import JS Http.

(** What [fetch(GVIZ_URL)] gives: a rejection with the message of its
    error, or an answer with its [ok] flag, status and body text. *)
Inductive Upstream : Type :=
| NetworkError (message : string)
| Answered (ok : bool) (status : Z) (text : string).

Section Handler.

(** [JSON.parse] read through the interface [GvizResponse]: the payload, or
    the message of the SyntaxError. *)
Variable JSON_parse : string -> AppService.GvizResponse + string.

(** The handler of [api/sheets.ts], given the request method and what the
    fetch of the sheet gives. *)
Definition handler (method : string) (sheetResponse : Upstream)
    : Response AppService.GvizResponse :=
  if method =? "OPTIONS" then respond 200 NoBody
  else if negb (method =? "GET") then respond 405 (ErrorBody "Method not allowed" None)
  else
    let failed message :=
      respond 500 (ErrorBody "Failed to fetch data from Google Sheets" (Some message)) in
    match sheetResponse with
    | NetworkError message => failed message
    | Answered ok status text =>
        if negb ok then failed ("Google Sheets API returned " ++ NumberToString (Int status))%string
        else
          match JSON_parse (Text.extractJson text) with
          | inl payload => respond 200 (Data payload)
          | inr message => failed message
          end
    end.

End Handler.

End Sheets.

Module Itunes.
Import JS Http.

(** [request.query.id]: absent, one value, or several. *)
Inductive QueryValue : Type :=
| Absent
| Single (value : string)
| Multiple (values : list string).

(** What the fetch of the store gives: a rejection, or an answer whose
    body parses to [data] or fails to parse. *)
Inductive Upstream : Type :=
| NetworkError (message : string)
| Answered (ok : bool) (status : Z) (json : AppService.LookupResponse + string).

(** The handler of [api/itunes.ts]. *)
Definition handler (method : string) (ids : QueryValue) (itunesResponse : Upstream)
    : Response AppService.LookupResponse :=
  if method =? "OPTIONS" then respond 200 NoBody
  else if negb (method =? "GET") then respond 405 (ErrorBody "Method not allowed" None)
  else
    let valid :=
      match ids with
      | Single value => nonEmpty value
      | _ => false
      end in
    if negb valid then respond 400 (ErrorBody "Missing or invalid id parameter" None)
    else
      let failed message :=
        respond 500 (ErrorBody "Failed to fetch data from iTunes API" (Some message)) in
      match itunesResponse with
      | NetworkError message => failed message
      | Answered ok status json =>
          if negb ok then failed ("iTunes API returned " ++ NumberToString (Int status))%string
          else
            match json with
            | inl data => respond 200 (Data data)
            | inr message => failed message
            end
      end.

(** [res.json()] on the answer of the proxy, read through the interface of
    the lookup answer: the error object has no [results]; an answer without
    a body does not parse. *)
Definition responseJson (response : Response AppService.LookupResponse)
    : AppService.Settled AppService.LookupResponse :=
  match body response with
  | Data data => AppService.Resolved data
  | ErrorBody _ _ => AppService.Resolved {| AppService.results := None |}
  | NoBody => AppService.Rejected
  end.

End Itunes.

(** ** The way to the catalog: the first part of [loadAppsFromSheet] *)

Module Catalog.
Import JS Http.

Definition SHEET_ID : string := "1-6D3ft-5hg-SfE_ptLmS1WOni2si73XgY9kSnBf--CM".

Definition GVIZ_URL : string :=
  "https://docs.google.com/spreadsheets/d/" ++ SHEET_ID ++ "/gviz/tq?tqx=out:json".

(** [production] tells that the page is served from another host than
    localhost. *)
Definition getSheetsUrl (production : bool) : string :=
  if production then "/api/sheets" else GVIZ_URL.

(** What a cell is after [response.json(payload)] on the proxy and
    [response.json()] on the page: [JSON.stringify] writes a number that is
    not finite as [null]; texts, booleans, finite numbers and [null] come
    back as they were. *)
Definition cellOverTheWire (cell : AppService.GvizCell) : AppService.GvizCell :=
  match AppService.v cell with
  | Some (VNum n) => if Number_isFinite n then cell else {| AppService.v := None |}
  | _ => cell
  end.

Definition rowOverTheWire (row : AppService.GvizRow) : AppService.GvizRow :=
  {| AppService.c := map (option_map cellOverTheWire) (AppService.c row) |}.

(** The payload after the same round trip: the columns hold texts only. *)
Definition overTheWire (payload : AppService.GvizResponse) : AppService.GvizResponse :=
  {| AppService.table :=
       option_map
         (fun t =>
            {| AppService.cols := AppService.cols t;
               AppService.rows :=
                 option_map (map (option_map rowOverTheWire)) (AppService.rows t) |})
         (AppService.table payload) |}.

Section Fetch.

Variable JSON_parse : string -> AppService.GvizResponse + string.

(** [await response.json()] on the answer of the proxy, read through the
    interface [GvizResponse]: the payload after its round trip as JSON; the
    error object has no [table]; an answer without a body does not parse. *)
Definition responseJson (response : Response AppService.GvizResponse)
    : AppService.Settled AppService.GvizResponse :=
  match body response with
  | Data payload => AppService.Resolved (overTheWire payload)
  | ErrorBody _ _ => AppService.Resolved {| AppService.table := None |}
  | NoBody => AppService.Rejected
  end.

(** [loadAppsFromSheet] up to the payload, given what the sheet service
    answers. The fetch of [/api/sheets] runs the handler on a GET request,
    and the status of its answer is not looked at. The fetch of the sheet
    itself gives a text to unwrap, whatever its status. *)
Definition fetchPayload (production : bool) (sheetResponse : Sheets.Upstream)
    : AppService.Settled AppService.GvizResponse :=
  let url := getSheetsUrl production in
  if url =? "/api/sheets" then responseJson (Sheets.handler JSON_parse "GET" sheetResponse)
  else
    match sheetResponse with
    | Sheets.NetworkError _ => AppService.Rejected
    | Sheets.Answered _ _ text =>
        match JSON_parse (Text.extractJson text) with
        | inl payload => AppService.Resolved payload
        | inr _ => AppService.Rejected
        end
    end.

(** [loadAppsFromSheet], from the fetch on. *)
Definition loadApps (production : bool) (sheetResponse : Sheets.Upstream)
    : AppService.Settled (list AppService.AppData) :=
  match fetchPayload production sheetResponse with
  | AppService.Resolved payload => AppService.Resolved (AppService.loadAppsFromSheet payload)
  | AppService.Rejected => AppService.Rejected
  end.

End Fetch.

End Catalog.

(** ** The gallery component: loading, the colour filter, the selection *)

Module App.
Import JS Arrays.

(** [{ ...app, dominantColor: color }] *)
Definition setDominantColor (app : AppService.AppWithDetails) (color : string)
    : AppService.AppWithDetails :=
  {| AppService.trackId := AppService.trackId app;
     AppService.trackName := AppService.trackName app;
     AppService.artworkUrl100 := AppService.artworkUrl100 app;
     AppService.primaryGenreName := AppService.primaryGenreName app;
     AppService.genres := AppService.genres app;
     AppService.trackViewUrl := AppService.trackViewUrl app;
     AppService.dominantColor := Some color |}.

(** The part of the component state that loading writes. *)
Record GalleryState : Type :=
  { apps : list AppService.AppWithDetails;
    totalAppCount : nat;
    isLoading : bool }.

Section Loading.

Variable localeCompare : string -> string -> Z.
Variable production : bool.
Variable fetchJson : string -> AppService.Settled AppService.LookupResponse.

(** [AppService.getDominantColor(url)]: how the promise settles for the
    image at [url]. *)
Variable getDominantColor : string -> AppService.Settled string.

(** The body of [allApps.map(async (app) => { try ... catch ... })]: the
    rejection of the extractor is caught and answered by the fallback. *)
Definition withDominantColor (app : AppService.AppWithDetails)
    : AppService.Settled AppService.AppWithDetails :=
  match getDominantColor (AppService.artworkUrl100 app) with
  | AppService.Resolved color => AppService.Resolved (setDominantColor app color)
  | AppService.Rejected => AppService.Resolved (setDominantColor app "#666666")
  end.

Definition appsWithColors (allApps : list AppService.AppWithDetails)
    : AppService.Settled (list AppService.AppWithDetails) :=
  AppService.PromiseAll (map withDominantColor allApps).

(** The steps of [loadAppsByCategory] from the catalog records to the list
    given to [setApps]; [searchApps] takes the same steps. *)
Definition detailsWithColors (appsFromDb : list AppService.AppData)
    : AppService.Settled (list AppService.AppWithDetails) :=
  let appStoreIds := map AppService.app_store_id appsFromDb in
  match AppService.getAppDetails production fetchJson appStoreIds with
  | AppService.Rejected => AppService.Rejected
  | AppService.Resolved appDetails =>
      appsWithColors (Gallery.allApps localeCompare appsFromDb appDetails)
  end.

(** What [await AppService.getAppsByCategory([selectedCategory])] gives,
    given how the fetch of the catalog settles: the records as [AppData], or
    a rejection when the fetch rejects or the listing raises. The steps
    that follow read the names of the records as strings, which they are
    whenever the listing has compared two of them. *)
Definition appsOfCategory (catalog : AppService.Settled AppService.GvizResponse)
    (selectedCategory : string) : AppService.Settled (list AppService.AppData) :=
  match catalog with
  | AppService.Rejected => AppService.Rejected
  | AppService.Resolved payload =>
      match AppService.getAppsByCategory localeCompare payload [selectedCategory] with
      | Some listed => AppService.Resolved (map AppService.typed listed)
      | None => AppService.Rejected
      end
  end.

(** [loadAppsByCategory], given how the fetch of the catalog settles. A
    rejection at any step is caught and logged; [finally] clears [isLoading]. *)
Definition loadAppsByCategory (catalog : AppService.Settled AppService.GvizResponse)
    (selectedCategory : string) (st : GalleryState) : GalleryState :=
  match appsOfCategory catalog selectedCategory with
  | AppService.Rejected =>
      {| apps := apps st; totalAppCount := totalAppCount st; isLoading := false |}
  | AppService.Resolved appsFromDb =>
      if (List.length appsFromDb =? 0)%nat then
        {| apps := []; totalAppCount := List.length appsFromDb; isLoading := false |}
      else
        match detailsWithColors appsFromDb with
        | AppService.Resolved appsWithColors =>
            {| apps := appsWithColors;
               totalAppCount := List.length appsFromDb;
               isLoading := false |}
        | AppService.Rejected =>
            {| apps := apps st; totalAppCount := List.length appsFromDb; isLoading := false |}
        end
  end.

End Loading.

(** *** The colour filter *)

(** [app.dominantColor || '#666666'] *)
Definition colorOrFallback (app : AppService.AppWithDetails) : string :=
  match AppService.dominantColor app with
  | Some color => if nonEmpty color then color else "#666666"
  | None => "#666666"
  end.

(** The predicate of [apps.filter(...)] in [filteredApps]; [None] stands
    for a TypeError of the classifier. *)
Definition showsUnder (selectedColor : string) (app : AppService.AppWithDetails) : option bool :=
  if selectedColor =? "all" then Some true
  else
    match Palette.getClosestColorId (colorOrFallback app) with
    | Some closest => Some (closest =? selectedColor)
    | None => None
    end.

Definition filteredApps (localeCompare : string -> string -> Z) (selectedColor : string)
    (apps : list AppService.AppWithDetails) : option (list AppService.AppWithDetails) :=
  option_map (sort (Gallery.compareTrackNames localeCompare))
             (filterOrRaise (showsUnder selectedColor) apps).

(** *** The selection *)

(** The updater of [toggleSelect]:
    [prev.includes(appId) ? prev.filter(id => id !== appId) : [...prev, appId]]. *)
Definition toggleSelect (appId : string) (prev : list string) : list string :=
  if arrayIncludes prev appId then filter (fun id => negb (id =? appId)) prev
  else prev ++ [appId].

End App.

(** ** Example data *)

Module Examples.
Import JS AppService.

Definition textCell (s : string) : option GvizCell := Some {| v := Some (VStr s) |}.
Definition numberCell (z : Z) : option GvizCell := Some {| v := Some (VNum (Int z)) |}.
Definition emptyCell : option GvizCell := Some {| v := None |}.

Definition rowMissingId : GvizRow :=
  {| c := [emptyCell; textCell "Zeta"; numberCell 111; textCell "app"] |}.
Definition rowNegativeId : GvizRow :=
  {| c := [numberCell (-7); textCell "Alpha"; textCell "222"; textCell "game"] |}.
Definition rowNoCategory : GvizRow :=
  {| c := [numberCell 3; textCell "Gamma"; textCell "333"; None] |}.
Definition rowOtherCategory : GvizRow :=
  {| c := [numberCell 4; textCell "Gamma Ray"; textCell "444"; textCell "utility"] |}.
Definition rowApp : GvizRow :=
  {| c := [numberCell 5; textCell "gamma app"; textCell "555"; textCell "app"] |}.
Definition rowNoName : GvizRow :=
  {| c := [numberCell 6; emptyCell; textCell "666"; textCell "app"] |}.

(** A sheet with the columns [ID], [Name], [app_store_id], [Category]. *)
Definition sheet : GvizResponse :=
  {| table := Some
       {| cols := Some [ Some {| label := Some " ID " |};
                         Some {| label := Some "Name" |};
                         Some {| label := Some "app_store_id" |};
                         Some {| label := Some "Category" |} ];
          rows := Some [ Some rowMissingId; Some rowNegativeId; None;
                         Some rowNoCategory; Some rowOtherCategory;
                         Some rowApp; Some rowNoName ] |} |}.

Definition recordOf (row : GvizRow) : AppData := rowToApp (labelToIndex sheet) row.

Definition loadedOf (row : GvizRow) : LoadedApp := rowToLoaded (labelToIndex sheet) row.



(** A sheet of two rows, the first with an infinity in its id cell. *)
Definition rowInfiniteId : GvizRow :=
  {| c := [Some {| v := Some (VNum PosInfinity) |}; textCell "Omega"; textCell "777";
           textCell "app"] |}.

Definition sheetWithInfinity : GvizResponse :=
  {| table := Some
       {| cols := Some [ Some {| label := Some "id" |};
                         Some {| label := Some "name" |};
                         Some {| label := Some "app_store_id" |};
                         Some {| label := Some "category" |} ];
          rows := Some [ Some rowInfiniteId; Some rowApp ] |} |}.

(** An icon with a percentage radius, twice as wide as high, and a square one
    with a radius in pixels. *)
Definition wideIcon : ImageExport.ImageElement :=
  {| ImageExport.borderTopLeftRadius := "22.5%";
     ImageExport.borderRadius := "";
     ImageExport.rectWidth := 160;
     ImageExport.rectHeight := 80;
     ImageExport.naturalWidth := 100;
     ImageExport.naturalHeight := 50 |}.

Definition squareIcon : ImageExport.ImageElement :=
  {| ImageExport.borderTopLeftRadius := "";
     ImageExport.borderRadius := "16px 8px / 4px";
     ImageExport.rectWidth := 64;
     ImageExport.rectHeight := 64;
     ImageExport.naturalWidth := 100;
     ImageExport.naturalHeight := 100 |}.

Definition fiveIcons : list ImageExport.ImageElement :=
  [wideIcon; squareIcon; wideIcon; squareIcon; wideIcon].

(** A store record with the given id and name. *)
Definition storeRecord (trackId : Z) (trackName : string) : AppWithDetails :=
  {| trackId := Int trackId;
     trackName := trackName;
     artworkUrl100 := "https://example.org/icon.png";
     primaryGenreName := "Utilities";
     genres := ["Utilities"];
     trackViewUrl := "https://example.org/app";
     dominantColor := None |}.

(** Twenty-one store identifiers, [1] to [21]. *)
Definition manyIds : list string :=
  [ "1"; "2"; "3"; "4"; "5"; "6"; "7"; "8"; "9"; "10";
    "11"; "12"; "13"; "14"; "15"; "16"; "17"; "18"; "19"; "20"; "21" ].

(** A store that answers three requests of the proxy and fails on any
    other: two records, an object without [results], one record. *)
Definition store (url : string) : Settled LookupResponse :=
  if url =? "/api/itunes?id=1,2,3,4,5,6,7,8,9,10"
  then Resolved {| results := Some [storeRecord 1 "One"; storeRecord 2 "Two"] |}
  else if url =? "/api/itunes?id=11,12,13,14,15,16,17,18,19,20"
  then Resolved {| results := None |}
  else if url =? "/api/itunes?id=21"
  then Resolved {| results := Some [storeRecord 21 "Last"] |}
  else Rejected.

(** Pixels: opaque red, opaque blue, and a half transparent blue. *)
Definition redPixel : byte * byte * byte * byte := (xff, x00, x00, xff)%byte.
Definition bluePixel : byte * byte * byte * byte := (x00, x00, xff, xff)%byte.
Definition paleBluePixel : byte * byte * byte * byte := (x00, x00, xff, x80)%byte.

End Examples.

(** ** Vocabulary of the properties *)


(** The join key of a store record, [app.trackId.toString()]. *)
Definition joinKey (app : AppService.AppWithDetails) : string :=
  JS.NumberToString (AppService.trackId app).

(** The buckets that carry a hue, in palette order. *)
Definition hueBuckets : list string :=
  ["red"; "orange"; "yellow"; "green"; "blue"; "purple"; "pink"].

(** A pixel of the buffer: red, green, blue, alpha. *)
Definition Pixel : Type := (byte * byte * byte * byte)%type.

(** The buffer [imageData.data] of a raster: four bytes per pixel. *)
Definition imageData (pixels : list Pixel) : list byte :=
  flat_map (fun p : Pixel => let '(r, g, b, a) := p in [r; g; b; a]) pixels.

(** The colour text of a pixel; alpha plays no part. *)
Definition pixelColor (p : Pixel) : string :=
  let '(r, g, b, _) := p in AppService.rgbToHex r g b.

(** How many pixels have the colour [color]. *)
Definition frequency (pixels : list Pixel) (color : string) : nat :=
  count_occ string_dec (map pixelColor pixels) color.

(** One of [0-9a-f]. *)
Definition isLowerHexDigit (ch : ascii) : bool :=
  let n := N_of_ascii ch in
  ((48 <=? n) && (n <=? 57) || (97 <=? n) && (n <=? 102))%N.

(** [#] followed by six lower-case hexadecimal digits. *)
Definition isHexColor (s : string) : bool :=
  match s with
  | String "#"%char (String c1 (String c2 (String c3 (String c4 (String c5 (String c6 EmptyString)))))) =>
      forallb isLowerHexDigit [c1; c2; c3; c4; c5; c6]
  | _ => false
  end.

(** The count recorded for a key, 0 when the key is absent. *)
Fixpoint countOf (colorCounts : AppService.ColorCounts) (key : string) : nat :=
  match colorCounts with
  | [] => 0
  | (k, n) :: rest => if k =? key then n else countOf rest key
  end.

(** The red, green and blue bytes of a pixel. *)
Definition rgbOf (p : Pixel) : byte * byte * byte :=
  let '(r, g, b, _) := p in (r, g, b).

(** A comparator that orders texts as a total preorder. *)
Definition totalPreorder (compare : string -> string -> Z) : Prop :=
  (forall x y, (compare x y <= 0)%Z \/ (compare y x <= 0)%Z) /\
  (forall x y z, (compare x y <= 0)%Z -> (compare y z <= 0)%Z -> (compare x z <= 0)%Z).

(** Comparison of texts by their length, a total preorder to run examples
    with. *)
Definition lengthCompare (a b : string) : Z :=
  (Z.of_nat (String.length a) - Z.of_nat (String.length b))%Z.

(** The name of a loaded record is a string. *)
Definition hasStringName (a : AppService.LoadedApp) : bool :=
  match AppService.nameValue a with
  | JS.VStr _ => true
  | _ => false
  end.

(** The name of a loaded record as text. *)
Definition nameText (a : AppService.LoadedApp) : string :=
  JS.ToString (AppService.nameValue a).

(** The order of catalog records by name, and of store records by track
    name, under a comparator. *)
Definition nameOrder (compare : string -> string -> Z) (a b : AppService.LoadedApp) : Prop :=
  (compare (nameText a) (nameText b) <= 0)%Z.

Definition trackNameOrder (compare : string -> string -> Z)
    (a b : AppService.AppWithDetails) : Prop :=
  (compare (AppService.trackName a) (AppService.trackName b) <= 0)%Z.

(** The name is a string that, in lower case, contains the search term as
    typed once it is trimmed and put in lower case. *)
Definition nameMatches (toLowerCase trim : string -> string) (searchTerm : string)
    (a : AppService.LoadedApp) : bool :=
  match AppService.nameValue a with
  | JS.VStr s => JS.includes (toLowerCase s) (toLowerCase (trim searchTerm))
  | _ => false
  end.


(** Two records whose names the comparator does not tell apart. *)
Definition sameRank (compare : string -> string -> Z) (a b : AppService.LoadedApp) : bool :=
  ((compare (nameText a) (nameText b) <=? 0) &&
   (compare (nameText b) (nameText a) <=? 0))%Z.

(** The comparison of two records by the text of their names. *)
Definition nameLeq (compare : string -> string -> Z) (a b : AppService.LoadedApp) : bool :=
  (compare (nameText a) (nameText b) <=? 0)%Z.

(** The hues of the seven hue buckets, in degrees and in palette order. *)
Definition paletteHues : list (string * Q) :=
  [ ("red", 0%Q); ("orange", (660 # 17)%Q); ("yellow", 60%Q); ("green", 120%Q);
    ("blue", 240%Q); ("purple", 300%Q); ("pink", (15396 # 47)%Q) ].

(** The same bucket with the same hue. *)
Definition sameHue (p q : string * Q) : Prop :=
  fst p = fst q /\ (snd p == snd q)%Q.

(** The channels of a pixel as numbers. *)
Definition channelsOf (r g b : byte) : Z * Z * Z :=
  (Z.of_N (Byte.to_N r), Z.of_N (Byte.to_N g), Z.of_N (Byte.to_N b)).

(** The largest and the smallest of three channels. *)
Definition maxChannel (r g b : Z) : Z := Z.max (Z.max r g) b.
Definition minChannel (r g b : Z) : Z := Z.min (Z.min r g) b.

(** Lightness and saturation of a colour in the HSL model, from its
    channels in 0..255: with [M] the largest and [m] the smallest channel,
    the lightness is [(M + m) / 510]; the saturation is 0 for a grey, and
    else [(M - m) / (510 - M - m)] above half lightness and
    [(M - m) / (M + m)] up to it. *)
Definition lightnessOf (r g b : Z) : Q := (maxChannel r g b + minChannel r g b) # 510.

Definition saturationOf (r g b : Z) : Q :=
  let M := maxChannel r g b in
  let m := minChannel r g b in
  if (M =? m)%Z then 0
  else if (255 <? M + m)%Z then inject_Z (M - m) / inject_Z (510 - M - m)
  else inject_Z (M - m) / inject_Z (M + m).

(** The sixteen hexadecimal digits, in lower case. *)
Definition hexDigits : list ascii := list_ascii_of_string "0123456789abcdef".

(** A byte as two hexadecimal digits. *)
Definition twoHexDigits (x : byte) : string :=
  let n := N.to_nat (Byte.to_N x) in
  String (nth (n / 16) hexDigits "0"%char)
         (String (nth (n mod 16) hexDigits "0"%char) EmptyString).

(** The colour text of three channels: [#], then two digits for each. *)
Definition colorText (rgb : byte * byte * byte) : string :=
  let '(r, g, b) := rgb in
  String "#" (twoHexDigits r ++ twoHexDigits g ++ twoHexDigits b).

(** The same three channels. *)
Definition sameChannels (x y : byte * byte * byte) : bool :=
  let '(r, g, b) := x in
  let '(r', g', b') := y in
  ((Byte.to_N r =? Byte.to_N r') && (Byte.to_N g =? Byte.to_N g') &&
   (Byte.to_N b =? Byte.to_N b'))%N.

(** How many pixels of a raster have the channels [rgb]; alpha plays no
    part. *)
Definition occurrences (pixels : list Pixel) (rgb : byte * byte * byte) : nat :=
  List.length (filter (fun p => sameChannels (rgbOf p) rgb) pixels).

(** The nine buckets of the classifier: the palette without [all]. *)
Definition bucketIds : list string := hueBuckets ++ ["black"; "white"].

(** The bucket of a gallery entry, as the colour filter computes it. *)
Definition bucketOf (app : AppService.AppWithDetails) : string :=
  match Palette.getClosestColorId (App.colorOrFallback app) with
  | Some bucket => bucket
  | None => ""
  end.

(** The test of the colour filter on a gallery entry. *)
Definition shownUnder (selectedColor : string) (app : AppService.AppWithDetails) : bool :=
  (selectedColor =? "all") || (bucketOf app =? selectedColor).

(** The colour a gallery entry ends up with: the extracted one, or the
    fallback when the extraction fails. *)
Definition colorFor (getDominantColor : string -> AppService.Settled string)
    (app : AppService.AppWithDetails) : string :=
  match getDominantColor (AppService.artworkUrl100 app) with
  | AppService.Resolved color => color
  | AppService.Rejected => "#666666"
  end.

(** The selection after a series of clicks on gallery entries, starting
    from [prev]. *)
Definition selectionAfter (clicks : list string) (prev : list string) : list string :=
  fold_left (fun selected appId => App.toggleSelect appId selected) clicks prev.

(** A gallery of two entries in order of the length of their names. *)
Definition twoEntries : list AppService.AppWithDetails :=
  [Examples.storeRecord 1 "Go"; Examples.storeRecord 2 "Maps"].

(** A record belongs to the selected category: the category is the
    wildcard [all], or the category of the record is that very text, not
    empty. *)
Definition inCategory (selectedCategory : string) (a : AppService.LoadedApp) : bool :=
  (selectedCategory =? "all") ||
  match AppService.categoryValue a with
  | Some (JS.VStr cat) => negb (cat =? "") && (cat =? selectedCategory)
  | _ => false
  end.

(** Whether a character occurs in a text. *)
Fixpoint hasChar (ch : ascii) (s : string) : bool :=
  match s with
  | EmptyString => false
  | String c rest => Ascii.eqb c ch || hasChar ch rest
  end.

(** The answer of the sheet service as it comes over the wire, around a
    body. *)
Definition gvizWrapped (body : string) : string :=
  ("/*O_o*/" ++ String (ascii_of_nat 10) "google.visualization.Query.setResponse("
   ++ body ++ ");")%string.

(** A parser to run examples with: it reads two texts, as the two example
    sheets, and nothing else. *)
Definition parseExampleSheets (text : string) : AppService.GvizResponse + string :=
  if text =? "{sheet}" then inl Examples.sheet
  else if text =? "{sheet, 1e999}" then inl Examples.sheetWithInfinity
  else inr "Unexpected token".

(** No number of a cell, of a row, of a payload is an infinity or NaN. *)
Definition finiteCell (cell : AppService.GvizCell) : bool :=
  match AppService.v cell with
  | Some (JS.VNum n) => JS.Number_isFinite n
  | _ => true
  end.

Definition finiteRow (row : AppService.GvizRow) : bool :=
  forallb (fun cell => match cell with Some x => finiteCell x | None => true end)
          (AppService.c row).

Definition finiteNumbers (payload : AppService.GvizResponse) : bool :=
  forallb finiteRow (AppService.payloadRows payload).

(** The header label a column is found under: trimmed and in lower case. *)
Definition normalisedLabel (col : AppService.GvizColumn) : option string :=
  option_map (fun l => JS.toLowerCase (JS.trim l)) (AppService.label col).


(** ** Properties *)

(** *** Arrays and strings *)

Lemma insertSorted_permutation {A : Type} (nonPositive : A -> A -> bool) (x : A) (l : list A) :
  Permutation (x :: l) (Arrays.insertSorted nonPositive x l).
Proof.
  induction l as [|y l IH]; simpl.
  - apply Permutation_refl.
  - destruct (nonPositive x y).
    + apply Permutation_refl.
    + eapply perm_trans.
      * apply perm_swap.
      * apply perm_skip. exact IH.
Qed.

Lemma sort_permutation {A : Type} (nonPositive : A -> A -> bool) (l : list A) :
  Permutation l (Arrays.sort nonPositive l).
Proof.
  induction l as [|x l IH]; simpl.
  - apply perm_nil.
  - eapply perm_trans.
    + apply perm_skip. exact IH.
    + apply insertSorted_permutation.
Qed.

Lemma in_sort_iff {A : Type} (nonPositive : A -> A -> bool) (l : list A) (x : A) :
  In x (Arrays.sort nonPositive l) <-> In x l.
Proof.
  split; intro H.
  - eapply Permutation_in; [apply Permutation_sym, sort_permutation | exact H].
  - eapply Permutation_in; [apply sort_permutation | exact H].
Qed.

Lemma nonEmpty_true_iff (s : string) : JS.nonEmpty s = true <-> s <> "".
Proof.
  unfold JS.nonEmpty. rewrite negb_true_iff. split.
  - intros H E. subst s. discriminate H.
  - intro H. apply String.eqb_neq. exact H.
Qed.



(** *** The catalog loader *)

(** How a row gives its record an id: a number cell as it is, a missing or
    empty cell as 0, a text cell through [parseInt]. *)
Lemma rowToApp_id (m : AppService.LabelMap) (row : AppService.GvizRow) :
  (forall n, AppService.getVal m row "id" = Some (JS.VNum n) ->
             AppService.id (AppService.rowToApp m row) = n) /\
  (AppService.getVal m row "id" = None ->
   AppService.id (AppService.rowToApp m row) = JS.Int 0) /\
  (forall s, AppService.getVal m row "id" = Some (JS.VStr s) -> s <> "" ->
             AppService.id (AppService.rowToApp m row) = JS.parseInt s).
Proof.
  unfold AppService.rowToApp. cbn [AppService.id]. repeat split.
  - intros n E. now rewrite E.
  - intros E. now rewrite E.
  - intros s E Hs. rewrite E. cbn [JS.truthy].
    apply nonEmpty_true_iff in Hs. unfold JS.nonEmpty in Hs. now rewrite Hs.
Qed.

(** A text cell gives the record its name and its store id as they are. *)
Lemma rowToApp_name_and_store_id (m : AppService.LabelMap) (row : AppService.GvizRow) :
  (forall s, AppService.getVal m row "name" = Some (JS.VStr s) ->
             AppService.name (AppService.rowToApp m row) = s) /\
  (AppService.getVal m row "name" = None ->
   AppService.name (AppService.rowToApp m row) = "") /\
  (forall x, AppService.getVal m row "app_store_id" = Some x ->
             AppService.app_store_id (AppService.rowToApp m row) = JS.ToString x) /\
  (AppService.getVal m row "app_store_id" = None ->
   AppService.app_store_id (AppService.rowToApp m row) = "").
Proof.
  unfold AppService.rowToApp. cbn [AppService.name AppService.app_store_id]. repeat split.
  - intros s' E. now rewrite E.
  - intros E. now rewrite E.
  - intros x E. now rewrite E.
  - intros E. now rewrite E.
Qed.

(** C1, as amended. A record is in the loaded catalog exactly when it is the
    record of some row of the payload and has a non-empty name, a non-empty
    app_store_id and a finite id. The sign of the id plays no part: the
    filter tests [Number.isFinite] only. *)
Theorem loadAppsFromSheet_keeps_rows_with_name_store_id_and_finite_id :
  forall (payload : AppService.GvizResponse) (a : AppService.AppData),
    In a (AppService.loadAppsFromSheet payload) <->
    (exists row, In row (AppService.payloadRows payload) /\
                 AppService.rowToApp (AppService.labelToIndex payload) row = a) /\
    AppService.name a <> "" /\
    AppService.app_store_id a <> "" /\
    JS.Number_isFinite (AppService.id a) = true.
Proof.
  intros payload a. unfold AppService.loadAppsFromSheet.
  rewrite filter_In, in_map_iff.
  unfold AppService.validApp. rewrite !andb_true_iff, !nonEmpty_true_iff.
  split.
  - intros [[row [E Hin]] [[Hid Hname] Hstore]]. repeat split; auto.
    exists row. split; assumption.
  - intros [[row [Hin E]] [Hname [Hstore Hid]]]. repeat split; auto.
    exists row. split; assumption.
Qed.

(** C1, as stated, fails: the rows of the example sheet whose id cell is
    empty or holds -7 have a name and a store id, and their records are in
    the loaded catalog although their ids, 0 and -7, are not positive. *)
Lemma loadAppsFromSheet_keeps_ids_that_are_not_positive :
  (In Examples.rowMissingId (AppService.payloadRows Examples.sheet) /\
   In (Examples.recordOf Examples.rowMissingId) (AppService.loadAppsFromSheet Examples.sheet) /\
   AppService.id (Examples.recordOf Examples.rowMissingId) = JS.Int 0 /\
   JS.isPositive (AppService.id (Examples.recordOf Examples.rowMissingId)) = false) /\
  (In Examples.rowNegativeId (AppService.payloadRows Examples.sheet) /\
   In (Examples.recordOf Examples.rowNegativeId) (AppService.loadAppsFromSheet Examples.sheet) /\
   AppService.id (Examples.recordOf Examples.rowNegativeId) = JS.Int (-7) /\
   JS.isPositive (AppService.id (Examples.recordOf Examples.rowNegativeId)) = false).
Proof.
  repeat split; try reflexivity.
  - simpl. auto.
  - vm_compute. auto.
  - simpl. auto.
  - vm_compute. auto.
Qed.

Lemma insertSorted_ext_in {A : Type} (f g : A -> A -> bool) (x : A) (l : list A) :
  (forall y, In y l -> f x y = g x y) ->
  Arrays.insertSorted f x l = Arrays.insertSorted g x l.
Proof.
  induction l as [|y l IH]; intro H; simpl; [reflexivity|].
  rewrite (H y (or_introl eq_refl)).
  destruct (g x y); [reflexivity|].
  f_equal. apply IH. intros z Hz. apply H. now right.
Qed.

(** Two comparators that agree on the elements of a list sort it alike. *)
Lemma sort_ext_in {A : Type} (f g : A -> A -> bool) (l : list A) :
  (forall x y, In x l -> In y l -> f x y = g x y) ->
  Arrays.sort f l = Arrays.sort g l.
Proof.
  induction l as [|x l IH]; intro H; [reflexivity|].
  change (Arrays.insertSorted f x (Arrays.sort f l) =
          Arrays.insertSorted g x (Arrays.sort g l)).
  rewrite IH by (intros y z Hy Hz; apply H; now right).
  apply insertSorted_ext_in. intros y Hy. apply in_sort_iff in Hy.
  apply H; [now left | now right].
Qed.

Lemma filterOrRaise_returns {A : Type} (p : A -> option bool) (q : A -> bool) (l : list A) :
  (forall x, In x l -> p x = Some (q x)) -> Arrays.filterOrRaise p l = Some (filter q l).
Proof.
  induction l as [|x l IH]; intro H; simpl; [reflexivity|].
  rewrite (H x (or_introl eq_refl)).
  rewrite IH by (intros y Hy; apply H; now right).
  reflexivity.
Qed.

Lemma filterOrRaise_raises {A : Type} (p : A -> option bool) (l : list A) (x : A) :
  In x l -> p x = None -> Arrays.filterOrRaise p l = None.
Proof.
  induction l as [|y l IH]; intros Hin Hx; [contradiction|]. simpl.
  destruct Hin as [->|Hin].
  - now rewrite Hx.
  - destruct (p y); [|reflexivity]. now rewrite (IH Hin Hx).
Qed.

Lemma neverRaises_true_iff {A : Type} (cmp : A -> A -> option Z) (l : list A) :
  Arrays.neverRaises cmp l = true <->
  forall x y, In x l -> In y l -> cmp x y <> None.
Proof.
  unfold Arrays.neverRaises. rewrite forallb_forall. split.
  - intros H x y Hx Hy E. specialize (H x Hx). rewrite forallb_forall in H.
    specialize (H y Hy). rewrite E in H. discriminate H.
  - intros H x Hx. apply forallb_forall. intros y Hy.
    specialize (H x y Hx Hy). destruct (cmp x y); [reflexivity | now elim H].
Qed.

(** *** Search in the catalog *)

Lemma arrayIncludes_true_iff (arr : list string) (x : string) :
  JS.arrayIncludes arr x = true <-> In x arr.
Proof.
  unfold JS.arrayIncludes. rewrite existsb_exists. split.
  - intros [y [Hin E]]. apply String.eqb_eq in E. now subst y.
  - intro Hin. exists x. split; [exact Hin | apply String.eqb_refl].
Qed.

Lemma inCategories_true_iff (categories : list string) (a : AppService.LoadedApp) :
  AppService.inCategories categories a = true <->
  exists cat, AppService.categoryValue a = Some (JS.VStr cat) /\ cat <> "" /\ In cat categories.
Proof.
  unfold AppService.inCategories.
  destruct (AppService.categoryValue a) as [[n|cat|b]|]; cbn [AppService.includesValue].
  - rewrite andb_false_r. split; [discriminate | intros [cat [E _]]; discriminate E].
  - cbn [JS.truthy]. fold (JS.nonEmpty cat).
    rewrite andb_true_iff, nonEmpty_true_iff, arrayIncludes_true_iff. split.
    + intros [H1 H2]. exists cat. auto.
    + intros [cat' [E [H1 H2]]]. injection E as ->. auto.
  - rewrite andb_false_r. split; [discriminate | intros [cat [E _]]; discriminate E].
  - split; [discriminate | intros [cat [E _]]; discriminate E].
Qed.

(** The records of [loadedApps], read through the interface [AppData], are
    the records of [loadAppsFromSheet]. *)
Lemma loadedApps_typed (payload : AppService.GvizResponse) :
  map AppService.typed (AppService.loadedApps payload) = AppService.loadAppsFromSheet payload.
Proof.
  unfold AppService.loadedApps, AppService.loadAppsFromSheet.
  induction (AppService.payloadRows payload) as [|row rows IH]; [reflexivity|].
  cbn [map filter].
  change (AppService.typed (AppService.rowToLoaded (AppService.labelToIndex payload) row))
    with (AppService.rowToApp (AppService.labelToIndex payload) row).
  destruct (AppService.validApp (AppService.rowToApp (AppService.labelToIndex payload) row));
    cbn [map]; now rewrite IH.
Qed.

Lemma compareNames_of_string (localeCompare : string -> string -> Z)
    (a b : AppService.LoadedApp) :
  hasStringName a = true ->
  AppService.compareNames localeCompare a b = Some (localeCompare (nameText a) (nameText b)).
Proof.
  unfold hasStringName, AppService.compareNames, nameText.
  destruct (AppService.nameValue a); intro H; try discriminate H. reflexivity.
Qed.

Lemma compareNames_raises (localeCompare : string -> string -> Z)
    (a b : AppService.LoadedApp) :
  AppService.compareNames localeCompare a b = None <-> hasStringName a = false.
Proof.
  unfold hasStringName, AppService.compareNames.
  destruct (AppService.nameValue a); split; intro H; try reflexivity; discriminate H.
Qed.

(** On records whose names are strings the sort returns, and it is the sort
    by the text of the names. *)
Lemma sortOrRaise_of_strings (localeCompare : string -> string -> Z)
    (l : list AppService.LoadedApp) :
  (forall a, In a l -> hasStringName a = true) ->
  Arrays.sortOrRaise (AppService.compareNames localeCompare) l =
  Some (Arrays.sort (nameLeq localeCompare) l).
Proof.
  intro H. unfold Arrays.sortOrRaise.
  assert (Hnever : Arrays.neverRaises (AppService.compareNames localeCompare) l = true).
  { apply neverRaises_true_iff. intros x y Hx _ E.
    apply compareNames_raises in E. rewrite (H x Hx) in E. discriminate E. }
  rewrite Hnever, orb_true_r. f_equal. apply sort_ext_in.
  intros x y Hx _. rewrite (compareNames_of_string _ _ _ (H x Hx)). reflexivity.
Qed.

(** Whenever the sort returns, it returns the sort by the text of the
    names. *)
Lemma sortOrRaise_returned (localeCompare : string -> string -> Z)
    (l r : list AppService.LoadedApp) :
  Arrays.sortOrRaise (AppService.compareNames localeCompare) l = Some r ->
  r = Arrays.sort (nameLeq localeCompare) l.
Proof.
  destruct l as [|x [|y l]].
  - intro H. injection H as <-. reflexivity.
  - intro H. injection H as <-. reflexivity.
  - assert (Hlen : (List.length (x :: y :: l) <? 2)%nat = false) by reflexivity.
    remember (x :: y :: l) as l0 eqn:El0. clear El0.
    unfold Arrays.sortOrRaise. rewrite Hlen. cbn [orb].
    destruct (Arrays.neverRaises _ _) eqn:Hnever; [|discriminate].
    intro H. injection H as <-. apply sort_ext_in.
    intros a b Ha Hb.
    assert (Hs : hasStringName a = true).
    { destruct (hasStringName a) eqn:E; [reflexivity|].
      apply (compareNames_raises localeCompare a b) in E.
      rewrite neverRaises_true_iff in Hnever. now elim (Hnever a b Ha Hb). }
    rewrite (compareNames_of_string _ _ _ Hs). reflexivity.
Qed.

Lemma nameIncludes_of_string (toLowerCase trim : string -> string) (searchTerm : string)
    (a : AppService.LoadedApp) :
  hasStringName a = true ->
  AppService.nameIncludes toLowerCase (toLowerCase (trim searchTerm)) a =
  Some (nameMatches toLowerCase trim searchTerm a).
Proof.
  unfold hasStringName, AppService.nameIncludes, nameMatches.
  destruct (AppService.nameValue a); intro H; try discriminate H. reflexivity.
Qed.

Lemma nameIncludes_raises (toLowerCase : string -> string) (term : string)
    (a : AppService.LoadedApp) :
  hasStringName a = false -> AppService.nameIncludes toLowerCase term a = None.
Proof.
  unfold hasStringName, AppService.nameIncludes.
  destruct (AppService.nameValue a); intro H; try discriminate H; reflexivity.
Qed.


(** What [searchAppsByCategory] does: it raises exactly when some loaded
    record has a name that is not a string, and otherwise returns the records
    that pass the name test and the category test, sorted by name. *)
Lemma searchAppsByCategory_returns (localeCompare : string -> string -> Z)
    (toLowerCase trim : string -> string) (payload : AppService.GvizResponse)
    (searchTerm : string) (categories : list string) :
  (forall a, In a (AppService.loadedApps payload) -> hasStringName a = true) ->
  AppService.searchAppsByCategory localeCompare toLowerCase trim payload searchTerm categories =
  Some (Arrays.sort (nameLeq localeCompare)
          (if JS.arrayIncludes categories "all"
           then filter (nameMatches toLowerCase trim searchTerm) (AppService.loadedApps payload)
           else filter (AppService.inCategories categories)
                       (filter (nameMatches toLowerCase trim searchTerm)
                               (AppService.loadedApps payload)))).
Proof.
  intro H. unfold AppService.searchAppsByCategory. cbv zeta.
  rewrite (filterOrRaise_returns _ (nameMatches toLowerCase trim searchTerm)).
  - apply sortOrRaise_of_strings. intros a Ha. apply H.
    destruct (JS.arrayIncludes categories "all").
    + apply filter_In in Ha. tauto.
    + apply filter_In in Ha. destruct Ha as [Ha _]. apply filter_In in Ha. tauto.
  - intros a Ha. apply nameIncludes_of_string. now apply H.
Qed.

Lemma searchAppsByCategory_raises (localeCompare : string -> string -> Z)
    (toLowerCase trim : string -> string) (payload : AppService.GvizResponse)
    (searchTerm : string) (categories : list string) (a : AppService.LoadedApp) :
  In a (AppService.loadedApps payload) -> hasStringName a = false ->
  AppService.searchAppsByCategory localeCompare toLowerCase trim payload searchTerm categories =
  None.
Proof.
  intros Hin Ha. unfold AppService.searchAppsByCategory. cbv zeta.
  rewrite (filterOrRaise_raises _ _ a Hin); [reflexivity|].
  now apply nameIncludes_raises.
Qed.








(** *** Search history *)



Lemma filter_differs_is_remove (x : string) (l : list string) :
  filter (fun t => negb (t =? x)) l = remove string_dec x l.
Proof.
  induction l as [|y l IH]; simpl.
  - reflexivity.
  - destruct (string_dec x y) as [E|E].
    + subst y. rewrite String.eqb_refl. simpl. exact IH.
    + assert (Hneq : (y =? x) = false) by (apply String.eqb_neq; congruence).
      rewrite Hneq. simpl. now rewrite IH.
Qed.







(** *** Joining the store's answer with the catalog *)

(** [find] returns the first element that passes the test. *)
Lemma find_first {A : Type} (p : A -> bool) (l : list A) :
  match Arrays.find p l with
  | Some x => exists before after,
      l = before ++ x :: after /\ p x = true /\ forall y, In y before -> p y = false
  | None => forall y, In y l -> p y = false
  end.
Proof.
  unfold Arrays.find. induction l as [|x l IH]; simpl.
  - intros y [].
  - destruct (p x) eqn:E.
    + exists [], l. repeat split; auto. intros y [].
    + destruct (List.find p l) as [z|].
      * destruct IH as [before [after [Hl [Hz Hbefore]]]].
        exists (x :: before), after. rewrite Hl. repeat split; auto.
        intros y [<-|Hy]; auto.
      * intros y [<-|Hy]; auto.
Qed.

(** C7. The list shown holds exactly the store records passed through the
    join. The join leaves every field but [trackName] as the store gave it;
    [trackName] becomes the name of the first catalog record whose
    [app_store_id] is the text of [trackId] when there is one, and stays the
    store's name when there is none; and two store records with the same
    [trackId] are treated alike, whatever their other fields. *)
Theorem allApps_overrides_trackName_by_join_key :
  forall (localeCompare : string -> string -> Z)
         (appsFromDb : list AppService.AppData)
         (appDetails : list AppService.AppWithDetails),
    (forall shown,
        In shown (Gallery.allApps localeCompare appsFromDb appDetails) <->
        exists app, In app appDetails /\ shown = Gallery.withCatalogName appsFromDb app) /\
    (forall app,
        let shown := Gallery.withCatalogName appsFromDb app in
        (AppService.trackId shown = AppService.trackId app /\
         AppService.artworkUrl100 shown = AppService.artworkUrl100 app /\
         AppService.primaryGenreName shown = AppService.primaryGenreName app /\
         AppService.genres shown = AppService.genres app /\
         AppService.trackViewUrl shown = AppService.trackViewUrl app /\
         AppService.dominantColor shown = AppService.dominantColor app) /\
        ((exists d, In d appsFromDb /\ AppService.app_store_id d = joinKey app) ->
         exists before d after,
           appsFromDb = before ++ d :: after /\
           AppService.app_store_id d = joinKey app /\
           (forall d', In d' before -> AppService.app_store_id d' <> joinKey app) /\
           AppService.trackName shown = AppService.name d) /\
        ((forall d, In d appsFromDb -> AppService.app_store_id d <> joinKey app) ->
         AppService.trackName shown = AppService.trackName app)) /\
    (forall app app',
        AppService.trackId app = AppService.trackId app' ->
        AppService.trackName (Gallery.withCatalogName appsFromDb app) =
        AppService.trackName (Gallery.withCatalogName appsFromDb app') \/
        (AppService.trackName (Gallery.withCatalogName appsFromDb app) = AppService.trackName app /\
         AppService.trackName (Gallery.withCatalogName appsFromDb app') = AppService.trackName app')).
Proof.
  intros localeCompare appsFromDb appDetails. split; [|split].
  - intro shown. unfold Gallery.allApps. rewrite in_sort_iff, in_map_iff.
    split; intros [app [H1 H2]]; exists app; auto.
  - intros app shown. subst shown. unfold Gallery.withCatalogName, joinKey. cbn.
    pose proof (find_first
      (fun dbApp => AppService.app_store_id dbApp =? JS.NumberToString (AppService.trackId app))
      appsFromDb) as Hfind.
    destruct (Arrays.find _ appsFromDb) as [d|].
    + destruct Hfind as [before [after [Hl [Hd Hbefore]]]].
      repeat split; auto.
      * intros _. exists before, d, after. repeat split; auto.
        -- now apply String.eqb_eq.
        -- intros d' Hin. apply String.eqb_neq. now apply Hbefore.
      * intro Hnone. exfalso. apply (Hnone d).
        -- rewrite Hl. apply in_or_app. right. left. reflexivity.
        -- now apply String.eqb_eq.
    + repeat split; auto.
      intros [d [Hin Hd]]. apply Hfind in Hin. apply String.eqb_neq in Hin. contradiction.
  - intros app app' E. unfold Gallery.withCatalogName. cbn. rewrite E.
    destruct (Arrays.find _ appsFromDb); [left | right]; auto.
Qed.

(** *** Batched lookups *)

Lemma slice_batch {A : Type} (l : list A) (i n : nat) :
  Arrays.slice l i (i + n) = firstn n (skipn i l).
Proof.
  unfold Arrays.slice. f_equal. lia.
Qed.

Lemma batchesFrom_concat (ids : list string) (i : nat) :
  List.concat (AppService.batchesFrom ids i) = skipn i ids.
Proof.
  funelim (AppService.batchesFrom ids i); clear Heqcall.
  - cbn [List.concat]. rewrite H, slice_batch.
    rewrite Nat.add_comm, <- skipn_skipn. apply firstn_skipn.
  - simpl. symmetry. apply skipn_all2. lia.
Qed.

Lemma batchesFrom_length (ids : list string) (i : nat) :
  List.length (AppService.batchesFrom ids i) = (List.length ids - i + 9) / 10.
Proof.
  funelim (AppService.batchesFrom ids i); clear Heqcall.
  - cbn [List.length]. rewrite H. unfold AppService.batchSize.
    pose proof (Nat.div_mod_eq (List.length appStoreIds - (i + 10) + 9) 10).
    pose proof (Nat.div_mod_eq (List.length appStoreIds - i + 9) 10).
    pose proof (Nat.mod_upper_bound (List.length appStoreIds - (i + 10) + 9) 10).
    pose proof (Nat.mod_upper_bound (List.length appStoreIds - i + 9) 10).
    lia.
  - cbn [List.length]. symmetry. apply Nat.div_small. lia.
Qed.

Lemma batchesFrom_sizes (ids : list string) (i : nat) :
  Forall (fun batch => 1 <= List.length batch <= 10) (AppService.batchesFrom ids i).
Proof.
  funelim (AppService.batchesFrom ids i); clear Heqcall.
  - constructor; [|exact H].
    rewrite slice_batch, length_firstn, length_skipn. unfold AppService.batchSize. lia.
  - constructor.
Qed.

Lemma batchesFrom_nth (ids : list string) (i k : nat) :
  i + 10 * k < List.length ids ->
  nth_error (AppService.batchesFrom ids i) k =
  Some (Arrays.slice ids (i + 10 * k) (i + 10 * k + 10)).
Proof.
  revert k. funelim (AppService.batchesFrom ids i); clear Heqcall; intros k Hk.
  - destruct k as [|k]; cbn [nth_error].
    + now rewrite Nat.mul_0_r, Nat.add_0_r.
    + unfold AppService.batchSize in *. rewrite H by lia.
      do 2 f_equal; lia.
  - lia.
Qed.

Lemma PromiseAll_resolved_iff {A : Type} (ps : list (AppService.Settled A)) (xs : list A) :
  AppService.PromiseAll ps = AppService.Resolved xs <-> ps = map AppService.Resolved xs.
Proof.
  revert xs. induction ps as [|p ps IH]; intros xs; simpl.
  - split; intro H.
    + injection H as <-. reflexivity.
    + destruct xs; [reflexivity | discriminate H].
  - destruct p as [a|].
    + destruct (AppService.PromiseAll ps) as [l|] eqn:E.
      * split; intro H.
        -- injection H as <-. simpl. f_equal. now apply IH.
        -- destruct xs as [|x xs]; [discriminate H|]. simpl in H.
           injection H as -> H. apply IH in H. now injection H as ->.
      * split; intro H; [discriminate H|].
        destruct xs as [|x xs]; [discriminate H|]. simpl in H.
        injection H as -> H. apply IH in H. discriminate H.
    + split; intro H; [discriminate H|].
      destruct xs; discriminate H.
Qed.

(** C5. The identifiers are cut into [ceil(N/10)] batches, each of 1 to 10
    identifiers, batch [k] being the identifiers [10k .. 10k+9] of the input,
    so that the batches put end to end are the input; one request is issued
    per batch, for the address of the lookup followed by the comma-joined
    batch; when every request resolves, the result is the [results] lists of
    the answers put end to end in batch order, an answer without [results]
    counting for no record, and its length is the sum of theirs; and the
    call resolves in no other case. *)
Theorem getAppDetails_batches_of_ten_flattened_in_order :
  forall (production : bool)
         (fetchJson : string -> AppService.Settled AppService.LookupResponse)
         (appStoreIds : list string),
    let N := List.length appStoreIds in
    let batches := AppService.batches appStoreIds in
    let requests := AppService.lookupRequests production appStoreIds in
    (N <= 10 * List.length batches < N + 10) /\
    Forall (fun batch => 1 <= List.length batch <= 10) batches /\
    (forall k, k < List.length batches ->
               nth_error batches k = Some (firstn 10 (skipn (10 * k) appStoreIds))) /\
    List.concat batches = appStoreIds /\
    requests =
      map (fun batch =>
             ((if production then "/api/itunes?id=" else "https://itunes.apple.com/lookup?id=")
              ++ JS.join "," batch)%string) batches /\
    List.length requests = List.length batches /\
    (forall responses lists,
        map fetchJson requests = map AppService.Resolved responses ->
        Forall2 (fun response records =>
                   AppService.results response = Some records \/
                   AppService.results response = None /\ records = [])
                responses lists ->
        AppService.getAppDetails production fetchJson appStoreIds =
        AppService.Resolved (List.concat lists) /\
        List.length (List.concat lists) = list_sum (map (@List.length _) lists)) /\
    (forall found,
        AppService.getAppDetails production fetchJson appStoreIds = AppService.Resolved found ->
        exists responses, map fetchJson requests = map AppService.Resolved responses).
Proof.
  intros production fetchJson appStoreIds N batches requests.
  assert (Hlen : List.length batches = (N + 9) / 10).
  { subst batches N. unfold AppService.batches. rewrite batchesFrom_length.
    now rewrite Nat.sub_0_r. }
  split; [|split; [|split; [|split; [|split; [|split; [|split]]]]]].
  - rewrite Hlen. pose proof (Nat.div_mod_eq (N + 9) 10).
    pose proof (Nat.mod_upper_bound (N + 9) 10). lia.
  - apply batchesFrom_sizes.
  - intros k Hk. subst batches. unfold AppService.batches in *.
    assert (Hin : 0 + 10 * k < List.length appStoreIds).
    { fold N. rewrite Hlen in Hk. pose proof (Nat.div_mod_eq (N + 9) 10).
      pose proof (Nat.mod_upper_bound (N + 9) 10). lia. }
    rewrite (batchesFrom_nth _ _ _ Hin). f_equal. apply slice_batch.
  - subst batches. unfold AppService.batches. now rewrite batchesFrom_concat.
  - subst requests batches. unfold AppService.lookupRequests. apply map_ext.
    intro batch. unfold AppService.getItunesUrl. destruct production; reflexivity.
  - subst requests. unfold AppService.lookupRequests. apply length_map.
  - intros responses lists Hres Hlists. unfold AppService.getAppDetails. fold requests.
    apply PromiseAll_resolved_iff in Hres. rewrite Hres.
    assert (Hmap : map AppService.resultsOrEmpty responses = lists).
    { clear Hres. induction Hlists as [|response records responses lists Hone _ IH];
        [reflexivity|].
      cbn [map]. rewrite IH. f_equal. unfold AppService.resultsOrEmpty.
      destruct Hone as [E|[E ->]]; now rewrite E. }
    split.
    + now rewrite flat_map_concat_map, Hmap.
    + apply length_concat.
  - intros found Hfound. unfold AppService.getAppDetails in Hfound. fold requests in Hfound.
    destruct (AppService.PromiseAll (map fetchJson requests)) as [responses|] eqn:E;
      [|discriminate Hfound].
    exists responses. now apply PromiseAll_resolved_iff.
Qed.

(** Twenty-one identifiers go out in three requests, of ten, ten and one;
    the store of the example answers them with two records, with an object
    without [results], and with one record: the call gives the three
    records in that order. *)
Lemma getAppDetails_three_batches :
  AppService.lookupRequests true Examples.manyIds =
    [ "/api/itunes?id=1,2,3,4,5,6,7,8,9,10";
      "/api/itunes?id=11,12,13,14,15,16,17,18,19,20";
      "/api/itunes?id=21" ] /\
  AppService.lookupRequests false ["111"; "222"] =
    [ "https://itunes.apple.com/lookup?id=111,222" ] /\
  AppService.getAppDetails true Examples.store Examples.manyIds =
    AppService.Resolved [ Examples.storeRecord 1 "One"; Examples.storeRecord 2 "Two";
                          Examples.storeRecord 21 "Last" ].
Proof.
  split; [|split].
  - rewrite (proj1 (proj2 (proj2 (proj2 (proj2
      (getAppDetails_batches_of_ten_flattened_in_order true Examples.store
         Examples.manyIds)))))).
    vm_compute. reflexivity.
  - rewrite (proj1 (proj2 (proj2 (proj2 (proj2
      (getAppDetails_batches_of_ten_flattened_in_order false Examples.store
         ["111"; "222"])))))).
    vm_compute. reflexivity.
  - apply (proj1 (proj2 (proj2 (proj2 (proj2 (proj2 (proj2
      (getAppDetails_batches_of_ten_flattened_in_order true Examples.store
         Examples.manyIds)))))))
      [ {| AppService.results := Some [Examples.storeRecord 1 "One";
                                       Examples.storeRecord 2 "Two"] |};
        {| AppService.results := None |};
        {| AppService.results := Some [Examples.storeRecord 21 "Last"] |} ]
      [ [Examples.storeRecord 1 "One"; Examples.storeRecord 2 "Two"]; [];
        [Examples.storeRecord 21 "Last"] ]).
    + vm_compute. reflexivity.
    + constructor; [left; reflexivity|].
      constructor; [right; split; reflexivity|].
      constructor; [left; reflexivity|].
      constructor.
Defined.

(** *** Corner radii of the export *)

Lemma clamp_unit (x : Q) : (0 <= Qmax 0 (Qmin 1 x) <= 1)%Q.
Proof.
  split.
  - apply Q.le_max_l.
  - apply Q.max_lub; [discriminate | apply Q.le_min_l].
Qed.

Lemma half_nonneg (x : Q) : (0 <= x)%Q -> (0 <= x / 2)%Q.
Proof.
  intro H. unfold Qdiv. apply Qmult_le_0_compat; [exact H | discriminate].
Qed.

Lemma cornerRadius_bounds (width height radius : Q) :
  (0 <= width)%Q -> (0 <= height)%Q ->
  (0 <= ImageExport.cornerRadius width height radius <= Qmin width height / 2)%Q.
Proof.
  intros Hw Hh. unfold ImageExport.cornerRadius. split.
  - apply Q.le_max_l.
  - apply Q.max_lub.
    + apply half_nonneg. apply Q.min_glb; assumption.
    + apply Q.le_min_r.
Qed.

Lemma arcRadii_addRoundedRectPath (x y width height radius : Q) :
  ImageExport.arcRadii (ImageExport.addRoundedRectPath x y width height radius) =
  let r := ImageExport.cornerRadius width height radius in [r; r; r; r].
Proof. reflexivity. Qed.

Lemma NtoQ_nonneg (n : N) : (0 <= ImageExport.NtoQ n)%Q.
Proof.
  unfold ImageExport.NtoQ. change 0%Q with (inject_Z 0). rewrite <- Zle_Qle. lia.
Qed.

Lemma round_nonneg (x : Q) : (0 <= x)%Q -> (0 <= ImageExport.round x)%Z.
Proof.
  intro H. unfold ImageExport.round.
  change 0%Z with (Qfloor 0). apply Qfloor_resp_le.
  apply Qle_trans with x; [exact H|].
  rewrite <- (Qplus_0_r x) at 1. apply Qplus_le_r. discriminate.
Qed.

Lemma aspectOf_nonneg (img : ImageExport.ImageElement) (a : Q) :
  ImageExport.aspectOf img = ImageExport.AspectOf a -> (0 <= a)%Q.
Proof.
  unfold ImageExport.aspectOf.
  destruct (N.eqb_spec (ImageExport.naturalHeight img) 0) as [E|E].
  - destruct (ImageExport.naturalWidth img =? 0)%N; discriminate.
  - intro H. injection H as <-. unfold Qdiv. apply Qmult_le_0_compat.
    + apply NtoQ_nonneg.
    + apply Qinv_le_0_compat. apply NtoQ_nonneg.
Qed.

Lemma drawSize_nonneg (cell : Z) (img : ImageExport.ImageElement) :
  (0 <= cell)%Z ->
  (0 <= fst (ImageExport.drawSize cell (ImageExport.aspectOf img)))%Z /\
  (0 <= snd (ImageExport.drawSize cell (ImageExport.aspectOf img)))%Z.
Proof.
  intro Hcell.
  assert (HcellQ : (0 <= inject_Z cell)%Q) by (change 0%Q with (inject_Z 0); now rewrite <- Zle_Qle).
  destruct (ImageExport.aspectOf img) as [| |a] eqn:E; simpl.
  - split; assumption.
  - split; [assumption | reflexivity].
  - pose proof (aspectOf_nonneg img a E) as Ha.
    destruct (Palette.Qltb 1 a); [|destruct (Palette.Qltb a 1)]; simpl; split; try assumption.
    + apply round_nonneg. unfold Qdiv. apply Qmult_le_0_compat; [assumption|].
      now apply Qinv_le_0_compat.
    + apply round_nonneg. now apply Qmult_le_0_compat.
Qed.

Lemma drawTile_radii (parseFloat : string -> option Q) (cols : nat) (cell gap : Z) (i : nat)
    (img : ImageExport.ImageElement) :
  (0 <= cell)%Z ->
  let t := ImageExport.drawTile parseFloat cols cell gap i img in
  Forall (fun r => (0 <= r <= Qmin (inject_Z (ImageExport.drawW t))
                                   (inject_Z (ImageExport.drawH t)) / 2)%Q)
         (ImageExport.arcRadii (ImageExport.path t)).
Proof.
  intros Hcell t. subst t. unfold ImageExport.drawTile.
  destruct (drawSize_nonneg cell img Hcell) as [Hw Hh].
  destruct (ImageExport.drawSize cell (ImageExport.aspectOf img)) as [w h'].
  cbn [ImageExport.drawW ImageExport.drawH ImageExport.path fst snd] in *.
  rewrite arcRadii_addRoundedRectPath. cbv zeta.
  assert (Hb := cornerRadius_bounds (inject_Z w) (inject_Z h')
                  (ImageExport.getBorderRadiusRatio parseFloat img * inject_Z (Z.min w h'))).
  assert (HwQ : (0 <= inject_Z w)%Q) by (change 0%Q with (inject_Z 0); now rewrite <- Zle_Qle).
  assert (HhQ : (0 <= inject_Z h')%Q) by (change 0%Q with (inject_Z 0); now rewrite <- Zle_Qle).
  specialize (Hb HwQ HhQ).
  repeat constructor; apply Hb.
Qed.

Lemma drawTiles_radii (parseFloat : string -> option Q) (cols : nat) (cell gap : Z)
    (ready : list ImageExport.ImageElement) (i : nat) :
  (0 <= cell)%Z ->
  Forall (fun t =>
            Forall (fun r => (0 <= r <= Qmin (inject_Z (ImageExport.drawW t))
                                             (inject_Z (ImageExport.drawH t)) / 2)%Q)
                   (ImageExport.arcRadii (ImageExport.path t)))
         (ImageExport.drawTiles parseFloat cols cell gap i ready).
Proof.
  intro Hcell. revert i. induction ready as [|img ready IH]; intro i; simpl.
  - constructor.
  - constructor; [now apply drawTile_radii | apply IH].
Qed.

(** C10. The ratio read from the computed style lies in [[0, 1]] and is 0
    when the radius text does not start with a number. The radius
    [addRoundedRectPath] draws its four arcs with is never negative and
    never exceeds half of the shorter edge of a rectangle whose sizes are
    not negative (for a negative size it is 0). So every arc of the clip
    path of the single export, whose edges are the natural size of the
    image, has a radius between 0 and half of the shorter edge, and so has
    every arc of every tile of the combined export, whose edges are the
    drawn size of the tile, the cell size being not negative. *)
Theorem export_corner_radius_within_half_of_shorter_edge :
  forall (parseFloat : string -> option Q) (el : ImageExport.ImageElement)
         (x y width height radius : Q)
         (images : list ImageExport.ImageElement)
         (options : option ImageExport.LayoutOptions),
    (0 <= ImageExport.getBorderRadiusRatio parseFloat el <= 1)%Q /\
    (parseFloat (ImageExport.firstLength el) = None ->
     (ImageExport.getBorderRadiusRatio parseFloat el == 0)%Q) /\
    ImageExport.arcRadii (ImageExport.addRoundedRectPath x y width height radius) =
      (let r := ImageExport.cornerRadius width height radius in [r; r; r; r]) /\
    (0 <= ImageExport.cornerRadius width height radius)%Q /\
    (ImageExport.cornerRadius width height radius <= Qmax 0 (Qmin width height / 2))%Q /\
    ((0 <= width)%Q -> (0 <= height)%Q ->
     (ImageExport.cornerRadius width height radius <= Qmin width height / 2)%Q) /\
    Forall (fun r => (0 <= r <= Qmin (ImageExport.NtoQ (ImageExport.naturalWidth el))
                                     (ImageExport.NtoQ (ImageExport.naturalHeight el)) / 2)%Q)
           (ImageExport.arcRadii
              (ImageExport.clipPath (ImageExport.copySingleImageWithRadius parseFloat el))) /\
    ((0 <= ImageExport.cellOf options)%Z ->
     Forall (fun t =>
               Forall (fun r => (0 <= r <= Qmin (inject_Z (ImageExport.drawW t))
                                                (inject_Z (ImageExport.drawH t)) / 2)%Q)
                      (ImageExport.arcRadii (ImageExport.path t)))
            (ImageExport.tiles (ImageExport.generateCombinedCanvas parseFloat images options))).
Proof.
  intros parseFloat el x y width height radius images options.
  split; [|split; [|split; [|split; [|split; [|split; [|split]]]]]].
  - unfold ImageExport.getBorderRadiusRatio.
    destruct (ImageExport.endsWithPercent (ImageExport.firstLength el)); apply clamp_unit.
  - intro Hnan. unfold ImageExport.getBorderRadiusRatio, ImageExport.parseOrZero.
    rewrite Hnan.
    assert (Hzero : forall b : Q, (Qmax 0 (Qmin 1 (0 / b)) == 0)%Q).
    { intro b. unfold Qdiv. rewrite Qmult_0_l.
      rewrite (Q.min_r 1 0) by discriminate. apply Q.max_id. }
    destruct (ImageExport.endsWithPercent (ImageExport.firstLength el)); apply Hzero.
  - reflexivity.
  - unfold ImageExport.cornerRadius. apply Q.le_max_l.
  - unfold ImageExport.cornerRadius. apply Q.max_le_compat_l. apply Q.le_min_r.
  - intros Hw Hh. now apply cornerRadius_bounds.
  - unfold ImageExport.copySingleImageWithRadius. cbn [ImageExport.clipPath].
    rewrite arcRadii_addRoundedRectPath. cbv zeta.
    assert (Hb := cornerRadius_bounds (ImageExport.NtoQ (ImageExport.naturalWidth el))
                    (ImageExport.NtoQ (ImageExport.naturalHeight el))
                    (ImageExport.getBorderRadiusRatio parseFloat el *
                     Qmin (ImageExport.NtoQ (ImageExport.naturalWidth el))
                          (ImageExport.NtoQ (ImageExport.naturalHeight el)))
                    (NtoQ_nonneg _) (NtoQ_nonneg _)).
    repeat constructor; apply Hb.
  - intro Hcell. unfold ImageExport.generateCombinedCanvas. cbn [ImageExport.tiles].
    now apply drawTiles_radii.
Qed.

(** C10 at work: a 4 by 2 rectangle asked for a radius of 3 gets the radius
    1, and the tiles of five example icons drawn with the default cell size
    have their radii within half of their shorter edge. *)
Lemma export_corner_radius_example :
  (ImageExport.cornerRadius 4 2 3 == 1)%Q /\
  (ImageExport.cornerRadius 4 2 3 <= Qmin 4 2 / 2)%Q /\
  (0 <= ImageExport.getBorderRadiusRatio ImageExport.decimalParseFloat Examples.squareIcon <= 1)%Q /\
  Forall (fun t =>
            Forall (fun r => (0 <= r <= Qmin (inject_Z (ImageExport.drawW t))
                                             (inject_Z (ImageExport.drawH t)) / 2)%Q)
                   (ImageExport.arcRadii (ImageExport.path t)))
         (ImageExport.tiles
            (ImageExport.generateCombinedCanvas ImageExport.decimalParseFloat
               Examples.fiveIcons None)).
Proof.
  assert (Hw : (0 <= 4)%Q) by (unfold Qle; simpl; lia).
  assert (Hh : (0 <= 2)%Q) by (unfold Qle; simpl; lia).
  assert (Hc : (0 <= ImageExport.cellOf None)%Z) by (simpl; lia).
  destruct (export_corner_radius_within_half_of_shorter_edge
              ImageExport.decimalParseFloat Examples.squareIcon 0 0 4 2 3
              Examples.fiveIcons None)
    as [Hratio [_ [_ [_ [_ [Hhalf [_ Htiles]]]]]]].
  split; [vm_compute; reflexivity|].
  split; [exact (Hhalf Hw Hh)|]. split; [exact Hratio | exact (Htiles Hc)].
Defined.

(** *** The grid of the combined sheet *)

Lemma ceilSqrt_spec (n : nat) :
  1 <= n ->
  1 <= ImageExport.ceilSqrt n /\
  (ImageExport.ceilSqrt n - 1) * (ImageExport.ceilSqrt n - 1) < n
    <= ImageExport.ceilSqrt n * ImageExport.ceilSqrt n.
Proof.
  intro Hn. unfold ImageExport.ceilSqrt.
  pose proof (Nat.sqrt_up_spec n Hn) as H.
  rewrite <- Nat.sub_1_r in H.
  split; [|exact H].
  destruct (Nat.sqrt_up n); [simpl in H; lia | lia].
Qed.

Lemma ceilDiv_spec (n cols : nat) :
  1 <= n -> 1 <= cols ->
  exists rows, ImageExport.ceilDiv n cols = Some rows /\
               1 <= rows /\ (rows - 1) * cols < n <= rows * cols.
Proof.
  intros Hn Hc. unfold ImageExport.ceilDiv.
  destruct cols as [|c]; [lia|]. eexists. split; [reflexivity|].
  pose proof (Nat.div_mod_eq (n + S c - 1) (S c)) as Hdm.
  pose proof (Nat.mod_upper_bound (n + S c - 1) (S c)) as Hub.
  remember ((n + S c - 1) / S c) as q. remember ((n + S c - 1) mod S c) as r.
  assert (1 <= q) by nia. split; [assumption|]. nia.
Qed.

Lemma drawTiles_nth (parseFloat : string -> option Q) (cols : nat) (cell gap : Z)
    (ready : list ImageExport.ImageElement) (start i : nat) :
  nth_error (ImageExport.drawTiles parseFloat cols cell gap start ready) i =
  option_map (ImageExport.drawTile parseFloat cols cell gap (start + i)) (nth_error ready i).
Proof.
  revert start i. induction ready as [|img ready IH]; intros start i.
  - destruct i; reflexivity.
  - destruct i as [|i]; simpl.
    + now rewrite Nat.add_0_r.
    + rewrite IH. now rewrite Nat.add_succ_r.
Qed.


Lemma drawTile_position (parseFloat : string -> option Q) (cols : nat) (cell gap : Z) (i : nat)
    (img : ImageExport.ImageElement) :
  let t := ImageExport.drawTile parseFloat cols cell gap i img in
  ImageExport.col t = i mod cols /\
  ImageExport.row t = i / cols /\
  ImageExport.tileX t = (gap + Z.of_nat (i mod cols) * (cell + gap))%Z /\
  ImageExport.tileY t = (gap + Z.of_nat (i / cols) * (cell + gap))%Z.
Proof.
  unfold ImageExport.drawTile.
  destruct (ImageExport.drawSize cell (ImageExport.aspectOf img)). cbn. auto.
Qed.



(** *** Hue distance *)

Lemma Qltb_true_iff (a b : Q) : Palette.Qltb a b = true <-> (a < b)%Q.
Proof.
  unfold Palette.Qltb. rewrite negb_true_iff. split.
  - intro H. apply Qnot_le_lt. intro Hle. apply Qle_bool_iff in Hle. congruence.
  - intro H. destruct (Qle_bool b a) eqn:E; [|reflexivity].
    apply Qle_bool_iff in E. apply Qlt_not_le in H. contradiction.
Qed.

Lemma Qltb_false_iff (a b : Q) : Palette.Qltb a b = false <-> (b <= a)%Q.
Proof.
  unfold Palette.Qltb. rewrite negb_false_iff. apply Qle_bool_iff.
Qed.

Lemma Qltb_comp (a a' b b' : Q) :
  (a == a')%Q -> (b == b')%Q -> Palette.Qltb a b = Palette.Qltb a' b'.
Proof.
  intros Ha Hb. unfold Palette.Qltb. now rewrite Ha, Hb.
Qed.

(** Truncation is the floor of a number that is not negative, and the
    opposite of the floor of its opposite otherwise. *)
Lemma Qtruncate_floor (x : Q) :
  Palette.Qtruncate x = if (0 <=? Qnum x)%Z then Qfloor x else (- Qfloor (- x))%Z.
Proof.
  unfold Palette.Qtruncate. destruct x as [n d]. simpl.
  destruct (Z.leb_spec 0 n) as [H|H].
  - apply Z.quot_div_nonneg; lia.
  - rewrite <- (Z.opp_involutive n) at 1. rewrite Z.quot_opp_l by lia.
    f_equal. apply Z.quot_div_nonneg; lia.
Qed.

Lemma Qnum_sign_comp (x y : Q) : (x == y)%Q -> (0 <=? Qnum x)%Z = (0 <=? Qnum y)%Z.
Proof.
  intro E. unfold Qeq in E.
  destruct (Z.leb_spec 0 (Qnum x)), (Z.leb_spec 0 (Qnum y)); try reflexivity; nia.
Qed.

Lemma Qtruncate_comp (x y : Q) : (x == y)%Q -> Palette.Qtruncate x = Palette.Qtruncate y.
Proof.
  intro E. rewrite !Qtruncate_floor, (Qnum_sign_comp x y E).
  destruct (0 <=? Qnum y)%Z.
  - now apply Qfloor_comp.
  - f_equal. apply Qfloor_comp. now rewrite E.
Qed.

Lemma Qrem_comp (x y m : Q) : (x == y)%Q -> (Palette.Qrem x m == Palette.Qrem y m)%Q.
Proof.
  intro E. unfold Palette.Qrem.
  rewrite (Qtruncate_comp (x / m) (y / m)) by now rewrite E.
  now rewrite E.
Qed.

(** A number in [[0, m)] is its own remainder modulo [m]. *)
Lemma Qrem_small (x m : Q) : (0 <= x)%Q -> (x < m)%Q -> (Palette.Qrem x m == x)%Q.
Proof.
  intros H0 Hm. unfold Palette.Qrem.
  assert (Hpos : (0 < m)%Q) by (eapply Qle_lt_trans; eassumption).
  assert (Hq0 : (0 <= x / m)%Q).
  { unfold Qdiv. apply Qmult_le_0_compat; [exact H0|]. apply Qinv_le_0_compat.
    now apply Qlt_le_weak. }
  assert (Hq1 : (x / m < 1)%Q) by (apply Qlt_shift_div_r; [exact Hpos | now rewrite Qmult_1_l]).
  assert (Ht : Palette.Qtruncate (x / m) = 0%Z).
  { unfold Palette.Qtruncate. apply Z.quot_small.
    destruct (x / m)%Q as [n d]. unfold Qle, Qlt in Hq0, Hq1. simpl in *. lia. }
  rewrite Ht. change (inject_Z 0) with 0%Q. rewrite Qmult_0_r. unfold Qminus.
  change (- 0)%Q with 0%Q. apply Qplus_0_r.
Qed.

(** The distance depends on the two hues through [|a - b|] only. *)
Lemma hueDistance_by_difference (a b a' b' : Q) :
  (Qabs (a - b) == Qabs (a' - b'))%Q ->
  (Palette.hueDistance a b == Palette.hueDistance a' b')%Q.
Proof.
  intro E. unfold Palette.hueDistance.
  pose proof (Qrem_comp _ _ 360 E) as Hr.
  rewrite (Qltb_comp 180 180 _ _ (Qeq_refl 180) Hr).
  destruct (Palette.Qltb 180 (Palette.Qrem (Qabs (a' - b')) 360)); now rewrite Hr.
Qed.

Lemma hueDistance_circular (a b : Q) :
  (0 <= a < 360)%Q -> (0 <= b < 360)%Q ->
  (Palette.hueDistance a b == Qmin (Qabs (a - b)) (360 - Qabs (a - b)))%Q.
Proof.
  intros [Ha0 Ha1] [Hb0 Hb1]. unfold Palette.hueDistance.
  assert (Hd0 : (0 <= Qabs (a - b))%Q) by apply Qabs_nonneg.
  assert (Hd1 : (Qabs (a - b) < 360)%Q).
  { apply Qabs_Qlt_condition. split; lra. }
  pose proof (Qrem_small _ _ Hd0 Hd1) as Hr.
  destruct (Palette.Qltb 180 (Palette.Qrem (Qabs (a - b)) 360)) eqn:E.
  - apply Qltb_true_iff in E. rewrite Hr in *.
    rewrite Q.min_r by lra. reflexivity.
  - apply Qltb_false_iff in E. rewrite Hr in *.
    rewrite Q.min_l by lra. reflexivity.
Qed.

(** C9. Hue distance is symmetric and vanishes on equal hues, whatever the
    hues; for hues in [[0, 360)] it is the distance around the circle,
    [min(|a - b|, 360 - |a - b|)], hence between 0 and 180; and the hues 10
    and 350 are 20 apart. *)
Theorem hueDistance_symmetric_and_circular :
  forall a b : Q,
    (0 <= a < 360)%Q -> (0 <= b < 360)%Q ->
    (forall x y : Q, Palette.hueDistance x y == Palette.hueDistance y x)%Q /\
    (forall h : Q, Palette.hueDistance h h == 0)%Q /\
    (Palette.hueDistance a b == Palette.hueDistance b a)%Q /\
    (Palette.hueDistance a b == Qmin (Qabs (a - b)) (360 - Qabs (a - b)))%Q /\
    (0 <= Palette.hueDistance a b <= 180)%Q /\
    Palette.hueDistance 10 350 = 20%Q.
Proof.
  intros a b Ha Hb.
  assert (Hsym : forall x y : Q, (Palette.hueDistance x y == Palette.hueDistance y x)%Q).
  { intros x y. apply hueDistance_by_difference.
    rewrite <- (Qabs_opp (y - x)). apply Qabs_wd. ring. }
  split; [exact Hsym|]. split; [|split; [apply Hsym|split; [|split]]].
  - intro h. rewrite (hueDistance_by_difference h h 0 0).
    + reflexivity.
    + apply Qabs_wd. ring.
  - now apply hueDistance_circular.
  - rewrite (hueDistance_circular a b Ha Hb).
    pose proof (Qabs_nonneg (a - b)) as Hd0.
    assert (Hd1 : (Qabs (a - b) < 360)%Q) by (apply Qabs_Qlt_condition; split; lra).
    split.
    + apply Q.min_glb; lra.
    + destruct (Qlt_le_dec 180 (Qabs (a - b))) as [H|H].
      * eapply Qle_trans; [apply Q.le_min_r | lra].
      * eapply Qle_trans; [apply Q.le_min_l | lra].
  - reflexivity.
Qed.

(** C9 at work, on the hues 10 and 350. *)
Lemma hueDistance_ten_and_three_hundred_fifty :
  (0 <= 10 < 360)%Q /\ (0 <= 350 < 360)%Q /\
  (Palette.hueDistance 10 350 == Qmin (Qabs (10 - 350)) (360 - Qabs (10 - 350)))%Q /\
  (Palette.hueDistance 10 350 == Palette.hueDistance 350 10)%Q.
Proof.
  assert (Ha : (0 <= 10 < 360)%Q) by (unfold Qle, Qlt; simpl; lia).
  assert (Hb : (0 <= 350 < 360)%Q) by (unfold Qle, Qlt; simpl; lia).
  pose proof (hueDistance_symmetric_and_circular 10 350 Ha Hb) as H.
  split; [exact Ha|]. split; [exact Hb|]. split; apply H.
Defined.

(** *** The colour classifier *)

(** Every palette colour parses: [paletteWithHues] raises no TypeError, and
    it lists the hue buckets in palette order. *)
Lemma paletteWithHues_defined :
  exists hues, Palette.paletteWithHues = Some hues /\ map fst hues = hueBuckets.
Proof.
  destruct Palette.paletteWithHues as [hues|] eqn:E.
  - exists hues. split; [reflexivity|]. vm_compute in E. injection E as <-. reflexivity.
  - vm_compute in E. discriminate E.
Qed.

Lemma hd_error_sort_in {A : Type} (nonPositive : A -> A -> bool) (l : list A) :
  l <> [] -> exists x, hd_error (Arrays.sort nonPositive l) = Some x /\ In x l.
Proof.
  intro Hne. pose proof (sort_permutation nonPositive l) as Hp.
  destruct (Arrays.sort nonPositive l) as [|x rest] eqn:E.
  - apply Permutation_sym, Permutation_nil in Hp. contradiction.
  - exists x. split; [reflexivity|].
    eapply Permutation_in; [apply Permutation_sym; exact Hp | left; reflexivity].
Qed.

(** The classifier by the result of [hexToHsl]: no result
    gives [black]; a saturation below 0.12 gives [white] or [black] by the
    lightness; any other saturation gives one of the seven hue buckets. *)
Lemma getClosestColorId_gate :
  forall color : string,
    exists bucket : string,
      Palette.getClosestColorId color = Some bucket /\
      In bucket (map Palette.id Palette.COLORS) /\
      bucket <> "all" /\
      (Palette.hexToHsl color = None -> bucket = "black") /\
      (forall hsl, Palette.hexToHsl color = Some hsl ->
                   (Palette.s hsl < 12 # 100)%Q ->
                   ((8 # 10 < Palette.l hsl)%Q -> bucket = "white") /\
                   ((Palette.l hsl <= 8 # 10)%Q -> bucket = "black") /\
                   ~ In bucket hueBuckets) /\
      (forall hsl, Palette.hexToHsl color = Some hsl ->
                   (12 # 100 <= Palette.s hsl)%Q ->
                   In bucket hueBuckets).
Proof.
  intro color. unfold Palette.getClosestColorId.
  destruct (Palette.hexToHsl color) as [hsl|] eqn:Ehsl.
  - destruct (Palette.Qltb (Palette.s hsl) (12 # 100)) eqn:Es.
    + apply Qltb_true_iff in Es.
      destruct (Palette.Qltb (8 # 10) (Palette.l hsl)) eqn:El.
      * apply Qltb_true_iff in El. exists "white".
        split; [reflexivity|]. split; [simpl; tauto|]. split; [discriminate|].
        split; [discriminate|]. split.
        -- intros hsl' E _. injection E as <-. split; [reflexivity|]. split.
           ++ intro Hle. apply Qle_not_lt in Hle. contradiction.
           ++ unfold hueBuckets. simpl.
              intros [H|[H|[H|[H|[H|[H|[H|[]]]]]]]]; discriminate H.
        -- intros hsl' E Hs. injection E as <-. apply Qle_not_lt in Hs. contradiction.
      * apply Qltb_false_iff in El. exists "black".
        split; [reflexivity|]. split; [simpl; tauto|]. split; [discriminate|].
        split; [discriminate|]. split.
        -- intros hsl' E _. injection E as <-. split; [|split; [reflexivity|]].
           ++ intro Hlt. apply Qle_not_lt in El. contradiction.
           ++ unfold hueBuckets. simpl.
              intros [H|[H|[H|[H|[H|[H|[H|[]]]]]]]]; discriminate H.
        -- intros hsl' E Hs. injection E as <-. apply Qle_not_lt in Hs. contradiction.
    + apply Qltb_false_iff in Es.
      destruct paletteWithHues_defined as [hues [Ep Hids]]. rewrite Ep.
      set (dists := map (fun p => (fst p, Palette.hueDistance (Palette.h hsl) (snd p))) hues).
      assert (Hfst : map fst dists = hueBuckets).
      { subst dists. rewrite map_map. simpl. exact Hids. }
      assert (Hne : dists <> []).
      { intro E. rewrite E in Hfst. discriminate Hfst. }
      destruct (hd_error_sort_in Palette.compareDist dists Hne) as [[cid dist] [Ehd Hin]].
      rewrite Ehd.
      assert (Hcid : In cid hueBuckets).
      { rewrite <- Hfst. apply (in_map fst) in Hin. exact Hin. }
      assert (Hnonempty : JS.nonEmpty cid = true).
      { unfold hueBuckets in Hcid. simpl in Hcid.
        destruct Hcid as [<-|[<-|[<-|[<-|[<-|[<-|[<-|[]]]]]]]]; reflexivity. }
      rewrite Hnonempty. exists cid.
      split; [reflexivity|]. split; [|split; [|split; [discriminate|split]]].
      * unfold hueBuckets in Hcid. simpl in Hcid. simpl.
        destruct Hcid as [<-|[<-|[<-|[<-|[<-|[<-|[<-|[]]]]]]]]; tauto.
      * unfold hueBuckets in Hcid. simpl in Hcid.
        destruct Hcid as [<-|[<-|[<-|[<-|[<-|[<-|[<-|[]]]]]]]]; discriminate.
      * intros hsl' E Hs. injection E as <-. apply Qle_not_lt in Es. contradiction.
      * intros _ _ _. exact Hcid.
  - exists "black". split; [reflexivity|]. split; [simpl; tauto|]. split; [discriminate|].
    split; [reflexivity|]. split; intros hsl E; discriminate E.
Qed.

(** The colours the specification classifies by hand. *)
Example getClosestColorId_examples :
  Palette.getClosestColorId "#1a1a1a" = Some "black" /\
  Palette.getClosestColorId "#fefefe" = Some "white" /\
  Palette.getClosestColorId "#ff4500" = Some "red" /\
  Palette.getClosestColorId "not a colour" = Some "black".
Proof. repeat split; vm_compute; reflexivity. Qed.

(** *** The dominant colour *)

Lemma samplePixels_imageData (pixels : list Pixel) (colorCounts : AppService.ColorCounts) :
  AppService.samplePixels (imageData pixels) colorCounts =
  Some (fold_left AppService.increment (map pixelColor pixels) colorCounts).
Proof.
  revert colorCounts. induction pixels as [|[[[r g] b] a] pixels IH]; intro colorCounts.
  - reflexivity.
  - cbn [imageData flat_map app map fold_left pixelColor].
    change (flat_map _ pixels) with (imageData pixels).
    cbn [AppService.samplePixels]. apply IH.
Qed.

Lemma keys_increment (colorCounts : AppService.ColorCounts) (hex : string) :
  map fst (AppService.increment colorCounts hex) =
  if in_dec string_dec hex (map fst colorCounts)
  then map fst colorCounts
  else map fst colorCounts ++ [hex].
Proof.
  induction colorCounts as [|[k n] rest IH]; simpl.
  - reflexivity.
  - destruct (String.eqb_spec k hex) as [E|E].
    + subst k. destruct (string_dec hex hex) as [e|ne]; [reflexivity | now elim ne].
    + simpl. rewrite IH. destruct (string_dec k hex) as [E'|E']; [contradiction|].
      destruct (in_dec string_dec hex (map fst rest)); reflexivity.
Qed.

Lemma countOf_increment (colorCounts : AppService.ColorCounts) (hex key : string) :
  countOf (AppService.increment colorCounts hex) key =
  countOf colorCounts key + (if string_dec hex key then 1 else 0).
Proof.
  induction colorCounts as [|[k n] rest IH]; simpl.
  - destruct (String.eqb_spec hex key), (string_dec hex key); try reflexivity; contradiction.
  - destruct (String.eqb_spec k hex) as [E|E].
    + subst k. simpl. destruct (String.eqb_spec hex key), (string_dec hex key);
        try contradiction; lia.
    + simpl. destruct (String.eqb_spec k key) as [E'|E'].
      * subst k. destruct (string_dec hex key) as [E''|_]; [now elim E | lia].
      * apply IH.
Qed.

(** Sampling keeps the keys already present in their order and appends the
    new ones. *)
Lemma keys_fold_increment (hexes : list string) (colorCounts : AppService.ColorCounts) :
  exists extra,
    map fst (fold_left AppService.increment hexes colorCounts) = map fst colorCounts ++ extra.
Proof.
  revert colorCounts. induction hexes as [|h hexes IH]; intro colorCounts; simpl.
  - exists []. now rewrite app_nil_r.
  - destruct (IH (AppService.increment colorCounts h)) as [extra E]. rewrite E, keys_increment.
    destruct (in_dec string_dec h (map fst colorCounts)).
    + now exists extra.
    + exists ([h] ++ extra). now rewrite app_assoc.
Qed.

Lemma keys_fold_increment_NoDup (hexes : list string) (colorCounts : AppService.ColorCounts) :
  NoDup (map fst colorCounts) ->
  NoDup (map fst (fold_left AppService.increment hexes colorCounts)).
Proof.
  revert colorCounts. induction hexes as [|h hexes IH]; intros colorCounts Hnd; simpl.
  - exact Hnd.
  - apply IH. rewrite keys_increment.
    destruct (in_dec string_dec h (map fst colorCounts)) as [Hin|Hnot]; [exact Hnd|].
    apply NoDup_app; [exact Hnd | repeat constructor; intros [] |].
    intros x Hx [<-|[]]. contradiction.
Qed.

Lemma keys_fold_increment_in (hexes : list string) (colorCounts : AppService.ColorCounts)
    (key : string) :
  In key (map fst (fold_left AppService.increment hexes colorCounts)) <->
  In key (map fst colorCounts) \/ In key hexes.
Proof.
  revert colorCounts. induction hexes as [|h hexes IH]; intro colorCounts; simpl.
  - tauto.
  - rewrite IH, keys_increment.
    destruct (in_dec string_dec h (map fst colorCounts)) as [Hin|Hnot].
    + split; [tauto|]. intros [H|[<-|H]]; tauto.
    + rewrite in_app_iff. simpl. tauto.
Qed.

Lemma countOf_fold_increment (hexes : list string) (colorCounts : AppService.ColorCounts)
    (key : string) :
  countOf (fold_left AppService.increment hexes colorCounts) key =
  countOf colorCounts key + count_occ string_dec hexes key.
Proof.
  revert colorCounts. induction hexes as [|h hexes IH]; intro colorCounts; simpl.
  - lia.
  - rewrite IH, countOf_increment. destruct (string_dec h key); lia.
Qed.

Lemma countOf_in (colorCounts : AppService.ColorCounts) (key : string) (n : nat) :
  NoDup (map fst colorCounts) -> In (key, n) colorCounts -> countOf colorCounts key = n.
Proof.
  induction colorCounts as [|[k m] rest IH]; simpl; intros Hnd Hin.
  - contradiction.
  - inversion Hnd as [|? ? Hnot Hnd']; subst.
    destruct Hin as [E|Hin].
    + injection E as -> ->. now rewrite String.eqb_refl.
    + destruct (String.eqb_spec k key) as [E|E].
      * subst k. elim Hnot. apply (in_map fst) in Hin. exact Hin.
      * now apply IH.
Qed.

(** The scan keeps the running maximum: either no entry beats the starting
    count, or the result is the first entry with the greatest count. *)
Lemma mostCommon_first_maximum (entries : AppService.ColorCounts) (maxCount : nat)
    (dominantColor : string) :
  (AppService.mostCommon entries maxCount dominantColor = dominantColor /\
   Forall (fun e => snd e <= maxCount) entries) \/
  (exists before n after,
      entries = before ++ (AppService.mostCommon entries maxCount dominantColor, n) :: after /\
      maxCount < n /\
      Forall (fun e => snd e < n) before /\
      Forall (fun e => snd e <= n) after).
Proof.
  revert maxCount dominantColor.
  induction entries as [|[color count] rest IH]; intros maxCount dominantColor; simpl.
  - left. split; [reflexivity | constructor].
  - destruct (Nat.ltb_spec maxCount count) as [Hlt|Hge].
    + right. destruct (IH count color) as [[E Hall]|[before [n [after [E [Hn [Hb Ha]]]]]]].
      * exists [], count, rest. rewrite E.
        split; [reflexivity|]. split; [exact Hlt|]. split; [constructor | exact Hall].
      * exists ((color, count) :: before), n, after. simpl. rewrite <- E.
        split; [reflexivity|]. split; [lia|]. split; [|exact Ha].
        constructor; [exact Hn | exact Hb].
    + destruct (IH maxCount dominantColor) as [[E Hall]|[before [n [after [E [Hn [Hb Ha]]]]]]].
      * left. split; [exact E|]. constructor; [exact Hge | exact Hall].
      * right. exists ((color, count) :: before), n, after. simpl. rewrite <- E.
        split; [reflexivity|]. split; [exact Hn|]. split; [|exact Ha].
        constructor; [simpl; lia | exact Hb].
Qed.

(** In a list without duplicates an element splits the list in one way. *)
Lemma NoDup_split_unique {A : Type} (x : A) (a b a' b' : list A) :
  NoDup (a ++ x :: b) -> a ++ x :: b = a' ++ x :: b' -> a = a'.
Proof.
  revert a'. induction a as [|y a IH]; intros a' Hnd E.
  - destruct a' as [|y' a']; [reflexivity|]. simpl in *.
    injection E as <- E. inversion Hnd as [|? ? Hnot _]; subst.
    elim Hnot. apply in_or_app. right. left. reflexivity.
  - destruct a' as [|y' a']; simpl in *.
    + injection E as -> E. inversion Hnd as [|? ? Hnot _]; subst.
      elim Hnot. apply in_or_app. right. left. reflexivity.
    + injection E as <- E. inversion Hnd; subst. f_equal. now apply IH.
Qed.

Lemma padHex_shape (x : byte) :
  exists c1 c2, AppService.padHex x = String c1 (String c2 EmptyString) /\
                isLowerHexDigit c1 = true /\ isLowerHexDigit c2 = true.
Proof.
  destruct x; eexists; eexists; (split; [reflexivity | split; reflexivity]).
Qed.

Lemma rgbToHex_isHexColor (r g b : byte) : isHexColor (AppService.rgbToHex r g b) = true.
Proof.
  unfold AppService.rgbToHex.
  destruct (padHex_shape r) as [r1 [r2 [Er [Hr1 Hr2]]]].
  destruct (padHex_shape g) as [g1 [g2 [Eg [Hg1 Hg2]]]].
  destruct (padHex_shape b) as [b1 [b2 [Eb [Hb1 Hb2]]]].
  cbn [map JS.join]. rewrite Er, Eg, Eb. cbn.
  now rewrite Hr1, Hr2, Hg1, Hg2, Hb1, Hb2.
Qed.

Lemma in_split_first (x : string) (l : list string) :
  In x l -> exists l1 l2, l = l1 ++ x :: l2 /\ ~ In x l1.
Proof.
  induction l as [|y l IH]; intro Hin.
  - contradiction.
  - destruct (string_dec y x) as [E|E].
    + subst y. exists [], l. split; [reflexivity | intros []].
    + destruct Hin as [Hy|Hin]; [contradiction|].
      destruct (IH Hin) as [l1 [l2 [El Hnot]]].
      exists (y :: l1), l2. split; [simpl; now rewrite El|].
      intros [H|H]; contradiction.
Qed.

Lemma map_pixelColor_rgbOf (pixels : list Pixel) :
  map pixelColor pixels =
  map (fun t : byte * byte * byte => let '(r, g, b) := t in AppService.rgbToHex r g b)
      (map rgbOf pixels).
Proof.
  induction pixels as [|[[[r g] b] a] pixels IH]; simpl; [|rewrite IH]; reflexivity.
Qed.

(** The scan of the counts, in terms of the colour texts counted: the
    result is the text of a pixel, no text is more frequent, and every pixel
    in front of the first pixel of that text has a text that is strictly
    less frequent. *)
Lemma getDominantColor_first_maximum :
  forall pixels : list Pixel,
    exists color : string,
      AppService.getDominantColor (imageData pixels) = Some color /\
      isHexColor color = true /\
      (pixels = [] -> color = "#666666") /\
      (pixels <> [] ->
       exists before p after,
         pixels = before ++ p :: after /\
         pixelColor p = color /\
         (forall q, In q before -> pixelColor q <> color) /\
         (forall q, In q before ->
                    frequency pixels (pixelColor q) < frequency pixels color) /\
         (forall c, frequency pixels c <= frequency pixels color)) /\
      (forall pixels' : list Pixel,
          map rgbOf pixels' = map rgbOf pixels ->
          AppService.getDominantColor (imageData pixels') = Some color).
Proof.
  intro pixels. unfold AppService.getDominantColor.
  rewrite samplePixels_imageData.
  set (hexes := map pixelColor pixels).
  set (table := fold_left AppService.increment hexes []).
  exists (AppService.mostCommon table 0 "#666666").
  assert (Hnd : NoDup (map fst table)).
  { apply keys_fold_increment_NoDup. constructor. }
  assert (Hcount : forall k n, In (k, n) table -> n = count_occ string_dec hexes k /\ In k hexes).
  { intros k n Hin. split.
    - rewrite <- (countOf_in table k n Hnd Hin). unfold table.
      now rewrite countOf_fold_increment.
    - apply (in_map fst) in Hin. unfold table in Hin.
      apply keys_fold_increment_in in Hin. destruct Hin as [[]|Hin]. exact Hin. }
  assert (Hkey : forall k, In k hexes -> In (k, count_occ string_dec hexes k) table).
  { intros k Hk.
    assert (Hin : In k (map fst table)).
    { unfold table. apply keys_fold_increment_in. now right. }
    apply in_map_iff in Hin. destruct Hin as [[k' n] [E Hin]]. simpl in E. subst k'.
    destruct (Hcount k n Hin) as [-> _]. exact Hin. }
  split; [reflexivity|]. split; [|split; [|split]].
  - destruct (mostCommon_first_maximum table 0 "#666666")
      as [[E _]|[before [n [after [E _]]]]].
    + rewrite E. reflexivity.
    + assert (Hin : In (AppService.mostCommon table 0 "#666666", n) table).
      { rewrite E at 2. apply in_or_app. right. left. reflexivity. }
      destruct (Hcount _ _ Hin) as [_ Hhex]. unfold hexes in Hhex.
      apply in_map_iff in Hhex. destruct Hhex as [[[[r g] b] a] [Ep _]].
      rewrite <- Ep. apply rgbToHex_isHexColor.
  - intros ->. reflexivity.
  - intro Hne.
    destruct (mostCommon_first_maximum table 0 "#666666")
      as [[_ Hall]|[t1 [n [t2 [E [Hn [Hbefore Hafter]]]]]]].
    + exfalso. destruct pixels as [|p pixels]; [now elim Hne|].
      assert (Hp : In (pixelColor p) hexes) by (left; reflexivity).
      apply Hkey in Hp. rewrite Forall_forall in Hall. apply Hall in Hp. simpl in Hp.
      unfold hexes in Hp. simpl in Hp.
      destruct (string_dec (pixelColor p) (pixelColor p)) as [e|ne]; [lia | now elim ne].
    + set (color := AppService.mostCommon table 0 "#666666") in *.
      assert (Hin : In (color, n) table).
      { rewrite E. apply in_or_app. right. left. reflexivity. }
      destruct (Hcount _ _ Hin) as [Hfreq Hhex].
      destruct (in_split_first color hexes Hhex) as [h1 [h2 [Eh Hfirst]]].
      unfold hexes in Eh. apply map_eq_app in Eh.
      destruct Eh as [before [rest [Epix [Eb Er]]]].
      apply map_eq_cons in Er. destruct Er as [p [after [Erest [Ep Ea]]]].
      exists before, p, after. subst rest.
      split; [exact Epix|]. split; [exact Ep|].
      assert (Hkeys : map fst t1 = map fst (fold_left AppService.increment h1 [])).
      { assert (Hc : ~ In color (map fst (fold_left AppService.increment h1 []))).
        { intro H. apply keys_fold_increment_in in H. destruct H as [[]|H]. contradiction. }
        assert (Etable : table = fold_left AppService.increment (h1 ++ color :: h2) []).
        { unfold table, hexes. rewrite Epix, map_app. simpl. now rewrite Eb, Ep, Ea. }
        rewrite fold_left_app in Etable. simpl in Etable.
        destruct (keys_fold_increment h2
                    (AppService.increment (fold_left AppService.increment h1 []) color))
          as [extra Ex].
        rewrite <- Etable, keys_increment in Ex.
        destruct (in_dec string_dec color (map fst (fold_left AppService.increment h1 [])))
          as [Hyes|_]; [contradiction|].
        rewrite <- app_assoc in Ex. simpl in Ex.
        apply (NoDup_split_unique color _ (map fst t2) _ extra).
        - rewrite E in Hnd. rewrite map_app in Hnd. exact Hnd.
        - rewrite <- Ex. rewrite E at 1. now rewrite map_app. }
      assert (Hless : forall q, In q before ->
                frequency pixels (pixelColor q) < frequency pixels color).
      { intros q Hq.
        assert (Hk : In (pixelColor q) (map fst t1)).
        { rewrite Hkeys. apply keys_fold_increment_in. right. rewrite <- Eb.
          now apply in_map. }
        apply in_map_iff in Hk. destruct Hk as [[k m] [Ek Hk]]. simpl in Ek. subst k.
        assert (Hm : In (pixelColor q, m) table).
        { rewrite E. apply in_or_app. now left. }
        destruct (Hcount _ _ Hm) as [Em _].
        rewrite Forall_forall in Hbefore. apply Hbefore in Hk. simpl in Hk.
        unfold frequency. fold hexes. lia. }
      split; [|split; [exact Hless|]].
      * intros q Hq Eq. specialize (Hless q Hq). rewrite Eq in Hless. lia.
      * intro c. unfold frequency. fold hexes.
        destruct (in_dec string_dec c hexes) as [Hc|Hc].
        -- apply Hkey in Hc. rewrite E in Hc. apply in_app_or in Hc.
           rewrite Forall_forall in Hbefore, Hafter.
           destruct Hc as [Hc|[Hc|Hc]].
           ++ apply Hbefore in Hc. simpl in Hc. lia.
           ++ injection Hc as Hc1 Hc2. lia.
           ++ apply Hafter in Hc. simpl in Hc. lia.
        -- apply (count_occ_not_In string_dec) in Hc. lia.
  - intros pixels' Hrgb. rewrite samplePixels_imageData.
    assert (Hsame : map pixelColor pixels' = hexes).
    { unfold hexes. rewrite !map_pixelColor_rgbOf. now rewrite Hrgb. }
    now rewrite Hsame.
Qed.

(** *** Worked examples *)

Example parseInt_examples :
  JS.parseInt " 42px" = JS.Int 42 /\
  JS.parseInt "-7" = JS.Int (-7) /\
  JS.parseInt "0" = JS.Int 0 /\
  JS.parseInt "true" = JS.NaN /\
  JS.parseInt "" = JS.NaN.
Proof. repeat split; reflexivity. Qed.

Example trim_toLowerCase_example :
  JS.toLowerCase (JS.trim "  App_Store_ID ") = "app_store_id".
Proof. reflexivity. Qed.

Example sort_is_stable :
  Arrays.sort (fun a b : nat * string => (fst a <=? fst b)%nat)
              [(2, "a"); (1, "b"); (2, "c"); (1, "d")] =
  [(1, "b"); (1, "d"); (2, "a"); (2, "c")].
Proof. reflexivity. Qed.

(** The example sheet: the row without a name is dropped, the others are
    kept in row order, with the ids 0, -7, 3, 4 and 5. *)
Example loadAppsFromSheet_example :
  map (fun a => (AppService.id a, AppService.name a, AppService.app_store_id a,
                 AppService.category a))
      (AppService.loadAppsFromSheet Examples.sheet) =
  [ (JS.Int 0, "Zeta", "111", Some "app");
    (JS.Int (-7), "Alpha", "222", Some "game");
    (JS.Int 3, "Gamma", "333", None);
    (JS.Int 4, "Gamma Ray", "444", Some "utility");
    (JS.Int 5, "gamma app", "555", Some "app") ].
Proof. vm_compute. reflexivity. Qed.

Example getAppsByCategory_example :
  option_map (map nameText)
             (AppService.getAppsByCategory Gallery.byteCompare Examples.sheet ["app"]) =
  Some ["Zeta"; "gamma app"].
Proof. vm_compute. reflexivity. Qed.

Example batches_example :
  map (@List.length string) (AppService.batches (repeat "1" 23)) = [10; 10; 3] /\
  AppService.batches [] = [] /\
  AppService.lookupRequests true ["111"; "222"; "333"] = ["/api/itunes?id=111,222,333"].
Proof. repeat split; vm_compute; reflexivity. Qed.

(** Equal counts: the colour seen first wins; no pixel: the fallback; a
    buffer cut inside a pixel: a TypeError. *)
Example getDominantColor_examples :
  AppService.getDominantColor
    (imageData [Examples.redPixel; Examples.bluePixel; Examples.paleBluePixel;
                Examples.redPixel]) = Some "#ff0000" /\
  AppService.getDominantColor
    (imageData [Examples.redPixel; Examples.bluePixel; Examples.paleBluePixel]) =
    Some "#0000ff" /\
  AppService.getDominantColor [] = Some "#666666" /\
  AppService.getDominantColor [xff; x00]%byte = None.
Proof. repeat split; vm_compute; reflexivity. Qed.

(** Typing [maps] and searching, searching [mail] from the history, a blank
    search, then [maps] again: the history reads [maps], [mail]. Seven
    distinct searches leave the five most recent. *)
Example searchHistory_examples :
  Gallery.searchHistory
    (Gallery.run [ Gallery.Typed "maps"; Gallery.Searched None true;
                   Gallery.Searched (Some "mail") true;
                   Gallery.Searched (Some "   ") true;
                   Gallery.Searched (Some "maps") false ]) = ["maps"; "mail"] /\
  Gallery.searchHistory
    (Gallery.run (map (fun t => Gallery.Searched (Some t) true)
                      ["a"; "b"; "c"; "d"; "e"; "f"; "g"])) = ["g"; "f"; "e"; "d"; "c"].
Proof. split; vm_compute; reflexivity. Qed.

(** The scenario of two catalog records, [Zeta] and [Alpha], both returned
    by the store under other names: the list shown reads [Alpha], [Zeta];
    a store record without a catalog record keeps its own name. *)
Example allApps_example :
  map AppService.trackName
      (Gallery.allApps Gallery.byteCompare
         (AppService.loadAppsFromSheet Examples.sheet)
         [ Examples.storeRecord 111 "Zeta - The App";
           Examples.storeRecord 999 "Unlisted";
           Examples.storeRecord 222 "Alpha HD" ]) =
  ["Alpha"; "Unlisted"; "Zeta"].
Proof. vm_compute. reflexivity. Qed.

Example getBorderRadiusRatio_examples :
  (ImageExport.getBorderRadiusRatio ImageExport.decimalParseFloat Examples.wideIcon == 225 # 1000)%Q /\
  (ImageExport.getBorderRadiusRatio ImageExport.decimalParseFloat Examples.squareIcon == 1 # 4)%Q /\
  ImageExport.firstLength Examples.squareIcon = "16px".
Proof. repeat split; vm_compute; reflexivity. Qed.

(** ** Further properties *)

(** *** Sorting *)

Section SortFacts.

Variable A : Type.
Variable nonPositive : A -> A -> bool.
Hypothesis nonPositive_total : forall x y, nonPositive x y = true \/ nonPositive y x = true.
Hypothesis nonPositive_trans :
  forall x y z, nonPositive x y = true -> nonPositive y z = true -> nonPositive x z = true.

Lemma insertSorted_in (x y : A) (l : list A) :
  In y (Arrays.insertSorted nonPositive x l) <-> y = x \/ In y l.
Proof.
  split; intro H.
  - apply (Permutation_in y (Permutation_sym (insertSorted_permutation nonPositive x l))) in H.
    destruct H as [H|H]; auto.
  - apply (Permutation_in y (insertSorted_permutation nonPositive x l)).
    destruct H as [H|H]; [left; auto | right; auto].
Qed.

Lemma insertSorted_sorted (x : A) (l : list A) :
  StronglySorted (fun a b => nonPositive a b = true) l ->
  StronglySorted (fun a b => nonPositive a b = true) (Arrays.insertSorted nonPositive x l).
Proof.
  induction l as [|y l IH]; intro Hs; simpl.
  - constructor; constructor.
  - inversion Hs as [|? ? Hl Hy]; subst.
    destruct (nonPositive x y) eqn:E.
    + constructor; [exact Hs|]. constructor; [exact E|].
      rewrite Forall_forall in *. intros z Hz. eapply nonPositive_trans; eauto.
    + constructor; [now apply IH|].
      rewrite Forall_forall in *. intros z Hz. apply insertSorted_in in Hz.
      destruct Hz as [->|Hz]; [|now apply Hy].
      destruct (nonPositive_total x y) as [H|H]; [congruence | exact H].
Qed.

Lemma sort_sorted (l : list A) :
  StronglySorted (fun a b => nonPositive a b = true) (Arrays.sort nonPositive l).
Proof.
  induction l as [|x l IH]; simpl.
  - constructor.
  - now apply insertSorted_sorted.
Qed.

(** Filtering commutes with inserting into a sorted list. *)
Lemma filter_insertSorted (p : A -> bool) (x : A) (l : list A) :
  StronglySorted (fun a b => nonPositive a b = true) l ->
  filter p (Arrays.insertSorted nonPositive x l) =
  if p x then Arrays.insertSorted nonPositive x (filter p l) else filter p l.
Proof.
  induction l as [|y l IH]; intro Hs; simpl.
  - destruct (p x); reflexivity.
  - inversion Hs as [|? ? Hl Hy]; subst.
    destruct (nonPositive x y) eqn:E; simpl.
    + destruct (p x) eqn:Ex; [|reflexivity].
      destruct (p y) eqn:Ey; simpl.
      * now rewrite E.
      * clear IH. induction l as [|z l IHl]; simpl; [reflexivity|].
        inversion Hl as [|? ? Hl' Hz]; subst. inversion Hy as [|? ? Hyz Hy']; subst.
        destruct (p z) eqn:Ez; simpl.
        -- now rewrite (nonPositive_trans x y z E Hyz).
        -- apply IHl; auto. constructor; auto.
    + rewrite (IH Hl). destruct (p x) eqn:Ex; destruct (p y) eqn:Ey; simpl;
        try reflexivity. now rewrite E.
Qed.

Lemma filter_sort (p : A -> bool) (l : list A) :
  filter p (Arrays.sort nonPositive l) = Arrays.sort nonPositive (filter p l).
Proof.
  induction l as [|x l IH]; simpl.
  - reflexivity.
  - rewrite filter_insertSorted by apply sort_sorted.
    destruct (p x); simpl; now rewrite IH.
Qed.

(** A list that is in order already is left as it is. *)
Lemma sort_of_sorted (l : list A) :
  StronglySorted (fun a b => nonPositive a b = true) l -> Arrays.sort nonPositive l = l.
Proof.
  induction l as [|x l IH]; intro Hs; simpl; [reflexivity|].
  inversion Hs as [|? ? Hl Hx]; subst. rewrite (IH Hl).
  destruct l as [|y l]; simpl; [reflexivity|].
  inversion Hx as [|? ? Hxy _]; subst. now rewrite Hxy.
Qed.

(** The head of the sorted list is the first of the least elements. *)
Lemma hd_sort_first_minimum (l : list A) :
  l <> [] ->
  exists before x after,
    l = before ++ x :: after /\
    hd_error (Arrays.sort nonPositive l) = Some x /\
    Forall (fun y => nonPositive y x = false) before /\
    Forall (fun y => nonPositive x y = true) after.
Proof.
  induction l as [|a l IH]; intro Hne; [congruence|].
  destruct l as [|b l].
  - exists [], a, []. simpl. repeat split; constructor.
  - destruct IH as [before [m [after [E [Hhd [Hb Ha]]]]]]; [discriminate|].
    simpl. simpl in Hhd.
    destruct (Arrays.insertSorted nonPositive b (Arrays.sort nonPositive l)) as [|m' rest] eqn:Es;
      [discriminate|].
    injection Hhd as ->. simpl.
    destruct (nonPositive a m) eqn:Eam.
    + exists [], a, (b :: l). simpl. split; [reflexivity|]. split; [reflexivity|].
      split; [constructor|]. rewrite E. apply Forall_forall. intros y Hy.
      apply in_app_or in Hy. destruct Hy as [Hy|[<-|Hy]].
      * rewrite Forall_forall in Hb. specialize (Hb y Hy).
        destruct (nonPositive_total m y) as [H|H]; [|congruence].
        now apply (nonPositive_trans a m y).
      * exact Eam.
      * rewrite Forall_forall in Ha. apply (nonPositive_trans a m y); auto.
    + exists (a :: before), m, after. rewrite E. simpl.
      split; [reflexivity|]. split; [reflexivity|]. split; [|exact Ha].
      constructor; assumption.
Qed.

End SortFacts.

(** A list whose elements are all ranked alike is left as it is. *)
Lemma sort_of_equals {A : Type} (nonPositive : A -> A -> bool) (l : list A) :
  (forall x y, In x l -> In y l -> nonPositive x y = true) ->
  Arrays.sort nonPositive l = l.
Proof.
  induction l as [|x l IH]; intro H; simpl.
  - reflexivity.
  - rewrite IH by (intros; apply H; now right).
    destruct l as [|y l]; simpl; [reflexivity|].
    rewrite (H x y); [reflexivity | now left | right; now left].
Qed.

Lemma filter_filter_comm {A : Type} (p q : A -> bool) (l : list A) :
  filter p (filter q l) = filter q (filter p l).
Proof.
  induction l as [|x l IH]; simpl; [reflexivity|].
  destruct (p x) eqn:Ep, (q x) eqn:Eq; simpl; rewrite ?Ep, ?Eq, IH; reflexivity.
Qed.

Lemma StronglySorted_weaken {A : Type} (R S : A -> A -> Prop) (l : list A) :
  (forall x y, R x y -> S x y) -> StronglySorted R l -> StronglySorted S l.
Proof.
  intros H Hs. induction Hs as [|x l Hl IH Hx]; constructor; auto.
  rewrite Forall_forall in *. auto.
Qed.

(** *** Listing and searching the catalog *)

Lemma nameLeq_total (compare : string -> string -> Z) :
  totalPreorder compare ->
  forall x y, nameLeq compare x y = true \/ nameLeq compare y x = true.
Proof.
  intros [Htotal _] x y. unfold nameLeq.
  destruct (Htotal (nameText x) (nameText y)) as [H|H];
    [left | right]; now apply Z.leb_le.
Qed.

Lemma nameLeq_trans (compare : string -> string -> Z) :
  totalPreorder compare ->
  forall x y z, nameLeq compare x y = true -> nameLeq compare y z = true ->
                nameLeq compare x z = true.
Proof.
  intros [_ Htrans] x y z. unfold nameLeq.
  rewrite !Z.leb_le. apply Htrans.
Qed.

Lemma compareTrackNames_total (compare : string -> string -> Z) :
  totalPreorder compare ->
  forall x y, Gallery.compareTrackNames compare x y = true \/
              Gallery.compareTrackNames compare y x = true.
Proof.
  intros [Htotal _] x y. unfold Gallery.compareTrackNames.
  destruct (Htotal (AppService.trackName x) (AppService.trackName y)) as [H|H];
    [left | right]; now apply Z.leb_le.
Qed.

Lemma compareTrackNames_trans (compare : string -> string -> Z) :
  totalPreorder compare ->
  forall x y z, Gallery.compareTrackNames compare x y = true ->
                Gallery.compareTrackNames compare y z = true ->
                Gallery.compareTrackNames compare x z = true.
Proof.
  intros [_ Htrans] x y z. unfold Gallery.compareTrackNames.
  rewrite !Z.leb_le. apply Htrans.
Qed.

Lemma lengthCompare_totalPreorder : totalPreorder lengthCompare.
Proof.
  unfold totalPreorder, lengthCompare. split; intros; lia.
Qed.

Lemma sort_by_name_sorted (compare : string -> string -> Z) (l : list AppService.LoadedApp) :
  totalPreorder compare ->
  StronglySorted (nameOrder compare) (Arrays.sort (nameLeq compare) l).
Proof.
  intro Hpre.
  apply (StronglySorted_weaken (fun a b => nameLeq compare a b = true)).
  - intros x y H. unfold nameOrder. now apply Z.leb_le.
  - apply sort_sorted; [now apply nameLeq_total | now apply nameLeq_trans].
Qed.

(** The records [getAppsByCategory] sorts. *)
Lemma getAppsByCategory_returned (localeCompare : string -> string -> Z)
    (payload : AppService.GvizResponse) (categories : list string)
    (listed : list AppService.LoadedApp) :
  AppService.getAppsByCategory localeCompare payload categories = Some listed ->
  listed = Arrays.sort (nameLeq localeCompare)
             (if JS.arrayIncludes categories "all" then AppService.loadedApps payload
              else filter (AppService.inCategories categories) (AppService.loadedApps payload)).
Proof.
  unfold AppService.getAppsByCategory, AppService.getAllApps.
  destruct (JS.arrayIncludes categories "all"); apply sortOrRaise_returned.
Qed.

Lemma getAppsByCategory_returns (localeCompare : string -> string -> Z)
    (payload : AppService.GvizResponse) (categories : list string) :
  (forall a, In a (AppService.loadedApps payload) -> hasStringName a = true) ->
  AppService.getAppsByCategory localeCompare payload categories =
  Some (Arrays.sort (nameLeq localeCompare)
          (if JS.arrayIncludes categories "all" then AppService.loadedApps payload
           else filter (AppService.inCategories categories) (AppService.loadedApps payload))).
Proof.
  intro H. unfold AppService.getAppsByCategory, AppService.getAllApps.
  destruct (JS.arrayIncludes categories "all"); apply sortOrRaise_of_strings.
  - exact H.
  - intros a Ha. apply filter_In in Ha. apply H. tauto.
Qed.

(** When the search returns, the names of all loaded records are strings. *)
Lemma searchAppsByCategory_returned (localeCompare : string -> string -> Z)
    (toLowerCase trim : string -> string) (payload : AppService.GvizResponse)
    (searchTerm : string) (categories : list string) (found : list AppService.LoadedApp) :
  AppService.searchAppsByCategory localeCompare toLowerCase trim payload searchTerm categories =
    Some found ->
  forall a, In a (AppService.loadedApps payload) -> hasStringName a = true.
Proof.
  intros E a Ha. destruct (hasStringName a) eqn:Es; [reflexivity|].
  rewrite (searchAppsByCategory_raises _ _ _ _ _ _ a Ha Es) in E. discriminate E.
Qed.

(** X1. Under a comparator that is a total preorder, every listing that the
    catalog service returns is in ascending order of name, each record
    ranked at or below all the records after it; and the three listings do
    return when the names of the loaded records are all strings. *)
Theorem catalog_listings_are_sorted_by_name :
  forall (localeCompare : string -> string -> Z) (toLowerCase trim : string -> string),
    totalPreorder localeCompare ->
    forall (payload : AppService.GvizResponse) (categories : list string)
           (searchTerm : string),
      (forall listed,
          AppService.getAllApps localeCompare payload = Some listed \/
          AppService.getAppsByCategory localeCompare payload categories = Some listed \/
          AppService.searchAppsByCategory localeCompare toLowerCase trim payload searchTerm
                                          categories = Some listed ->
          StronglySorted (nameOrder localeCompare) listed) /\
      ((forall a, In a (AppService.loadedApps payload) -> hasStringName a = true) ->
       exists all listed found,
         AppService.getAllApps localeCompare payload = Some all /\
         AppService.getAppsByCategory localeCompare payload categories = Some listed /\
         AppService.searchAppsByCategory localeCompare toLowerCase trim payload searchTerm
                                         categories = Some found).
Proof.
  intros localeCompare toLowerCase trim Hpre payload categories searchTerm. split.
  - intros listed [E|[E|E]].
    + apply sortOrRaise_returned in E. subst listed. now apply sort_by_name_sorted.
    + apply getAppsByCategory_returned in E. subst listed. now apply sort_by_name_sorted.
    + pose proof (searchAppsByCategory_returned _ _ _ _ _ _ _ E) as Hall.
      rewrite (searchAppsByCategory_returns _ _ _ _ _ _ Hall) in E.
      injection E as <-. now apply sort_by_name_sorted.
  - intro Hall. eexists. eexists. eexists. split; [|split].
    + unfold AppService.getAllApps. now apply sortOrRaise_of_strings.
    + now apply getAppsByCategory_returns.
    + now apply searchAppsByCategory_returns.
Qed.

(** X1 at work, on the example sheet ordered by length of name. *)
Lemma catalog_listings_sorted_example :
  totalPreorder lengthCompare /\
  exists listed,
    AppService.getAllApps lengthCompare Examples.sheet = Some listed /\
    map nameText listed = ["Zeta"; "Alpha"; "Gamma"; "Gamma Ray"; "gamma app"] /\
    StronglySorted (nameOrder lengthCompare) listed.
Proof.
  split; [exact lengthCompare_totalPreorder|].
  eexists. split; [vm_compute; reflexivity|]. split; [reflexivity|].
  apply (proj1 (catalog_listings_are_sorted_by_name lengthCompare JS.toLowerCase JS.trim
                  lengthCompare_totalPreorder Examples.sheet [] "")).
  left. vm_compute. reflexivity.
Defined.

(** X2. Under a comparator that is a total preorder, sorting is stable:
    the records the comparator ranks like a given record stand in the sorted
    catalog, when the listing returns, in the order of their rows in the
    sheet. *)
Theorem getAllApps_keeps_row_order_of_equal_names :
  forall (localeCompare : string -> string -> Z),
    totalPreorder localeCompare ->
    forall (payload : AppService.GvizResponse) (listed : list AppService.LoadedApp)
           (a : AppService.LoadedApp),
      AppService.getAllApps localeCompare payload = Some listed ->
      filter (sameRank localeCompare a) listed =
      filter (sameRank localeCompare a) (AppService.loadedApps payload).
Proof.
  intros localeCompare Hpre payload listed a E.
  apply sortOrRaise_returned in E. subst listed.
  rewrite filter_sort; [| now apply nameLeq_total | now apply nameLeq_trans].
  apply sort_of_equals. intros x y Hx Hy.
  apply filter_In in Hx. apply filter_In in Hy.
  destruct Hx as [_ Hx], Hy as [_ Hy]. unfold sameRank in Hx, Hy.
  apply andb_true_iff in Hx. apply andb_true_iff in Hy.
  destruct Hx as [_ Hxa], Hy as [Hay _].
  apply (nameLeq_trans localeCompare Hpre x a y); assumption.
Qed.

(** X2 at work: [Alpha] and [Gamma] have five letters each and keep their
    row order. *)
Lemma getAllApps_stable_example :
  totalPreorder lengthCompare /\
  exists listed,
    AppService.getAllApps lengthCompare Examples.sheet = Some listed /\
    map nameText (filter (sameRank lengthCompare (Examples.loadedOf Examples.rowNegativeId))
                         listed) = ["Alpha"; "Gamma"].
Proof.
  split; [exact lengthCompare_totalPreorder|].
  eexists. split; [vm_compute; reflexivity|].
  rewrite (getAllApps_keeps_row_order_of_equal_names lengthCompare
             lengthCompare_totalPreorder Examples.sheet _
             (Examples.loadedOf Examples.rowNegativeId));
    vm_compute; reflexivity.
Defined.

Lemma includes_empty (s : string) : JS.includes s "" = true.
Proof. destruct s; reflexivity. Qed.

Lemma filter_all {A : Type} (p : A -> bool) (l : list A) :
  (forall x, In x l -> p x = true) -> filter p l = l.
Proof.
  induction l as [|x l IH]; intro H; simpl; [reflexivity|].
  rewrite (H x) by now left. rewrite IH; [reflexivity|]. intros; apply H; now right.
Qed.

(** X3. Which records [getAppsByCategory] lists when it returns: with the
    wildcard [all] among the categories, every record of the catalog;
    otherwise exactly the records whose category is a string, not empty and
    one of the categories. A record whose category is missing, or is a
    number or a boolean, is listed under the wildcard only. *)
Theorem getAppsByCategory_lists_the_requested_categories :
  forall (localeCompare : string -> string -> Z) (payload : AppService.GvizResponse)
         (categories : list string) (listed : list AppService.LoadedApp),
    AppService.getAppsByCategory localeCompare payload categories = Some listed ->
    (forall a,
        In a listed <->
        In a (AppService.loadedApps payload) /\
        (In "all" categories \/
         exists cat, AppService.categoryValue a = Some (JS.VStr cat) /\ cat <> "" /\
                     In cat categories)) /\
    (In "all" categories -> Permutation (AppService.loadedApps payload) listed) /\
    (forall a,
        In a listed ->
        (forall cat, AppService.categoryValue a <> Some (JS.VStr cat)) ->
        In "all" categories).
Proof.
  intros localeCompare payload categories listed E.
  apply getAppsByCategory_returned in E.
  assert (Hiff : forall a,
             In a listed <->
             In a (AppService.loadedApps payload) /\
             (In "all" categories \/
              exists cat, AppService.categoryValue a = Some (JS.VStr cat) /\ cat <> "" /\
                          In cat categories)).
  { intro a. subst listed. destruct (JS.arrayIncludes categories "all") eqn:Eall.
    - apply arrayIncludes_true_iff in Eall. rewrite in_sort_iff. tauto.
    - assert (Hno : ~ In "all" categories).
      { intro H. apply arrayIncludes_true_iff in H. congruence. }
      rewrite in_sort_iff, filter_In, inCategories_true_iff. tauto. }
  split; [exact Hiff|]. split.
  - intro Hall. apply arrayIncludes_true_iff in Hall. subst listed. rewrite Hall.
    apply sort_permutation.
  - intros a Hin Hnone. apply Hiff in Hin. destruct Hin as [_ [H|[cat [Ecat _]]]]; [exact H|].
    now elim (Hnone cat).
Qed.

(** X3 at work: the tab [app] of the example sheet lists [Zeta] and
    [gamma app]; the record [Gamma], without a category, is not listed. *)
Lemma getAppsByCategory_app_tab_example :
  let listed := [Examples.loadedOf Examples.rowMissingId; Examples.loadedOf Examples.rowApp] in
  AppService.getAppsByCategory Gallery.byteCompare Examples.sheet ["app"] = Some listed /\
  map nameText listed = ["Zeta"; "gamma app"] /\
  In (Examples.loadedOf Examples.rowNoCategory) (AppService.loadedApps Examples.sheet) /\
  ~ In (Examples.loadedOf Examples.rowNoCategory) listed.
Proof.
  intro listed.
  assert (E : AppService.getAppsByCategory Gallery.byteCompare Examples.sheet ["app"] =
              Some listed) by (vm_compute; reflexivity).
  split; [exact E|]. split; [reflexivity|]. split; [vm_compute; auto|].
  intro Hin.
  destruct (getAppsByCategory_lists_the_requested_categories
              Gallery.byteCompare Examples.sheet ["app"] listed E) as [_ [_ Hwild]].
  assert (H : In "all" ["app"]).
  { apply (Hwild _ Hin). intros cat Hcat. vm_compute in Hcat. discriminate Hcat. }
  destruct H as [H|[]]. discriminate H.
Defined.

(** X4. Under a comparator that is a total preorder and on a catalog whose
    names are all strings, searching is listing followed by the name test:
    [searchAppsByCategory] returns the list of [getAppsByCategory] for the
    same categories with the records whose lower-cased name does not contain
    the trimmed, lower-cased term taken out, the others in the same order.
    For a term that trims to nothing it is that listing itself. A loaded
    record whose name is not a string makes the search fail, whatever the
    term and the categories. *)
Theorem searchAppsByCategory_filters_the_listing :
  forall (localeCompare : string -> string -> Z) (toLowerCase trim : string -> string),
    totalPreorder localeCompare ->
    forall (payload : AppService.GvizResponse) (searchTerm : string)
           (categories : list string),
      ((forall a, In a (AppService.loadedApps payload) -> hasStringName a = true) ->
       exists listed,
         AppService.getAppsByCategory localeCompare payload categories = Some listed /\
         AppService.searchAppsByCategory localeCompare toLowerCase trim payload searchTerm
                                         categories =
           Some (filter (nameMatches toLowerCase trim searchTerm) listed) /\
         (toLowerCase (trim searchTerm) = "" ->
          AppService.searchAppsByCategory localeCompare toLowerCase trim payload searchTerm
                                          categories = Some listed)) /\
      (forall a, In a (AppService.loadedApps payload) -> hasStringName a = false ->
                 AppService.searchAppsByCategory localeCompare toLowerCase trim payload
                                                 searchTerm categories = None).
Proof.
  intros localeCompare toLowerCase trim Hpre payload searchTerm categories. split.
  - intro Hall. eexists. split; [now apply getAppsByCategory_returns|].
    assert (Heq : AppService.searchAppsByCategory localeCompare toLowerCase trim payload
                    searchTerm categories =
                  Some (filter (nameMatches toLowerCase trim searchTerm)
                          (Arrays.sort (nameLeq localeCompare)
                             (if JS.arrayIncludes categories "all"
                              then AppService.loadedApps payload
                              else filter (AppService.inCategories categories)
                                          (AppService.loadedApps payload))))).
    { rewrite (searchAppsByCategory_returns _ _ _ _ _ _ Hall). f_equal.
      rewrite filter_sort; [| now apply nameLeq_total | now apply nameLeq_trans].
      destruct (JS.arrayIncludes categories "all"); [reflexivity|].
      now rewrite filter_filter_comm. }
    split; [exact Heq|].
    intro Hblank. rewrite Heq. f_equal. apply filter_all. intros x Hx.
    apply in_sort_iff in Hx.
    assert (Hs : hasStringName x = true).
    { apply Hall. destruct (JS.arrayIncludes categories "all"); [exact Hx|].
      apply filter_In in Hx. tauto. }
    unfold nameMatches. unfold hasStringName in Hs.
    destruct (AppService.nameValue x); try discriminate Hs.
    rewrite Hblank. apply includes_empty.
  - intros a Ha Hs. now apply (searchAppsByCategory_raises _ _ _ _ _ _ a).
Qed.

(** X4 at work, searching [gamma] among all categories of the example
    sheet ordered by length of name. *)
Lemma searchAppsByCategory_filters_example :
  totalPreorder lengthCompare /\
  (forall a, In a (AppService.loadedApps Examples.sheet) -> hasStringName a = true) /\
  option_map (map nameText)
    (AppService.searchAppsByCategory lengthCompare JS.toLowerCase JS.trim Examples.sheet
                                     "gamma" ["all"]) =
  Some ["Gamma"; "Gamma Ray"; "gamma app"].
Proof.
  split; [exact lengthCompare_totalPreorder|].
  assert (Hall : forall a, In a (AppService.loadedApps Examples.sheet) ->
                           hasStringName a = true).
  { intros a Ha. vm_compute in Ha.
    repeat (destruct Ha as [<-|Ha]; [reflexivity|]). destruct Ha. }
  split; [exact Hall|].
  destruct (proj1 (searchAppsByCategory_filters_the_listing lengthCompare JS.toLowerCase
                     JS.trim lengthCompare_totalPreorder Examples.sheet "gamma" ["all"]) Hall)
    as [listed [Elisted [Esearch _]]].
  rewrite Esearch. vm_compute in Elisted. injection Elisted as <-.
  vm_compute. reflexivity.
Defined.

(** *** Hue, saturation and lightness *)

Lemma compareDist_true_iff (a b : string * Q) :
  Palette.compareDist a b = true <-> (snd a <= snd b)%Q.
Proof.
  unfold Palette.compareDist. rewrite Qle_bool_iff. split; intro H; lra.
Qed.

Lemma compareDist_false_iff (a b : string * Q) :
  Palette.compareDist a b = false <-> (snd b < snd a)%Q.
Proof.
  split; intro H.
  - apply Qnot_le_lt. intro Hle. apply compareDist_true_iff in Hle. congruence.
  - destruct (Palette.compareDist a b) eqn:E; [|reflexivity].
    apply compareDist_true_iff in E. lra.
Qed.

Lemma compareDist_total (a b : string * Q) :
  Palette.compareDist a b = true \/ Palette.compareDist b a = true.
Proof.
  rewrite !compareDist_true_iff. destruct (Qlt_le_dec (snd b) (snd a)); [right | left]; lra.
Qed.

Lemma compareDist_trans (a b c : string * Q) :
  Palette.compareDist a b = true -> Palette.compareDist b c = true ->
  Palette.compareDist a c = true.
Proof.
  rewrite !compareDist_true_iff. intros; lra.
Qed.

Lemma map_eq_app_inv {A B : Type} (f : A -> B) (l : list A) (b1 : list B) (y : B) (b2 : list B) :
  map f l = b1 ++ y :: b2 ->
  exists l1 x l2, l = l1 ++ x :: l2 /\ map f l1 = b1 /\ f x = y /\ map f l2 = b2.
Proof.
  revert b1. induction l as [|a l IH]; intros b1 E.
  - destruct b1; discriminate E.
  - destruct b1 as [|b b1]; simpl in E.
    + injection E as E1 E2. exists [], a, l. auto.
    + injection E as E1 E2. destruct (IH b1 E2) as [l1 [x [l2 [-> [H1 [H2 H3]]]]]].
      exists (a :: l1), x, l2. simpl. rewrite H1, E1. auto.
Qed.

(** The hue path of the classifier: the rank by distance decides, and the
    first of the nearest wins. *)
Lemma getClosestColorId_hue_path (color : string) (hsl : Palette.HSL) :
  Palette.hexToHsl color = Some hsl ->
  (12 # 100 <= Palette.s hsl)%Q ->
  exists hues before bucket hue after,
    Palette.paletteWithHues = Some hues /\
    hues = before ++ (bucket, hue) :: after /\
    Palette.getClosestColorId color = Some bucket /\
    Forall (fun p => (Palette.hueDistance (Palette.h hsl) hue <
                      Palette.hueDistance (Palette.h hsl) (snd p))%Q) before /\
    Forall (fun p => (Palette.hueDistance (Palette.h hsl) hue <=
                      Palette.hueDistance (Palette.h hsl) (snd p))%Q) after.
Proof.
  intros Ehsl Hs. unfold Palette.getClosestColorId. rewrite Ehsl.
  apply Qltb_false_iff in Hs. rewrite Hs.
  destruct paletteWithHues_defined as [hues [Ep Hids]]. rewrite Ep.
  set (dist := fun p : string * Q => (fst p, Palette.hueDistance (Palette.h hsl) (snd p))).
  assert (Hne : map dist hues <> []).
  { destruct hues; [discriminate Hids | discriminate]. }
  destruct (hd_sort_first_minimum _ Palette.compareDist compareDist_total compareDist_trans
              (map dist hues) Hne) as [before [[cid d] [after [E [Ehd [Hb Ha]]]]]].
  rewrite Ehd.
  destruct (map_eq_app_inv dist hues before (cid, d) after E)
    as [l1 [[bucket hue] [l2 [Ehues [E1 [E2 E3]]]]]].
  unfold dist in E2. simpl in E2. injection E2 as -> <-.
  assert (Hcid : In cid hueBuckets).
  { rewrite <- Hids, Ehues, map_app. apply in_or_app. right. left. reflexivity. }
  assert (Hnonempty : JS.nonEmpty cid = true).
  { unfold hueBuckets in Hcid. simpl in Hcid.
    destruct Hcid as [<-|[<-|[<-|[<-|[<-|[<-|[<-|[]]]]]]]]; reflexivity. }
  rewrite Hnonempty.
  exists hues, l1, cid, hue, l2.
  split; [reflexivity|]. split; [exact Ehues|]. split; [reflexivity|]. split.
  - subst before. rewrite Forall_map in Hb. revert Hb. apply Forall_impl.
    intros p Hp. apply compareDist_false_iff in Hp. exact Hp.
  - subst after. rewrite Forall_map in Ha. revert Ha. apply Forall_impl.
    intros p Hp. apply compareDist_true_iff in Hp. exact Hp.
Qed.

Lemma paletteWithHues_values :
  exists hues, Palette.paletteWithHues = Some hues /\ Forall2 sameHue hues paletteHues.
Proof.
  destruct Palette.paletteWithHues as [hues|] eqn:E.
  - exists hues. split; [reflexivity|]. vm_compute in E. injection E as <-.
    unfold paletteHues. repeat constructor.
  - vm_compute in E. discriminate E.
Qed.

(** X5. A colour that parses and whose saturation exceeds 0.12 goes to a
    hue bucket whose hue is nearest by [hueDistance]: no bucket of the
    palette is nearer. The hues compared are 0, 660/17, 60, 120, 240, 300
    and 15396/47 degrees for red, orange, yellow, green, blue, purple and
    pink. *)
Theorem getClosestColorId_nearest_hue :
  forall (color : string) (hsl : Palette.HSL),
    Palette.hexToHsl color = Some hsl ->
    (12 # 100 < Palette.s hsl)%Q ->
    exists hues bucket hue,
      Palette.paletteWithHues = Some hues /\
      Forall2 sameHue hues paletteHues /\
      In (bucket, hue) hues /\
      Palette.getClosestColorId color = Some bucket /\
      Forall (fun p => (Palette.hueDistance (Palette.h hsl) hue <=
                        Palette.hueDistance (Palette.h hsl) (snd p))%Q) hues.
Proof.
  intros color hsl Ehsl Hs.
  destruct (getClosestColorId_hue_path color hsl Ehsl (Qlt_le_weak _ _ Hs))
    as [hues [before [bucket [hue [after [Ep [E [Eid [Hb Ha]]]]]]]]].
  destruct paletteWithHues_values as [hues' [Ep' Hvalues]].
  assert (hues' = hues) by congruence. subst hues'.
  exists hues, bucket, hue.
  split; [exact Ep|]. split; [exact Hvalues|]. split.
  - rewrite E. apply in_elt.
  - split; [exact Eid|]. rewrite E. apply Forall_app. split.
    + revert Hb. apply Forall_impl. intros p Hp. now apply Qlt_le_weak.
    + constructor; [apply Qle_refl | exact Ha].
Qed.

(** X5 at work: [#3366cc] has hue 220 and saturation 0.6, and goes to
    [blue]. *)
Lemma getClosestColorId_nearest_hue_example :
  let hsl := {| Palette.h := 558129082500 # 2536950375;
                Palette.s := 2536950375 # 4228250625;
                Palette.l := 65025 # 130050 |} in
  Palette.hexToHsl "#3366cc" = Some hsl /\
  (12 # 100 < Palette.s hsl)%Q /\
  (Palette.h hsl == 220)%Q /\
  Palette.getClosestColorId "#3366cc" = Some "blue" /\
  exists hues hue,
    Palette.paletteWithHues = Some hues /\
    Forall2 sameHue hues paletteHues /\
    In ("blue", hue) hues /\
    Forall (fun p => (Palette.hueDistance (Palette.h hsl) hue <=
                      Palette.hueDistance (Palette.h hsl) (snd p))%Q) hues.
Proof.
  intro hsl.
  assert (E : Palette.hexToHsl "#3366cc" = Some hsl) by reflexivity.
  assert (Hs : (12 # 100 < Palette.s hsl)%Q) by reflexivity.
  split; [exact E|]. split; [exact Hs|]. split; [reflexivity|].
  destruct (getClosestColorId_nearest_hue "#3366cc" hsl E Hs)
    as [hues [bucket [hue [Ep [Hvalues [Hin [Eid Hmin]]]]]]].
  assert (Eblue : bucket = "blue").
  { vm_compute in Eid. now injection Eid as <-. }
  subst bucket. split; [exact Eid|].
  exists hues, hue. auto.
Defined.

Lemma hexValue_range (ch : ascii) (v : Z) :
  Palette.hexValue ch = Some v -> (0 <= v <= 15)%Z.
Proof.
  unfold Palette.hexValue. set (n := N_of_ascii ch).
  destruct (N.leb_spec 48 n), (N.leb_spec n 57); simpl;
    try (intro E; injection E as <-; lia);
    destruct (N.leb_spec 97 n), (N.leb_spec n 102); simpl;
    try (intro E; injection E as <-; lia);
    destruct (N.leb_spec 65 n), (N.leb_spec n 70); simpl;
    try (intro E; injection E as <-; lia); discriminate.
Qed.

Lemma hexPair_range (hi lo : ascii) (v : Z) :
  Palette.hexPair hi lo = Some v -> (0 <= v <= 255)%Z.
Proof.
  unfold Palette.hexPair.
  destruct (Palette.hexValue hi) as [a|] eqn:Ea; [|discriminate].
  destruct (Palette.hexValue lo) as [b|] eqn:Eb; [|discriminate].
  intro E. injection E as <-.
  apply hexValue_range in Ea. apply hexValue_range in Eb.
  change (0 <= 16 * a + b <= 255)%Z. lia.
Qed.

Lemma execHex_range (hex : string) (r g b : Z) :
  Palette.execHex hex = Some (r, g, b) ->
  (0 <= r <= 255)%Z /\ (0 <= g <= 255)%Z /\ (0 <= b <= 255)%Z.
Proof.
  unfold Palette.execHex.
  set (digits := match hex with String "#"%char rest => rest | _ => hex end).
  destruct digits as [|r1 [|r2 [|g1 [|g2 [|b1 [|b2 [|? ?]]]]]]]; try discriminate.
  destruct (Palette.hexPair r1 r2) as [r'|] eqn:Er; [|discriminate].
  destruct (Palette.hexPair g1 g2) as [g'|] eqn:Eg; [|discriminate].
  destruct (Palette.hexPair b1 b2) as [b'|] eqn:Eb; [|discriminate].
  intro E. injection E as <- <- <-.
  split; [|split]; eapply hexPair_range; eassumption.
Qed.

Lemma channel_unit (z : Z) : (0 <= z <= 255)%Z -> (0 <= inject_Z z / 255 <= 1)%Q.
Proof.
  intros [H0 H1].
  assert (Q0 : (0 <= inject_Z z)%Q) by (change 0%Q with (inject_Z 0); now rewrite <- Zle_Qle).
  assert (Q1 : (inject_Z z <= 255)%Q) by (change 255%Q with (inject_Z 255); now rewrite <- Zle_Qle).
  split; [apply Qle_shift_div_l | apply Qle_shift_div_r]; lra.
Qed.

Lemma channel_eq (x y : Z) : (inject_Z x / 255 == inject_Z y / 255)%Q <-> x = y.
Proof.
  split; [|now intros ->].
  intro E. unfold Qdiv in E.
  assert (Hnz : ~ (/ 255 == 0)%Q) by (intro Hz; vm_compute in Hz; discriminate Hz).
  apply (proj1 (Qmult_inj_r _ _ (/ 255)%Q Hnz)) in E.
  unfold Qeq, inject_Z in E. cbn [Qnum Qden] in E. lia.
Qed.

Lemma max3_spec (a b c : Q) :
  (a <= Palette.max3 a b c)%Q /\ (b <= Palette.max3 a b c)%Q /\ (c <= Palette.max3 a b c)%Q /\
  (Palette.max3 a b c == a \/ Palette.max3 a b c == b \/ Palette.max3 a b c == c)%Q.
Proof.
  unfold Palette.max3.
  destruct (Q.max_spec (Qmax a b) c) as [[H1 E1]|[H1 E1]];
    destruct (Q.max_spec a b) as [[H2 E2]|[H2 E2]];
    rewrite E1; try rewrite E2; repeat split; try lra; auto; rewrite ?E2 in *; try lra;
    auto using Qeq_refl.
Qed.

Lemma min3_spec (a b c : Q) :
  (Palette.min3 a b c <= a)%Q /\ (Palette.min3 a b c <= b)%Q /\ (Palette.min3 a b c <= c)%Q /\
  (Palette.min3 a b c == a \/ Palette.min3 a b c == b \/ Palette.min3 a b c == c)%Q.
Proof.
  unfold Palette.min3.
  destruct (Q.min_spec (Qmin a b) c) as [[H1 E1]|[H1 E1]];
    destruct (Q.min_spec a b) as [[H2 E2]|[H2 E2]];
    rewrite E1; try rewrite E2; repeat split; try lra; auto; rewrite ?E2 in *; try lra;
    auto using Qeq_refl.
Qed.

(** A difference that lies within the spread, over the spread. *)
Lemma ratio_unit (a d : Q) :
  (0 < d)%Q -> (- d <= a)%Q -> (a <= d)%Q -> (-1 <= a / d <= 1)%Q.
Proof.
  intros Hd Hlo Hhi. split.
  - apply Qle_shift_div_l; [exact Hd | lra].
  - apply Qle_shift_div_r; [exact Hd | lra].
Qed.

Lemma hexToHsl_None_iff (hex : string) :
  Palette.hexToHsl hex = None <-> Palette.execHex hex = None.
Proof.
  unfold Palette.hexToHsl. destruct (Palette.execHex hex) as [[[r g] b]|].
  - split; [|discriminate]. destruct (Qeq_bool _ 0); discriminate.
  - tauto.
Qed.

Lemma hexToHsl_bounds (hex : string) (hsl : Palette.HSL) :
  Palette.hexToHsl hex = Some hsl ->
  (0 <= Palette.h hsl < 360)%Q /\
  (0 <= Palette.s hsl <= 1)%Q /\
  (0 <= Palette.l hsl <= 1)%Q /\
  (forall r g b : Z, Palette.execHex hex = Some (r, g, b) ->
                     ((Palette.s hsl == 0)%Q <-> r = g /\ g = b) /\
                     ((Palette.s hsl == 0)%Q -> (Palette.h hsl == 0)%Q)).
Proof.
  unfold Palette.hexToHsl.
  destruct (Palette.execHex hex) as [[[r8 g8] b8]|] eqn:Ehex; [|discriminate].
  destruct (execHex_range hex r8 g8 b8 Ehex) as [Hr8 [Hg8 Hb8]].
  apply channel_unit in Hr8. apply channel_unit in Hg8. apply channel_unit in Hb8.
  pose proof (channel_eq r8 g8) as Erg. pose proof (channel_eq g8 b8) as Egb.
  lazy zeta.
  set (r := (inject_Z r8 / 255)%Q) in *.
  set (g := (inject_Z g8 / 255)%Q) in *.
  set (b := (inject_Z b8 / 255)%Q) in *.
  destruct (max3_spec r g b) as [Mr [Mg [Mb Mone]]].
  destruct (min3_spec r g b) as [mr [mg [mb mone]]].
  set (M := Palette.max3 r g b) in *.
  set (m := Palette.min3 r g b) in *.
  assert (HM : (0 <= M <= 1)%Q) by (destruct Mone as [E|[E|E]]; rewrite E; assumption).
  assert (Hm : (0 <= m <= 1)%Q) by (destruct mone as [E|[E|E]]; rewrite E; assumption).
  assert (Hl : (0 <= (M + m) / 2 <= 1)%Q).
  { split; [apply Qle_shift_div_l | apply Qle_shift_div_r]; lra. }
  destruct (Qeq_bool (M - m) 0) eqn:Ed.
  - apply Qeq_bool_eq in Ed. intro E. injection E as <-. simpl.
    split; [lra|]. split; [lra|]. split; [exact Hl|].
    intros r' g' b' E. injection E as <- <- <-. split; [|reflexivity].
    split; [|reflexivity]. intros _.
    split; [apply Erg | apply Egb]; lra.
  - apply Qeq_bool_neq in Ed.
    assert (Hd : (0 < M - m)%Q).
    { destruct (Qlt_le_dec 0 (M - m)) as [H|H]; [exact H|].
      exfalso. apply Ed. lra. }
    set (d := (M - m)%Q) in *.
    assert (Hs : (0 < (if Palette.Qltb (1 # 2) ((M + m) / 2)
                       then d / (2 - M - m) else d / (M + m)) <= 1)%Q).
    { destruct (Palette.Qltb (1 # 2) ((M + m) / 2)).
      - assert (Hpos : (0 < 2 - M - m)%Q) by (subst d; lra).
        split.
        + apply Qlt_shift_div_l; [exact Hpos | lra].
        + apply Qle_shift_div_r; [exact Hpos | subst d; lra].
      - assert (Hpos : (0 < M + m)%Q) by (subst d; lra).
        split.
        + apply Qlt_shift_div_l; [exact Hpos | lra].
        + apply Qle_shift_div_r; [exact Hpos | subst d; lra]. }
    assert (Hgb : (-1 <= (g - b) / d <= 1)%Q) by (apply ratio_unit; subst d; lra).
    assert (Hbr : (-1 <= (b - r) / d <= 1)%Q) by (apply ratio_unit; subst d; lra).
    assert (Hrg : (-1 <= (r - g) / d <= 1)%Q) by (apply ratio_unit; subst d; lra).
    assert (Hh : (0 <= (if Qeq_bool M r
                        then (g - b) / d + (if Palette.Qltb g b then 6 else 0)
                        else if Qeq_bool M g then (b - r) / d + 2
                        else if Qeq_bool M b then (r - g) / d + 4 else 0) < 6)%Q).
    { destruct (Qeq_bool M r).
      - destruct (Palette.Qltb g b) eqn:Elt.
        + apply Qltb_true_iff in Elt.
          assert ((g - b) / d < 0)%Q by (apply Qlt_shift_div_r; lra).
          lra.
        + apply Qltb_false_iff in Elt.
          assert (0 <= (g - b) / d)%Q by (apply Qle_shift_div_l; lra).
          lra.
      - destruct (Qeq_bool M g); [lra|].
        destruct (Qeq_bool M b); lra. }
    intro E. injection E as <-. simpl.
    split; [lra|]. split; [lra|]. split; [exact Hl|].
    intros r' g' b' E. injection E as <- <- <-.
    split.
    + split.
      * intro Hz. lra.
      * intros [-> ->]. exfalso. apply Ed. subst d.
        destruct Mone as [E1|[E1|E1]], mone as [E2|[E2|E2]]; rewrite E1, E2; subst r g b; lra.
    + intro Hz. lra.
Qed.

(** X6. Whenever [hexToHsl] parses a text, the hue lies in [0, 360), the
    saturation and the lightness lie in [0, 1], and the saturation is zero
    exactly when the three channels are equal, in which case the hue is
    zero as well. *)
Theorem hexToHsl_ranges :
  forall (hex : string) (hsl : Palette.HSL),
    Palette.hexToHsl hex = Some hsl ->
    (0 <= Palette.h hsl < 360)%Q /\
    (0 <= Palette.s hsl <= 1)%Q /\
    (0 <= Palette.l hsl <= 1)%Q /\
    (forall r g b : Z, Palette.execHex hex = Some (r, g, b) ->
                       ((Palette.s hsl == 0)%Q <-> r = g /\ g = b) /\
                       ((Palette.s hsl == 0)%Q -> (Palette.h hsl == 0)%Q)).
Proof.
  exact hexToHsl_bounds.
Qed.

Lemma withHues_in (palette : list Palette.Color) (hues : list (string * Q)) (p : string * Q) :
  Palette.withHues palette = Some hues -> In p hues ->
  exists c hsl, In c palette /\ Palette.hexToHsl (Palette.value c) = Some hsl /\
                p = (Palette.id c, Palette.h hsl).
Proof.
  revert hues. induction palette as [|c palette IH]; intros hues E Hin; simpl in E.
  - injection E as <-. destruct Hin.
  - destruct (Palette.hexToHsl (Palette.value c)) as [hsl|] eqn:Ec; [|discriminate E].
    destruct (Palette.withHues palette) as [tl|]; [|discriminate E].
    injection E as <-. destruct Hin as [<-|Hin].
    + exists c, hsl. split; [left; reflexivity | auto].
    + destruct (IH tl eq_refl Hin) as [c' [hsl' [Hc' H]]].
      exists c', hsl'. split; [right; exact Hc' | exact H].
Qed.

(** X19. Inside the classifier every call of [hueDistance] meets the
    condition under which it is the circular distance: the hue of a parsed
    colour and the hues of the palette all lie in [0, 360), so each distance
    the buckets are ranked by is the smaller of the two arcs between the
    hues, and lies between 0 and 180. *)
Theorem classifier_ranks_buckets_by_circular_hue_distance :
  forall (color : string) (hsl : Palette.HSL),
    Palette.hexToHsl color = Some hsl ->
    exists hues,
      Palette.paletteWithHues = Some hues /\
      Forall (fun p =>
                (0 <= snd p < 360)%Q /\
                (Palette.hueDistance (Palette.h hsl) (snd p) ==
                 Qmin (Qabs (Palette.h hsl - snd p)) (360 - Qabs (Palette.h hsl - snd p)))%Q /\
                (0 <= Palette.hueDistance (Palette.h hsl) (snd p) <= 180)%Q)
             hues.
Proof.
  intros color hsl Ehsl.
  destruct (hexToHsl_bounds color hsl Ehsl) as [Hh _].
  destruct paletteWithHues_defined as [hues [Ep _]].
  exists hues. split; [exact Ep|].
  apply Forall_forall. intros p Hin.
  destruct (withHues_in _ hues p Ep Hin) as [c [hsl' [_ [Ec ->]]]].
  destruct (hexToHsl_bounds _ hsl' Ec) as [Hh' _]. cbn [snd].
  pose proof (hueDistance_circular (Palette.h hsl) (Palette.h hsl') Hh Hh') as Ecirc.
  split; [exact Hh'|]. split; [exact Ecirc|].
  rewrite Ecirc.
  set (d := Qabs (Palette.h hsl - Palette.h hsl')).
  assert (Hd0 : (0 <= d)%Q) by apply Qabs_nonneg.
  assert (Hd1 : (d < 360)%Q).
  { unfold d. apply Qabs_case; intro; lra. }
  destruct (Q.min_spec d (360 - d)) as [[H1 E]|[H1 E]]; rewrite E; lra.
Qed.

(** X19 at work on [#3366cc]. *)
Lemma classifier_circular_distance_example :
  let hsl := {| Palette.h := 558129082500 # 2536950375;
                Palette.s := 2536950375 # 4228250625;
                Palette.l := 65025 # 130050 |} in
  Palette.hexToHsl "#3366cc" = Some hsl /\
  exists hues,
    Palette.paletteWithHues = Some hues /\
    Forall (fun p => (0 <= Palette.hueDistance (Palette.h hsl) (snd p) <= 180)%Q) hues.
Proof.
  intro hsl.
  assert (E : Palette.hexToHsl "#3366cc" = Some hsl) by reflexivity.
  split; [exact E|].
  destruct (classifier_ranks_buckets_by_circular_hue_distance "#3366cc" hsl E)
    as [hues [Ep H]].
  exists hues. split; [exact Ep|].
  revert H. apply Forall_impl. intros p [_ [_ H]]. exact H.
Defined.

(** X6 at work on [#3366cc]. *)
Lemma hexToHsl_ranges_example :
  let hsl := {| Palette.h := 558129082500 # 2536950375;
                Palette.s := 2536950375 # 4228250625;
                Palette.l := 65025 # 130050 |} in
  Palette.hexToHsl "#3366cc" = Some hsl /\
  (0 <= Palette.h hsl < 360)%Q /\ (0 <= Palette.s hsl <= 1)%Q /\ (0 <= Palette.l hsl <= 1)%Q.
Proof.
  intro hsl.
  assert (E : Palette.hexToHsl "#3366cc" = Some hsl) by reflexivity.
  split; [exact E|].
  destruct (hexToHsl_ranges "#3366cc" hsl E) as [Hh [Hs [Hl _]]].
  split; [exact Hh|]. split; [exact Hs | exact Hl].
Defined.

(** *** From the extractor to the classifier *)

Lemma padHex_hexPair (x : byte) :
  exists hi lo, AppService.padHex x = String hi (String lo EmptyString) /\
                Palette.hexPair hi lo = Some (Z.of_N (Byte.to_N x)).
Proof.
  destruct x; eexists; eexists; (split; reflexivity).
Qed.

Lemma execHex_rgbToHex (r g b : byte) :
  Palette.execHex (AppService.rgbToHex r g b) = Some (channelsOf r g b).
Proof.
  unfold AppService.rgbToHex, channelsOf.
  destruct (padHex_hexPair r) as [r1 [r2 [Er Hr]]].
  destruct (padHex_hexPair g) as [g1 [g2 [Eg Hg]]].
  destruct (padHex_hexPair b) as [b1 [b2 [Eb Hb]]].
  cbn [map JS.join]. rewrite Er, Eg, Eb.
  cbn [String.append Palette.execHex]. now rewrite Hr, Hg, Hb.
Qed.

Lemma to_N_injective (x y : byte) : Byte.to_N x = Byte.to_N y -> x = y.
Proof.
  intro E. pose proof (Byte.of_to_N x) as Hx. rewrite E, Byte.of_to_N in Hx. congruence.
Qed.

Lemma channel_le (x y : Z) : (inject_Z x / 255 <= inject_Z y / 255)%Q <-> (x <= y)%Z.
Proof.
  unfold Qle, Qdiv, Qmult, Qinv, inject_Z. cbn. lia.
Qed.

Lemma Qmax_channels (x y : Z) :
  (Qmax (inject_Z x / 255) (inject_Z y / 255) == inject_Z (Z.max x y) / 255)%Q.
Proof.
  destruct (Z.max_spec x y) as [[H E]|[H E]]; rewrite E.
  - apply Q.max_r. apply channel_le. lia.
  - apply Q.max_l. apply channel_le. lia.
Qed.

Lemma Qmin_channels (x y : Z) :
  (Qmin (inject_Z x / 255) (inject_Z y / 255) == inject_Z (Z.min x y) / 255)%Q.
Proof.
  destruct (Z.min_spec x y) as [[H E]|[H E]]; rewrite E.
  - apply Q.min_l. apply channel_le. lia.
  - apply Q.min_r. apply channel_le. lia.
Qed.

Lemma max3_channels (r g b : Z) :
  (Palette.max3 (inject_Z r / 255) (inject_Z g / 255) (inject_Z b / 255) ==
   inject_Z (maxChannel r g b) / 255)%Q.
Proof.
  unfold Palette.max3, maxChannel. rewrite Qmax_channels. apply Qmax_channels.
Qed.

Lemma min3_channels (r g b : Z) :
  (Palette.min3 (inject_Z r / 255) (inject_Z g / 255) (inject_Z b / 255) ==
   inject_Z (minChannel r g b) / 255)%Q.
Proof.
  unfold Palette.min3, minChannel. rewrite Qmin_channels. apply Qmin_channels.
Qed.

Lemma inject_Z_sub (a b : Z) : (inject_Z (a - b) == inject_Z a - inject_Z b)%Q.
Proof.
  unfold Z.sub. rewrite inject_Z_plus, inject_Z_opp. reflexivity.
Qed.

Lemma hexToHsl_of_channels (color : string) (r g b : Z) :
  Palette.execHex color = Some (r, g, b) ->
  exists hsl,
    Palette.hexToHsl color = Some hsl /\
    (Palette.s hsl == saturationOf r g b)%Q /\
    (Palette.l hsl == lightnessOf r g b)%Q.
Proof.
  intro E. destruct (execHex_range color r g b E) as [Hr [Hg Hb]].
  unfold Palette.hexToHsl. rewrite E. lazy zeta.
  pose proof (max3_channels r g b) as EM. pose proof (min3_channels r g b) as Em.
  assert (HM : (0 <= maxChannel r g b <= 255)%Z) by (unfold maxChannel; lia).
  assert (Hm : (0 <= minChannel r g b <= 255)%Z) by (unfold minChannel; lia).
  assert (HmM : (minChannel r g b <= maxChannel r g b)%Z) by (unfold minChannel, maxChannel; lia).
  unfold saturationOf, lightnessOf. lazy zeta.
  set (Mq := Palette.max3 _ _ _) in *. set (mq := Palette.min3 _ _ _) in *.
  set (M := maxChannel r g b) in *. set (m := minChannel r g b) in *.
  assert (El : ((Mq + mq) / 2 == (M + m) # 510)%Q).
  { rewrite EM, Em. unfold Qeq, Qdiv, Qmult, Qplus, Qinv, inject_Z. cbn. lia. }
  clearbody Mq mq M m.
  destruct (Qeq_bool (Mq - mq) 0) eqn:Ed.
  - apply Qeq_bool_eq in Ed. eexists. split; [reflexivity|]. cbn [Palette.s Palette.l].
    split; [|exact El].
    assert (EMm : M = m).
    { apply channel_eq. rewrite <- EM, <- Em. clear - Ed. lra. }
    rewrite EMm, Z.eqb_refl. reflexivity.
  - apply Qeq_bool_neq in Ed. eexists. split; [reflexivity|]. cbn [Palette.s Palette.l].
    split; [|exact El].
    assert (Hne : M <> m).
    { intro EMm. apply Ed. rewrite EM, Em, EMm. clear. lra. }
    apply Z.eqb_neq in Hne. rewrite Hne. apply Z.eqb_neq in Hne.
    destruct (Palette.Qltb (1 # 2) ((Mq + mq) / 2)) eqn:Ehalf.
    + apply Qltb_true_iff in Ehalf. rewrite El in Ehalf.
      assert (Hlt : (255 < M + m)%Z).
      { unfold Qlt in Ehalf. cbn in Ehalf. lia. }
      apply Z.ltb_lt in Hlt. rewrite Hlt. apply Z.ltb_lt in Hlt.
      rewrite EM, Em.
      assert (Hnz : ~ (inject_Z (510 - M - m) == 0)%Q).
      { unfold Qeq, inject_Z. cbn [Qnum Qden]. lia. }
      rewrite !inject_Z_sub in *. change (inject_Z 510) with 510%Q in *. field. lra.
    + apply Qltb_false_iff in Ehalf. rewrite El in Ehalf.
      assert (Hge : (M + m <= 255)%Z).
      { unfold Qle in Ehalf. cbn in Ehalf. lia. }
      assert (Hlt : (255 <? M + m)%Z = false) by (apply Z.ltb_ge; exact Hge).
      rewrite Hlt. rewrite EM, Em.
      assert (Hnz : ~ (inject_Z (M + m) == 0)%Q).
      { unfold Qeq, inject_Z. cbn [Qnum Qden]. lia. }
      rewrite inject_Z_plus in *. rewrite inject_Z_sub. field. lra.
Qed.

Lemma padHex_twoHexDigits (x : byte) : AppService.padHex x = twoHexDigits x.
Proof. destruct x; reflexivity. Qed.

Lemma rgbToHex_colorText (r g b : byte) : AppService.rgbToHex r g b = colorText (r, g, b).
Proof.
  unfold AppService.rgbToHex, colorText. cbn [map JS.join].
  rewrite !padHex_twoHexDigits. reflexivity.
Qed.

Lemma rgbToHex_injective (r g b r' g' b' : byte) :
  AppService.rgbToHex r g b = AppService.rgbToHex r' g' b' -> r = r' /\ g = g' /\ b = b'.
Proof.
  intro E.
  pose proof (execHex_rgbToHex r g b) as H1. rewrite E, execHex_rgbToHex in H1.
  unfold channelsOf in H1. injection H1 as Hr Hg Hb.
  apply N2Z.inj in Hr. apply N2Z.inj in Hg. apply N2Z.inj in Hb.
  repeat split; apply to_N_injective; congruence.
Qed.

Lemma sameChannels_true_iff (x y : byte * byte * byte) : sameChannels x y = true <-> x = y.
Proof.
  destruct x as [[r g] b], y as [[r' g'] b']. unfold sameChannels.
  rewrite !andb_true_iff, !N.eqb_eq. split.
  - intros [[Hr Hg] Hb]. apply to_N_injective in Hr, Hg, Hb. now subst.
  - intro E. injection E as -> -> ->. auto.
Qed.

Lemma frequency_occurrences (pixels : list Pixel) (q : Pixel) :
  frequency pixels (pixelColor q) = occurrences pixels (rgbOf q).
Proof.
  unfold frequency, occurrences.
  induction pixels as [|p pixels IH]; [reflexivity|].
  cbn [map count_occ filter].
  destruct (sameChannels (rgbOf p) (rgbOf q)) eqn:Esame.
  - apply sameChannels_true_iff in Esame.
    assert (Ecol : pixelColor p = pixelColor q).
    { destruct p as [[[r g] b] a], q as [[[r' g'] b'] a']. cbn in Esame.
      injection Esame as -> -> ->. reflexivity. }
    destruct (string_dec (pixelColor p) (pixelColor q)) as [_|ne]; [|contradiction].
    cbn [List.length]. now rewrite IH.
  - destruct (string_dec (pixelColor p) (pixelColor q)) as [Ecol|_]; [|exact IH].
    exfalso. destruct p as [[[r g] b] a], q as [[[r' g'] b'] a'].
    cbn [pixelColor] in Ecol. apply rgbToHex_injective in Ecol.
    destruct Ecol as [-> [-> ->]].
    assert (H : sameChannels (r', g', b') (r', g', b') = true)
      by (now apply sameChannels_true_iff).
    cbn [rgbOf] in Esame. congruence.
Qed.

Lemma occurrences_absent (pixels : list Pixel) (rgb : byte * byte * byte) :
  ~ In rgb (map rgbOf pixels) -> occurrences pixels rgb = 0.
Proof.
  unfold occurrences. induction pixels as [|p pixels IH]; intro H; [reflexivity|].
  cbn [filter]. destruct (sameChannels (rgbOf p) rgb) eqn:E.
  - apply sameChannels_true_iff in E. exfalso. apply H. left. exact E.
  - apply IH. intro Hin. apply H. right. exact Hin.
Qed.

(** C4. For a raster of whole pixels the extractor returns a colour text,
    [#] and six hexadecimal digits. Without pixels it is the fallback
    [#666666]. Otherwise it is the text of the channels of some pixel of the
    raster: no three channels occur in more pixels than those of that pixel,
    and the channels of every pixel in front of it occur in strictly fewer,
    so that among the most frequent colours the one seen first wins. The
    alpha bytes do not matter. *)
Theorem getDominantColor_most_frequent_first_seen :
  forall pixels : list Pixel,
    (pixels = [] -> AppService.getDominantColor (imageData pixels) = Some "#666666") /\
    (pixels <> [] ->
     exists before p after,
       pixels = before ++ p :: after /\
       AppService.getDominantColor (imageData pixels) = Some (colorText (rgbOf p)) /\
       (forall q, In q before ->
                  occurrences pixels (rgbOf q) < occurrences pixels (rgbOf p)) /\
       (forall rgb, occurrences pixels rgb <= occurrences pixels (rgbOf p))) /\
    (exists color,
        AppService.getDominantColor (imageData pixels) = Some color /\
        isHexColor color = true) /\
    (forall pixels' : list Pixel,
        map rgbOf pixels' = map rgbOf pixels ->
        AppService.getDominantColor (imageData pixels') =
        AppService.getDominantColor (imageData pixels)).
Proof.
  intro pixels.
  destruct (getDominantColor_first_maximum pixels)
    as [color [E [Hhex [Hnil [Hne Halpha]]]]].
  split; [|split; [|split]].
  - intro Hp. rewrite E, (Hnil Hp). reflexivity.
  - intro Hp. destruct (Hne Hp) as [before [p [after [Epix [Ep [_ [Hless Hmax]]]]]]].
    exists before, p, after. split; [exact Epix|]. split; [|split].
    + rewrite E, <- Ep. destruct p as [[[r g] b] a]. cbn [pixelColor rgbOf].
      now rewrite rgbToHex_colorText.
    + intros q Hq. rewrite <- !frequency_occurrences, Ep. now apply Hless.
    + intro rgb.
      destruct (existsb (fun q => sameChannels (rgbOf q) rgb) pixels) eqn:Ein.
      * apply existsb_exists in Ein. destruct Ein as [q [_ Eq]].
        apply sameChannels_true_iff in Eq. subst rgb.
        rewrite <- !frequency_occurrences, Ep. apply Hmax.
      * rewrite occurrences_absent; [lia|].
        intro Hin. apply in_map_iff in Hin. destruct Hin as [q [Eq Hq]].
        assert (Htrue : existsb (fun q => sameChannels (rgbOf q) rgb) pixels = true).
        { apply existsb_exists. exists q. split; [exact Hq|].
          now apply sameChannels_true_iff. }
        congruence.
  - exists color. auto.
  - intros pixels' H. rewrite E. now apply Halpha.
Qed.

(** C4 at work: of a red pixel followed by two blue ones, the second half
    transparent, the colour is the blue. *)
Lemma getDominantColor_blue_twice :
  AppService.getDominantColor
    (imageData [Examples.redPixel; Examples.bluePixel; Examples.paleBluePixel]) =
  Some "#0000ff".
Proof.
  assert (Hne : [Examples.redPixel; Examples.bluePixel; Examples.paleBluePixel] <> [])
    by discriminate.
  destruct (proj1 (proj2 (getDominantColor_most_frequent_first_seen
                            [Examples.redPixel; Examples.bluePixel; Examples.paleBluePixel]))
              Hne) as [before [p [after [Epix [Eres [_ Hmax]]]]]].
  rewrite Eres.
  assert (Hin : In p [Examples.redPixel; Examples.bluePixel; Examples.paleBluePixel]).
  { rewrite Epix. apply in_elt. }
  destruct Hin as [<-|[<-|[<-|[]]]]; try reflexivity.
  specialize (Hmax (rgbOf Examples.bluePixel)). vm_compute in Hmax. lia.
Defined.

(** C3. The classifier returns a bucket for every text, never raising; the
    bucket is an id of the palette other than [all]; a text that is not a
    hexadecimal colour gives [black]; a colour whose saturation is below
    0.12 gives [white] when its lightness exceeds 0.8 and [black] otherwise,
    never a hue bucket; and a colour whose saturation exceeds 0.12 gives one
    of the seven hue buckets. Saturation and lightness are those of the
    channels the text is read as, and every colour text of three channels is
    read as those channels. *)
Theorem getClosestColorId_total_with_neutral_gate :
  forall color : string,
    exists bucket : string,
      Palette.getClosestColorId color = Some bucket /\
      In bucket (map Palette.id Palette.COLORS) /\
      bucket <> "all" /\
      (Palette.execHex color = None -> bucket = "black") /\
      (forall r g b,
          Palette.execHex color = Some (r, g, b) ->
          (saturationOf r g b < 12 # 100)%Q ->
          ((8 # 10 < lightnessOf r g b)%Q -> bucket = "white") /\
          ((lightnessOf r g b <= 8 # 10)%Q -> bucket = "black") /\
          ~ In bucket hueBuckets) /\
      (forall r g b,
          Palette.execHex color = Some (r, g, b) ->
          (12 # 100 < saturationOf r g b)%Q ->
          In bucket hueBuckets) /\
      (forall r g b : byte,
          color = colorText (r, g, b) ->
          Palette.execHex color = Some (channelsOf r g b)).
Proof.
  intro color.
  destruct (getClosestColorId_gate color)
    as [bucket [E [Hin [Hall [Hnone [Hneutral Hhue]]]]]].
  exists bucket. split; [exact E|]. split; [exact Hin|]. split; [exact Hall|].
  split; [|split; [|split]].
  - intro Hex. apply Hnone. now apply hexToHsl_None_iff.
  - intros r g b Hex Hs.
    destruct (hexToHsl_of_channels color r g b Hex) as [hsl [Ehsl [Es El]]].
    rewrite <- Es in Hs. rewrite <- El. now apply Hneutral.
  - intros r g b Hex Hs.
    destruct (hexToHsl_of_channels color r g b Hex) as [hsl [Ehsl [Es El]]].
    rewrite <- Es in Hs. apply (Hhue hsl Ehsl). now apply Qlt_le_weak.
  - intros r g b ->. rewrite <- rgbToHex_colorText. apply execHex_rgbToHex.
Qed.

(** C3 at work: an almost white grey, a dark grey, a dark blue of
    saturation 0.12 exactly, a text that is no colour, and an orange red. *)
Lemma getClosestColorId_neutral_examples :
  Palette.getClosestColorId "#fefefe" = Some "white" /\
  Palette.getClosestColorId "#1a1a1a" = Some "black" /\
  Palette.getClosestColorId "#21212a" <> Some "white" /\
  Palette.getClosestColorId "not a colour" = Some "black" /\
  exists bucket, Palette.getClosestColorId "#ff4500" = Some bucket /\ In bucket hueBuckets.
Proof.
  split; [|split; [|split; [|split]]].
  - destruct (getClosestColorId_total_with_neutral_gate "#fefefe")
      as [bucket [E [_ [_ [_ [Hneutral _]]]]]].
    rewrite E. f_equal.
    apply (Hneutral 254 254 254)%Z; reflexivity.
  - destruct (getClosestColorId_total_with_neutral_gate "#1a1a1a")
      as [bucket [E [_ [_ [_ [Hneutral _]]]]]].
    rewrite E. f_equal.
    apply (Hneutral 26 26 26)%Z; [reflexivity | reflexivity | discriminate].
  - vm_compute. discriminate.
  - destruct (getClosestColorId_total_with_neutral_gate "not a colour")
      as [bucket [E [_ [_ [Hnone _]]]]].
    rewrite E. f_equal. apply Hnone. reflexivity.
  - destruct (getClosestColorId_total_with_neutral_gate "#ff4500")
      as [bucket [E [_ [_ [_ [_ [Hhue _]]]]]]].
    exists bucket. split; [exact E|].
    apply (Hhue 255 69 0)%Z; reflexivity.
Defined.

Lemma mostCommon_in (entries : AppService.ColorCounts) (maxCount : nat) (dominantColor : string) :
  AppService.mostCommon entries maxCount dominantColor = dominantColor \/
  In (AppService.mostCommon entries maxCount dominantColor) (map fst entries).
Proof.
  revert maxCount dominantColor.
  induction entries as [|[color count] rest IH]; intros maxCount dominantColor; simpl.
  - left. reflexivity.
  - destruct (maxCount <? count)%nat.
    + destruct (IH count color) as [E|H]; [rewrite E; right; left; reflexivity | right; right; exact H].
    + destruct (IH maxCount dominantColor) as [E|H]; [left; exact E | right; right; exact H].
Qed.

(** X7. The colour text the extractor writes for a pixel is read back by
    the parser of the classifier as the three channels of that pixel, so two
    pixels get the same text only if their channels agree; and whatever the
    extractor returns for a raster, [hexToHsl] parses it: the classifier's
    answer [black] for a text that is no colour is never reached from an
    extracted colour. *)
Theorem extracted_colours_parse_back_to_their_channels :
  (forall r g b : byte,
      Palette.execHex (AppService.rgbToHex r g b) = Some (channelsOf r g b)) /\
  (forall r g b r' g' b' : byte,
      AppService.rgbToHex r g b = AppService.rgbToHex r' g' b' ->
      r = r' /\ g = g' /\ b = b') /\
  (forall pixels : list Pixel,
      exists color hsl,
        AppService.getDominantColor (imageData pixels) = Some color /\
        Palette.hexToHsl color = Some hsl).
Proof.
  split; [exact execHex_rgbToHex|]. split.
  - intros r g b r' g' b' E.
    pose proof (execHex_rgbToHex r g b) as H1. rewrite E, execHex_rgbToHex in H1.
    unfold channelsOf in H1. injection H1 as Hr Hg Hb.
    apply N2Z.inj in Hr. apply N2Z.inj in Hg. apply N2Z.inj in Hb.
    repeat split; apply to_N_injective; congruence.
  - intro pixels. unfold AppService.getDominantColor. rewrite samplePixels_imageData.
    set (table := fold_left AppService.increment (map pixelColor pixels) []).
    exists (AppService.mostCommon table 0 "#666666").
    assert (Hparse : Palette.execHex (AppService.mostCommon table 0 "#666666") <> None).
    { destruct (mostCommon_in table 0 "#666666") as [E|Hin].
      - rewrite E. discriminate.
      - apply keys_fold_increment_in in Hin. destruct Hin as [[]|Hin].
        apply in_map_iff in Hin. destruct Hin as [[[[r g] b] a] [<- _]].
        unfold pixelColor. rewrite execHex_rgbToHex. discriminate. }
    destruct (Palette.hexToHsl (AppService.mostCommon table 0 "#666666")) as [hsl|] eqn:E.
    + exists hsl. split; reflexivity.
    + apply hexToHsl_None_iff in E. contradiction.
Qed.

(** *** The colour filter *)

Lemma getClosestColorId_bucket (color : string) :
  exists bucket, Palette.getClosestColorId color = Some bucket /\ In bucket bucketIds.
Proof.
  destruct (Palette.hexToHsl color) as [hsl|] eqn:Ehsl.
  - destruct (Palette.Qltb (Palette.s hsl) (12 # 100)) eqn:Es.
    + unfold Palette.getClosestColorId. rewrite Ehsl, Es.
      destruct (Palette.Qltb (8 # 10) (Palette.l hsl)); eexists; (split; [reflexivity|]);
        unfold bucketIds, hueBuckets; simpl; tauto.
    + apply Qltb_false_iff in Es.
      destruct (getClosestColorId_hue_path color hsl Ehsl Es)
        as [hues [before [bucket [hue [after [Ep [E [Eid _]]]]]]]].
      exists bucket. split; [exact Eid|].
      destruct paletteWithHues_defined as [hues' [Ep' Hids]].
      assert (hues' = hues) by congruence. subst hues'.
      unfold bucketIds. apply in_or_app. left. rewrite <- Hids, E, map_app.
      apply in_or_app. right. left. reflexivity.
  - exists "black". unfold Palette.getClosestColorId. rewrite Ehsl.
    split; [reflexivity|]. unfold bucketIds, hueBuckets. simpl. tauto.
Qed.

Lemma showsUnder_shownUnder (selectedColor : string) (app : AppService.AppWithDetails) :
  App.showsUnder selectedColor app = Some (shownUnder selectedColor app).
Proof.
  unfold App.showsUnder, shownUnder, bucketOf.
  destruct (selectedColor =? "all"); [reflexivity|].
  destruct (getClosestColorId_bucket (App.colorOrFallback app)) as [bucket [-> _]].
  reflexivity.
Qed.

Lemma filterOrRaise_total {A : Type} (p : A -> option bool) (q : A -> bool) (l : list A) :
  (forall x, p x = Some (q x)) -> Arrays.filterOrRaise p l = Some (filter q l).
Proof.
  intro H. induction l as [|x l IH]; simpl; [reflexivity|].
  rewrite H, IH. reflexivity.
Qed.

Lemma filteredApps_filter (localeCompare : string -> string -> Z) (selectedColor : string)
    (apps : list AppService.AppWithDetails) :
  App.filteredApps localeCompare selectedColor apps =
  Some (Arrays.sort (Gallery.compareTrackNames localeCompare)
                    (filter (shownUnder selectedColor) apps)).
Proof.
  unfold App.filteredApps.
  rewrite (filterOrRaise_total _ (shownUnder selectedColor)); [reflexivity|].
  intro app. apply showsUnder_shownUnder.
Qed.



(** X9. For a [localeCompare] that is a total preorder and a gallery that
    is in order of track name already, as the lists given to [setApps] are,
    the sort of the colour filter changes nothing: the entries shown are the
    entries of the bucket in the order of the gallery, and under [all] the
    gallery itself. *)
Theorem filteredApps_keeps_the_order_of_a_sorted_gallery :
  forall (localeCompare : string -> string -> Z),
    totalPreorder localeCompare ->
    forall (selectedColor : string) (apps : list AppService.AppWithDetails),
      StronglySorted (trackNameOrder localeCompare) apps ->
      App.filteredApps localeCompare selectedColor apps =
        Some (filter (shownUnder selectedColor) apps) /\
      (selectedColor = "all" -> App.filteredApps localeCompare selectedColor apps = Some apps).
Proof.
  intros localeCompare Hpre selectedColor apps Hsorted.
  assert (Heq : App.filteredApps localeCompare selectedColor apps =
                Some (filter (shownUnder selectedColor) apps)).
  { rewrite filteredApps_filter. f_equal.
    rewrite <- filter_sort;
      [| now apply compareTrackNames_total | now apply compareTrackNames_trans].
    f_equal.
    apply sort_of_sorted. revert Hsorted. apply StronglySorted_weaken.
    intros x y H. unfold trackNameOrder in H. unfold Gallery.compareTrackNames.
    now apply Z.leb_le. }
  split; [exact Heq|].
  intros ->. rewrite Heq. f_equal. apply filter_all. reflexivity.
Qed.

(** X9 at work on a gallery of two entries without colour, which both
    fall back to [#666666] and so to [black]. *)
Lemma filteredApps_sorted_gallery_example :
  totalPreorder lengthCompare /\
  StronglySorted (trackNameOrder lengthCompare) twoEntries /\
  App.filteredApps lengthCompare "black" twoEntries = Some twoEntries.
Proof.
  assert (Hsorted : StronglySorted (trackNameOrder lengthCompare) twoEntries).
  { unfold twoEntries. repeat constructor. unfold trackNameOrder. vm_compute. discriminate. }
  split; [exact lengthCompare_totalPreorder|]. split; [exact Hsorted|].
  rewrite (proj1 (filteredApps_keeps_the_order_of_a_sorted_gallery lengthCompare
                    lengthCompare_totalPreorder "black" twoEntries Hsorted)).
  reflexivity.
Defined.

(** *** Loading the gallery *)

Lemma PromiseAll_map_resolved {A B : Type} (f : A -> B) (l : list A) :
  AppService.PromiseAll (map (fun x => AppService.Resolved (f x)) l) =
  AppService.Resolved (map f l).
Proof.
  induction l as [|x l IH]; simpl; [reflexivity|]. now rewrite IH.
Qed.

Lemma appsWithColors_resolved (getDominantColor : string -> AppService.Settled string)
    (allApps : list AppService.AppWithDetails) :
  App.appsWithColors getDominantColor allApps =
  AppService.Resolved
    (map (fun app => App.setDominantColor app (colorFor getDominantColor app)) allApps).
Proof.
  unfold App.appsWithColors. rewrite <- PromiseAll_map_resolved. f_equal.
  apply map_ext. intro app. unfold App.withDominantColor, colorFor.
  destruct (getDominantColor (AppService.artworkUrl100 app)); reflexivity.
Qed.

Lemma getAppDetails_nil (production : bool)
    (fetchJson : string -> AppService.Settled AppService.LookupResponse) :
  AppService.getAppDetails production fetchJson [] = AppService.Resolved [].
Proof.
  unfold AppService.getAppDetails, AppService.lookupRequests, AppService.batches.
  rewrite AppService.batchesFrom_equation_1. reflexivity.
Qed.

Lemma allApps_nil (localeCompare : string -> string -> Z) (appsFromDb : list AppService.AppData) :
  Gallery.allApps localeCompare appsFromDb [] = [].
Proof. reflexivity. Qed.

Lemma length_zero_iff_nil' {A : Type} (l : list A) : (List.length l =? 0)%nat = true <-> l = [].
Proof.
  destruct l; simpl; split; intro H; try reflexivity; discriminate H.
Qed.

Lemma inCategories_single (selectedCategory : string) (a : AppService.LoadedApp) :
  AppService.inCategories [selectedCategory] a =
  match AppService.categoryValue a with
  | Some (JS.VStr cat) => negb (cat =? "") && (cat =? selectedCategory)
  | _ => false
  end.
Proof.
  unfold AppService.inCategories.
  destruct (AppService.categoryValue a) as [[n|cat|b]|]; cbn [AppService.includesValue].
  - apply andb_false_r.
  - cbn [JS.truthy JS.arrayIncludes existsb]. now rewrite orb_false_r.
  - apply andb_false_r.
  - reflexivity.
Qed.

(** X10. What a load of a category leaves in the state, once the catalog
    has been fetched and the names of its loaded records are all strings, so
    that the listing returns. The count is the number of catalog records of
    the category, whatever the store answers. When the store lookups resolve,
    the gallery is the joined and sorted store records, each with the colour
    of its artwork or, when the extraction of that one colour fails, with
    [#666666], which the filter shows under [black]: a failing extraction
    never fails the load, so the gallery has one entry per store record. The
    early return for an empty category gives the same gallery as the general
    path. When a lookup rejects, the gallery keeps its former entries beside
    the new count. Loading is over in every case; when the fetch of the
    catalog rejects, nothing else changes. *)
Theorem loadAppsByCategory_counts_the_catalog_and_survives_colour_failures :
  forall (localeCompare : string -> string -> Z) (production : bool)
         (fetchJson : string -> AppService.Settled AppService.LookupResponse)
         (getDominantColor : string -> AppService.Settled string)
         (payload : AppService.GvizResponse) (selectedCategory : string)
         (st : App.GalleryState),
    (forall a, In a (AppService.loadedApps payload) -> hasStringName a = true) ->
    let load := App.loadAppsByCategory localeCompare production fetchJson getDominantColor in
    let st' := load (AppService.Resolved payload) selectedCategory st in
    exists listed,
      AppService.getAppsByCategory localeCompare payload [selectedCategory] = Some listed /\
      let appsFromDb := map AppService.typed listed in
      let lookups :=
        AppService.getAppDetails production fetchJson
                                 (map AppService.app_store_id appsFromDb) in
      App.totalAppCount st' = List.length listed /\
      List.length listed =
        List.length (filter (inCategory selectedCategory) (AppService.loadedApps payload)) /\
      App.isLoading st' = false /\
      (forall appDetails,
          lookups = AppService.Resolved appDetails ->
          App.apps st' =
            map (fun app => App.setDominantColor app (colorFor getDominantColor app))
                (Gallery.allApps localeCompare appsFromDb appDetails) /\
          List.length (App.apps st') = List.length appDetails /\
          forall app selectedColor,
            In app (App.apps st') ->
            getDominantColor (AppService.artworkUrl100 app) = AppService.Rejected ->
            App.showsUnder selectedColor app =
              Some ((selectedColor =? "all") || (selectedColor =? "black"))) /\
      (lookups = AppService.Rejected -> App.apps st' = App.apps st) /\
      load AppService.Rejected selectedCategory st =
        {| App.apps := App.apps st;
           App.totalAppCount := App.totalAppCount st;
           App.isLoading := false |}.
Proof.
  intros localeCompare production fetchJson getDominantColor payload selectedCategory st
         Hnames load st'.
  pose proof (getAppsByCategory_returns localeCompare payload [selectedCategory] Hnames)
    as Elisted.
  set (listed := Arrays.sort (nameLeq localeCompare)
                   (if JS.arrayIncludes [selectedCategory] "all"
                    then AppService.loadedApps payload
                    else filter (AppService.inCategories [selectedCategory])
                                (AppService.loadedApps payload))) in *.
  exists listed. split; [exact Elisted|].
  intros appsFromDb lookups.
  assert (Hlen : List.length appsFromDb = List.length listed) by apply length_map.
  assert (Hcount : List.length listed =
                   List.length (filter (inCategory selectedCategory)
                                       (AppService.loadedApps payload))).
  { subst listed. rewrite <- (Permutation_length (sort_permutation _ _)).
    cbn [JS.arrayIncludes existsb]. rewrite orb_false_r, String.eqb_sym.
    destruct (selectedCategory =? "all") eqn:Eall.
    - rewrite filter_all; [reflexivity|]. intros x _. unfold inCategory. now rewrite Eall.
    - f_equal. apply filter_ext. intro a. unfold inCategory. rewrite Eall.
      apply inCategories_single. }
  assert (Hst' : st' =
            if (List.length appsFromDb =? 0)%nat then
              {| App.apps := []; App.totalAppCount := List.length appsFromDb;
                 App.isLoading := false |}
            else
              match lookups with
              | AppService.Resolved appDetails =>
                  {| App.apps :=
                       map (fun app => App.setDominantColor app (colorFor getDominantColor app))
                           (Gallery.allApps localeCompare appsFromDb appDetails);
                     App.totalAppCount := List.length appsFromDb;
                     App.isLoading := false |}
              | AppService.Rejected =>
                  {| App.apps := App.apps st; App.totalAppCount := List.length appsFromDb;
                     App.isLoading := false |}
              end).
  { subst st' load. unfold App.loadAppsByCategory, App.appsOfCategory.
    rewrite Elisted. fold appsFromDb.
    destruct (List.length appsFromDb =? 0)%nat; [reflexivity|].
    unfold App.detailsWithColors. fold lookups.
    destruct lookups as [appDetails|]; [|reflexivity].
    now rewrite appsWithColors_resolved. }
  split; [|split; [exact Hcount|split; [|split; [|split]]]].
  - rewrite Hst', <- Hlen.
    destruct (List.length appsFromDb =? 0)%nat; [reflexivity|].
    destruct lookups; reflexivity.
  - rewrite Hst'. destruct (List.length appsFromDb =? 0)%nat; [reflexivity|].
    destruct lookups; reflexivity.
  - intros appDetails Elook.
    assert (Happs : App.apps st' =
              map (fun app => App.setDominantColor app (colorFor getDominantColor app))
                  (Gallery.allApps localeCompare appsFromDb appDetails)).
    { rewrite Hst'. destruct (List.length appsFromDb =? 0)%nat eqn:Elen.
      - apply length_zero_iff_nil' in Elen. subst lookups. rewrite Elen in Elook.
        cbn [map] in Elook. rewrite getAppDetails_nil in Elook. injection Elook as <-.
        reflexivity.
      - rewrite Elook. reflexivity. }
    split; [exact Happs|]. split.
    + rewrite Happs, length_map. unfold Gallery.allApps.
      rewrite <- (Permutation_length (sort_permutation _ _)). now rewrite length_map.
    + intros app selectedColor Hin Hrej. rewrite Happs in Hin.
      apply in_map_iff in Hin. destruct Hin as [app0 [<- _]].
      cbn [App.setDominantColor AppService.artworkUrl100] in Hrej.
      unfold colorFor. rewrite Hrej. unfold App.showsUnder.
      destruct (selectedColor =? "all"); [reflexivity|].
      cbn [orb]. change (App.colorOrFallback (App.setDominantColor app0 "#666666"))
        with "#666666".
      assert (E : Palette.getClosestColorId "#666666" = Some "black") by (vm_compute; reflexivity).
      rewrite E. now rewrite String.eqb_sym.
  - intro Erej. rewrite Hst'. destruct (List.length appsFromDb =? 0)%nat eqn:Elen.
    + apply length_zero_iff_nil' in Elen. subst lookups. rewrite Elen in Erej.
      cbn [map] in Erej. rewrite getAppDetails_nil in Erej. discriminate Erej.
    + rewrite Erej. reflexivity.
  - reflexivity.
Qed.

(** X10 at work: the tab [app] of the example sheet counts two records; the
    store returns one of them, and the extraction of its colour fails. *)
Lemma loadAppsByCategory_app_tab_example :
  let fetchJson := fun _ : string =>
    AppService.Resolved
      {| AppService.results := Some [Examples.storeRecord 111 "Zeta - The App"] |} in
  let getDominantColor := fun _ : string => @AppService.Rejected string in
  let st := {| App.apps := []; App.totalAppCount := 0; App.isLoading := true |} in
  let st' := App.loadAppsByCategory Gallery.byteCompare true fetchJson getDominantColor
               (AppService.Resolved Examples.sheet) "app" st in
  (forall a, In a (AppService.loadedApps Examples.sheet) -> hasStringName a = true) /\
  App.totalAppCount st' = 2 /\
  App.isLoading st' = false /\
  map (fun app => (AppService.trackName app, AppService.dominantColor app)) (App.apps st') =
    [("Zeta", Some "#666666")].
Proof.
  intros fetchJson getDominantColor st st'.
  assert (Hall : forall a, In a (AppService.loadedApps Examples.sheet) ->
                           hasStringName a = true).
  { intros a Ha. vm_compute in Ha.
    repeat (destruct Ha as [<-|Ha]; [reflexivity|]). destruct Ha. }
  split; [exact Hall|].
  destruct (loadAppsByCategory_counts_the_catalog_and_survives_colour_failures
              Gallery.byteCompare true fetchJson getDominantColor Examples.sheet "app" st Hall)
    as [listed [Elisted [Hcount [_ [Hloading [Hresolved _]]]]]].
  vm_compute in Elisted. injection Elisted as <-.
  split; [exact Hcount|]. split; [exact Hloading|]. subst st'.
  rewrite (proj1 (Hresolved [Examples.storeRecord 111 "Zeta - The App"] eq_refl)).
  vm_compute. reflexivity.
Defined.

(** *** The selection *)

Lemma toggleSelect_spec (appId : string) (prev : list string) :
  NoDup prev ->
  NoDup (App.toggleSelect appId prev) /\
  forall x, In x (App.toggleSelect appId prev) <->
            (x = appId /\ ~ In appId prev) \/ (x <> appId /\ In x prev).
Proof.
  intro Hnd. unfold App.toggleSelect.
  destruct (JS.arrayIncludes prev appId) eqn:E.
  - apply arrayIncludes_true_iff in E. split.
    + now apply NoDup_filter.
    + intro x. rewrite filter_In, negb_true_iff, String.eqb_neq. tauto.
  - assert (Hnot : ~ In appId prev).
    { intro H. apply arrayIncludes_true_iff in H. congruence. }
    split.
    + apply NoDup_app; [exact Hnd | constructor; [intros [] | constructor] |].
      intros x Hx [<-|[]]. contradiction.
    + intro x. rewrite in_app_iff. simpl.
      destruct (string_dec x appId) as [->|Hne]; [tauto|].
      split; [intros [H|[H|[]]]; [tauto | congruence] | tauto].
Qed.

Lemma selectionAfter_spec (clicks : list string) (prev : list string) :
  NoDup prev ->
  NoDup (selectionAfter clicks prev) /\
  forall x, In x (selectionAfter clicks prev) <->
            (if Nat.odd (count_occ string_dec clicks x) then ~ In x prev else In x prev).
Proof.
  revert prev. induction clicks as [|c clicks IH]; intros prev Hnd.
  - simpl. split; [exact Hnd | tauto].
  - destruct (toggleSelect_spec c prev Hnd) as [Hnd' Hmem].
    destruct (IH (App.toggleSelect c prev) Hnd') as [Hnd'' Hmem'].
    split; [exact Hnd''|].
    intro x. change (selectionAfter (c :: clicks) prev)
      with (selectionAfter clicks (App.toggleSelect c prev)).
    rewrite Hmem'. cbn [count_occ].
    destruct (string_dec c x) as [->|Hne].
    + rewrite Nat.odd_succ, <- Nat.negb_odd.
      destruct (Nat.odd (count_occ string_dec clicks x)); cbn [negb]; rewrite Hmem.
      * destruct (in_dec string_dec x prev); tauto.
      * tauto.
    + destruct (Nat.odd (count_occ string_dec clicks x)); rewrite Hmem.
      * split; [intros H H'; apply H; right; split; [congruence | exact H'] | ].
        intros H [[E _]|[_ H']]; [congruence | contradiction].
      * split; [intros [[E _]|[_ H']]; [congruence | exact H'] | ].
        intro H. right. split; [congruence | exact H].
Qed.

(** X11. Starting from the empty selection, after any series of clicks the
    selection holds no id twice, and it holds an id exactly when that id has
    been clicked an odd number of times. A click on an id that is not
    selected puts it last; a click on a selected id takes it out and leaves
    the others in their order. *)
Theorem toggleSelect_selects_what_was_clicked_an_odd_number_of_times :
  forall (clicks : list string),
    let selected := selectionAfter clicks [] in
    NoDup selected /\
    (forall appId, In appId selected <->
                   Nat.odd (count_occ string_dec clicks appId) = true) /\
    (forall appId, ~ In appId selected ->
                   App.toggleSelect appId selected = selected ++ [appId]) /\
    (forall appId, In appId selected ->
                   App.toggleSelect appId selected = remove string_dec appId selected).
Proof.
  intros clicks selected.
  destruct (selectionAfter_spec clicks [] (NoDup_nil _)) as [Hnd Hmem].
  split; [exact Hnd|]. split; [|split].
  - intro appId. subst selected. rewrite Hmem.
    destruct (Nat.odd (count_occ string_dec clicks appId)); simpl.
    + split; [reflexivity | intros _ H; exact H].
    + split; [intros [] | discriminate].
  - intros appId Hnot. unfold App.toggleSelect.
    destruct (JS.arrayIncludes selected appId) eqn:E; [|reflexivity].
    apply arrayIncludes_true_iff in E. contradiction.
  - intros appId Hin. unfold App.toggleSelect.
    apply arrayIncludes_true_iff in Hin. rewrite Hin.
    apply filter_differs_is_remove.
Qed.

(** *** The geometry of the combined sheet *)

Lemma round_half (k : Z) : ImageExport.round (inject_Z k / 2) = ((k + 1) / 2)%Z.
Proof.
  unfold ImageExport.round.
  assert (E : (inject_Z k / 2 + (1 # 2) == (k + 1) # 2)%Q).
  { rewrite (Qmake_Qdiv (k + 1) 2), inject_Z_plus. unfold Qdiv.
    change (inject_Z (Z.pos 2)) with 2%Q. change (inject_Z 1) with 1%Q. field. }
  rewrite E. reflexivity.
Qed.

Lemma round_le (x : Q) (c : Z) : (x <= inject_Z c)%Q -> (ImageExport.round x <= c)%Z.
Proof.
  intro H. unfold ImageExport.round.
  pose proof (Qfloor_le (x + (1 # 2))) as Hf.
  assert (Hlt : (inject_Z (Qfloor (x + (1 # 2))) < inject_Z (c + 1))%Q).
  { rewrite inject_Z_plus. change (inject_Z 1) with 1%Q. lra. }
  rewrite <- Zlt_Qlt in Hlt. lia.
Qed.

Lemma drawSize_bounds (cell : Z) (img : ImageExport.ImageElement) :
  (0 <= cell)%Z ->
  (0 <= fst (ImageExport.drawSize cell (ImageExport.aspectOf img)) <= cell)%Z /\
  (0 <= snd (ImageExport.drawSize cell (ImageExport.aspectOf img)) <= cell)%Z.
Proof.
  intro Hcell. destruct (drawSize_nonneg cell img Hcell) as [Hw Hh].
  assert (HcellQ : (0 <= inject_Z cell)%Q)
    by (change 0%Q with (inject_Z 0); now rewrite <- Zle_Qle).
  split; (split; [assumption|]).
  - clear Hw Hh. destruct (ImageExport.aspectOf img) as [| |a] eqn:E; simpl; try lia.
    pose proof (aspectOf_nonneg img a E) as Ha.
    destruct (Palette.Qltb 1 a) eqn:E1; simpl; [lia|].
    destruct (Palette.Qltb a 1) eqn:E2; simpl; [|lia].
    apply Qltb_true_iff in E2. apply round_le.
    assert (0 <= inject_Z cell * (1 - a))%Q by (apply Qmult_le_0_compat; lra).
    lra.
  - clear Hw Hh. destruct (ImageExport.aspectOf img) as [| |a] eqn:E; simpl; try lia.
    + change (ImageExport.round 0) with 0%Z. exact Hcell.
    + destruct (Palette.Qltb 1 a) eqn:E1; simpl.
      * apply Qltb_true_iff in E1. apply round_le.
        apply Qle_shift_div_r; [lra|].
        assert (0 <= inject_Z cell * (a - 1))%Q by (apply Qmult_le_0_compat; lra).
        lra.
      * destruct (Palette.Qltb a 1); simpl; lia.
Qed.

Lemma drawTile_geometry (parseFloat : string -> option Q) (cols : nat) (cell gap : Z) (i : nat)
    (img : ImageExport.ImageElement) :
  (0 <= cell)%Z ->
  let t := ImageExport.drawTile parseFloat cols cell gap i img in
  (0 <= ImageExport.drawW t <= cell)%Z /\
  (0 <= ImageExport.drawH t <= cell)%Z /\
  ImageExport.dx t = (ImageExport.tileX t + (cell - ImageExport.drawW t + 1) / 2)%Z /\
  ImageExport.dy t = (ImageExport.tileY t + (cell - ImageExport.drawH t + 1) / 2)%Z.
Proof.
  intro Hcell. destruct (drawSize_bounds cell img Hcell) as [Hw Hh].
  unfold ImageExport.drawTile.
  destruct (ImageExport.drawSize cell (ImageExport.aspectOf img)) as [w h].
  cbn [ImageExport.drawW ImageExport.drawH ImageExport.dx ImageExport.dy
       ImageExport.tileX ImageExport.tileY fst snd] in *.
  rewrite !round_half. auto.
Qed.

(** X12. On the combined sheet, for a cell size and a gap that are not
    negative: every image is drawn inside its cell, at a size between 0 and
    the cell size, centred to the pixel (the left and top margins exceed the
    right and bottom ones by at most one pixel); every cell lies on the
    canvas, at least a gap away from each edge; and the cells of two
    different images are at least a gap apart, side by side in the same row
    or one below the other. *)
Theorem generateCombinedCanvas_draws_each_image_centred_in_its_own_cell :
  forall (parseFloat : string -> option Q) (images : list ImageExport.ImageElement)
         (options : option ImageExport.LayoutOptions),
    let sheet := ImageExport.generateCombinedCanvas parseFloat images options in
    let cell := ImageExport.cellOf options in
    let gap := ImageExport.gapOf options in
    (0 <= cell)%Z -> (0 <= gap)%Z ->
    (forall i t,
        nth_error (ImageExport.tiles sheet) i = Some t ->
        (0 <= ImageExport.drawW t <= cell)%Z /\
        (0 <= ImageExport.drawH t <= cell)%Z /\
        (ImageExport.tileX t <= ImageExport.dx t)%Z /\
        (ImageExport.dx t + ImageExport.drawW t <= ImageExport.tileX t + cell)%Z /\
        (ImageExport.tileY t <= ImageExport.dy t)%Z /\
        (ImageExport.dy t + ImageExport.drawH t <= ImageExport.tileY t + cell)%Z /\
        (0 <= (ImageExport.dx t - ImageExport.tileX t) -
              (ImageExport.tileX t + cell - (ImageExport.dx t + ImageExport.drawW t)) <= 1)%Z /\
        (0 <= (ImageExport.dy t - ImageExport.tileY t) -
              (ImageExport.tileY t + cell - (ImageExport.dy t + ImageExport.drawH t)) <= 1)%Z /\
        (gap <= ImageExport.tileX t)%Z /\
        (ImageExport.tileX t + cell + gap <= ImageExport.width sheet)%Z /\
        (gap <= ImageExport.tileY t)%Z /\
        (ImageExport.tileY t + cell + gap <= ImageExport.height sheet)%Z) /\
    (forall i j ti tj,
        i < j ->
        nth_error (ImageExport.tiles sheet) i = Some ti ->
        nth_error (ImageExport.tiles sheet) j = Some tj ->
        (ImageExport.row ti = ImageExport.row tj /\
         (ImageExport.tileX ti + cell + gap <= ImageExport.tileX tj)%Z) \/
        (ImageExport.tileY ti + cell + gap <= ImageExport.tileY tj)%Z).
Proof.
  intros parseFloat images options sheet cell gap Hcell Hgap.
  subst sheet. unfold ImageExport.generateCombinedCanvas.
  cbn [ImageExport.tiles ImageExport.width ImageExport.height].
  fold cell. fold gap.
  set (N := List.length images). set (cols := ImageExport.ceilSqrt N).
  assert (Htile : forall i t,
             nth_error (ImageExport.drawTiles parseFloat cols cell gap 0 images) i = Some t ->
             i < N /\ exists img, t = ImageExport.drawTile parseFloat cols cell gap i img).
  { intros i t Ht. rewrite drawTiles_nth in Ht. cbn [Nat.add] in Ht.
    destruct (nth_error images i) as [img|] eqn:Eimg; [|discriminate Ht].
    injection Ht as <-. split; [|exists img; reflexivity].
    apply nth_error_Some. congruence. }
  split.
  - intros i t Ht. destruct (Htile i t Ht) as [Hi [img ->]].
    assert (HN : 1 <= N) by lia.
    destruct (ceilSqrt_spec N HN) as [Hc1 [_ Hc2]]. fold cols in Hc1, Hc2.
    destruct (ceilDiv_spec N cols HN Hc1) as [rows [Erows [Hr1 [_ Hr2]]]].
    rewrite Erows.
    destruct (drawTile_geometry parseFloat cols cell gap i img Hcell) as [Hw [Hh [Edx Edy]]].
    destruct (drawTile_position parseFloat cols cell gap i img) as [_ [_ [Ex Ey]]].
    cbv zeta in Hw, Hh, Edx, Edy, Ex, Ey.
    set (t := ImageExport.drawTile parseFloat cols cell gap i img) in *.
    assert (Hcol : i mod cols < cols) by (apply Nat.mod_upper_bound; lia).
    assert (Hrow : i / cols < rows).
    { apply Nat.Div0.div_lt_upper_bound. nia. }
    assert (Hcz : (0 <= Z.of_nat (i mod cols) < Z.of_nat cols)%Z) by lia.
    assert (Hrz : (0 <= Z.of_nat (i / cols) < Z.of_nat rows)%Z) by lia.
    assert (Hpitch : (0 <= cell + gap)%Z) by lia.
    assert (Hx : (Z.of_nat (i mod cols) * (cell + gap) + (cell + gap)
                  <= Z.of_nat cols * (cell + gap))%Z) by nia.
    assert (Hy : (Z.of_nat (i / cols) * (cell + gap) + (cell + gap)
                  <= Z.of_nat rows * (cell + gap))%Z) by nia.
    assert (Hx0 : (0 <= Z.of_nat (i mod cols) * (cell + gap))%Z) by nia.
    assert (Hy0 : (0 <= Z.of_nat (i / cols) * (cell + gap))%Z) by nia.
    rewrite Edx, Edy, Ex, Ey.
    generalize dependent (Z.of_nat (i mod cols) * (cell + gap))%Z. intros px Ex Hx Hx0.
    generalize dependent (Z.of_nat (i / cols) * (cell + gap))%Z. intros py Ey Hy Hy0.
    clear Edx Edy Ex Ey.
    generalize dependent (ImageExport.drawW t). intros w Hw.
    generalize dependent (ImageExport.drawH t). intros h Hh.
    clear Hcz Hrz Hcol Hrow Hc2 Hr2 Htile Ht Hi. clearbody cell gap.
    repeat split; try lia; Z.div_mod_to_equations; lia.
  - intros i j ti tj Hij Hi Hj.
    destruct (Htile i ti Hi) as [HiN [imgi ->]]. destruct (Htile j tj Hj) as [HjN [imgj ->]].
    assert (HN : 1 <= N) by lia.
    destruct (ceilSqrt_spec N HN) as [Hc1 _]. fold cols in Hc1.
    destruct (drawTile_position parseFloat cols cell gap i imgi) as [_ [Eri [Exi Eyi]]].
    destruct (drawTile_position parseFloat cols cell gap j imgj) as [_ [Erj [Exj Eyj]]].
    cbv zeta in Eri, Exi, Eyi, Erj, Exj, Eyj. rewrite Eri, Erj, Exi, Exj, Eyi, Eyj.
    pose proof (Nat.div_mod_eq i cols) as Hdi. pose proof (Nat.div_mod_eq j cols) as Hdj.
    pose proof (Nat.mod_upper_bound i cols) as Hmi.
    pose proof (Nat.mod_upper_bound j cols) as Hmj.
    remember (i / cols) as ri. remember (j / cols) as rj.
    remember (i mod cols) as ci. remember (j mod cols) as cj.
    assert (Hle : ri <= rj) by nia.
    destruct (Nat.eq_dec ri rj) as [E|Hne].
    + left. split; [exact E|]. assert (ci < cj) by nia. nia.
    + right. assert (ri < rj) by lia. nia.
Qed.

(** X12 at work: five example icons on the default sheet, whose cell is
    512 pixels and whose gap is 31. *)
Lemma generateCombinedCanvas_cells_example :
  let sheet :=
    ImageExport.generateCombinedCanvas ImageExport.decimalParseFloat Examples.fiveIcons None in
  (0 <= ImageExport.cellOf None)%Z /\ (0 <= ImageExport.gapOf None)%Z /\
  forall i j ti tj,
    i < j ->
    nth_error (ImageExport.tiles sheet) i = Some ti ->
    nth_error (ImageExport.tiles sheet) j = Some tj ->
    (ImageExport.row ti = ImageExport.row tj /\
     (ImageExport.tileX ti + ImageExport.cellOf None + ImageExport.gapOf None
      <= ImageExport.tileX tj)%Z) \/
    (ImageExport.tileY ti + ImageExport.cellOf None + ImageExport.gapOf None
     <= ImageExport.tileY tj)%Z.
Proof.
  intro sheet.
  assert (Hcell : (0 <= ImageExport.cellOf None)%Z) by (vm_compute; discriminate).
  assert (Hgap : (0 <= ImageExport.gapOf None)%Z) by (vm_compute; discriminate).
  split; [exact Hcell|]. split; [exact Hgap|].
  exact (proj2 (generateCombinedCanvas_draws_each_image_centred_in_its_own_cell
                  ImageExport.decimalParseFloat Examples.fiveIcons None Hcell Hgap)).
Defined.

(** *** Unwrapping the answer of the sheet service *)

Lemma length_append (a b : string) :
  String.length (a ++ b) = String.length a + String.length b.
Proof.
  induction a as [|c a IH]; simpl; [reflexivity | now rewrite IH].
Qed.

Lemma append_assoc (a b c : string) : ((a ++ b) ++ c = a ++ (b ++ c))%string.
Proof.
  induction a as [|x a IH]; simpl; [reflexivity | now rewrite IH].
Qed.

Lemma indexOfFrom_append (ch : ascii) (pre rest : string) (i : Z) :
  hasChar ch pre = false ->
  Text.indexOfFrom ch (pre ++ String ch rest) i = (i + Z.of_nat (String.length pre))%Z.
Proof.
  revert i. induction pre as [|c pre IH]; intros i H; simpl.
  - rewrite Ascii.eqb_refl. lia.
  - simpl in H. apply orb_false_iff in H. destruct H as [Hc Hpre].
    rewrite Hc, (IH _ Hpre). lia.
Qed.

Lemma lastIndexOfFrom_absent (ch : ascii) (s : string) (i found : Z) :
  hasChar ch s = false -> Text.lastIndexOfFrom ch s i found = found.
Proof.
  revert i found. induction s as [|c s IH]; intros i found H; simpl; [reflexivity|].
  simpl in H. apply orb_false_iff in H. destruct H as [Hc Hs].
  rewrite Hc. now apply IH.
Qed.

Lemma lastIndexOfFrom_append (ch : ascii) (a s : string) (i found : Z) :
  Text.lastIndexOfFrom ch (a ++ s) i found =
  Text.lastIndexOfFrom ch s (i + Z.of_nat (String.length a))
                       (Text.lastIndexOfFrom ch a i found).
Proof.
  revert i found. induction a as [|c a IH]; intros i found; simpl.
  - f_equal. lia.
  - rewrite IH. f_equal. lia.
Qed.

Lemma substring_prefix (body post : string) :
  substring 0 (String.length body) (body ++ post) = body.
Proof.
  induction body as [|c body IH]; simpl.
  - destruct post; reflexivity.
  - now rewrite IH.
Qed.

Lemma substring_middle (pre body post : string) :
  substring (String.length pre) (String.length body) (pre ++ body ++ post) = body.
Proof.
  induction pre as [|c pre IH]; simpl; [apply substring_prefix | exact IH].
Qed.

Lemma substring_nothing (n : nat) (s : string) : substring n 0 s = "".
Proof.
  revert s. induction n as [|n IH]; intros [|c s]; simpl; auto.
Qed.

Lemma indexOfFrom_bounds (ch : ascii) (s : string) (i : Z) :
  (Text.indexOfFrom ch s i = -1 \/ i <= Text.indexOfFrom ch s i)%Z.
Proof.
  revert i. induction s as [|c s IH]; intro i; simpl; [left; reflexivity|].
  destruct (Ascii.eqb c ch); [right; lia|].
  destruct (IH (i + 1)%Z) as [H|H]; [left; exact H | right; lia].
Qed.

(** X13. Unwrapping a sheet answer: when the text is a body in braces
    with no opening brace in front of it and no closing brace behind it, the
    unwrapped text is that body, braces included, whatever lies between
    them. A text without a closing brace unwraps to the empty text. *)
Theorem extractJson_keeps_the_text_between_the_outermost_braces :
  forall (pre mid post text : string),
    (hasChar "{" pre = false -> hasChar "}" post = false ->
     Text.extractJson (pre ++ "{" ++ mid ++ "}" ++ post) = ("{" ++ mid ++ "}")%string) /\
    (hasChar "}" text = false -> Text.extractJson text = "").
Proof.
  intros pre mid post text. split.
  - intros Hpre Hpost. unfold Text.extractJson, Text.indexOf, Text.lastIndexOf.
    set (body := ("{" ++ mid ++ "}")%string).
    assert (Etext : (pre ++ "{" ++ mid ++ "}" ++ post = pre ++ body ++ post)%string).
    { unfold body. simpl. now rewrite append_assoc. }
    rewrite Etext.
    assert (Estart : Text.indexOfFrom "{" (pre ++ body ++ post) 0 =
                     Z.of_nat (String.length pre)).
    { unfold body. simpl. now rewrite indexOfFrom_append. }
    assert (Eend : Text.lastIndexOfFrom "}" (pre ++ body ++ post) 0 (-1) =
                   (Z.of_nat (String.length pre) + Z.of_nat (String.length body) - 1)%Z).
    { assert (E2 : (pre ++ body ++ post = (pre ++ "{" ++ mid) ++ String "}" post)%string).
      { unfold body. simpl. rewrite !append_assoc. reflexivity. }
      rewrite E2, lastIndexOfFrom_append. cbn [Text.lastIndexOfFrom].
      rewrite Ascii.eqb_refl, lastIndexOfFrom_absent by exact Hpost.
      unfold body. rewrite !length_append. cbn [String.length]. lia. }
    rewrite Estart, Eend. unfold Text.slice, Text.clampIndex.
    rewrite !length_append.
    set (p := String.length pre). set (b := String.length body). set (q := String.length post).
    assert (Hb : 1 <= b) by (unfold b, body; simpl; lia).
    destruct (Z.ltb_spec (Z.of_nat p) 0) as [H|_]; [lia|].
    destruct (Z.ltb_spec (Z.of_nat p + Z.of_nat b - 1 + 1) 0) as [H|_]; [lia|].
    replace (Z.to_nat (Z.min (Z.of_nat p) (Z.of_nat (p + (b + q))))) with p by lia.
    replace (Z.to_nat (Z.min (Z.of_nat p + Z.of_nat b - 1 + 1) (Z.of_nat (p + (b + q))) -
                       Z.min (Z.of_nat p) (Z.of_nat (p + (b + q))))) with b by lia.
    apply substring_middle.
  - intro Habsent. unfold Text.extractJson, Text.lastIndexOf.
    rewrite lastIndexOfFrom_absent by exact Habsent.
    unfold Text.slice, Text.clampIndex. cbn [Z.add Z.ltb Z.compare Z.opp Z.pos_sub].
    set (len := Z.of_nat (String.length text)).
    assert (Hlen : (0 <= len)%Z) by (unfold len; lia).
    assert (Hzero : (Z.to_nat (Z.min 0 len -
                      (if (Text.indexOf text "{" <? 0)%Z
                       then Z.max (len + Text.indexOf text "{") 0
                       else Z.min (Text.indexOf text "{") len)) = 0)).
    { destruct (Z.ltb_spec (Text.indexOf text "{") 0); lia. }
    rewrite Hzero. apply substring_nothing.
Qed.

(** X13 at work on an answer of the sheet service with nested braces. *)
Lemma extractJson_gviz_example :
  hasChar "{" ("/*O_o*/" ++ String (ascii_of_nat 10) "google.visualization.Query.setResponse(")
    = false /\
  hasChar "}" ");" = false /\
  Text.extractJson (gvizWrapped "{table:{cols:[{}],rows:[]}}") = "{table:{cols:[{}],rows:[]}}".
Proof.
  split; [reflexivity|]. split; [reflexivity|].
  exact (proj1 (extractJson_keeps_the_text_between_the_outermost_braces
                  ("/*O_o*/" ++ String (ascii_of_nat 10)
                     "google.visualization.Query.setResponse(")
                  "table:{cols:[{}],rows:[]}" ");" "")
               eq_refl eq_refl).
Defined.

(** *** The proxies and the two ways to the catalog *)

Lemma loadAppsFromSheet_no_table :
  AppService.loadAppsFromSheet {| AppService.table := None |} = [].
Proof. reflexivity. Qed.

Lemma fetchPayload_through_the_proxy
    (JSON_parse : string -> AppService.GvizResponse + string) (sheetResponse : Sheets.Upstream) :
  Catalog.fetchPayload JSON_parse true sheetResponse =
  Catalog.responseJson (Sheets.handler JSON_parse "GET" sheetResponse).
Proof. reflexivity. Qed.

Lemma fetchPayload_directly
    (JSON_parse : string -> AppService.GvizResponse + string) (sheetResponse : Sheets.Upstream) :
  Catalog.fetchPayload JSON_parse false sheetResponse =
  match sheetResponse with
  | Sheets.NetworkError _ => AppService.Rejected
  | Sheets.Answered _ _ text =>
      match JSON_parse (Text.extractJson text) with
      | inl payload => AppService.Resolved payload
      | inr _ => AppService.Rejected
      end
  end.
Proof. reflexivity. Qed.

Lemma cellOverTheWire_finite (cell : AppService.GvizCell) :
  finiteCell cell = true -> Catalog.cellOverTheWire cell = cell.
Proof.
  unfold finiteCell, Catalog.cellOverTheWire.
  destruct (AppService.v cell) as [[n|s|b]|]; try reflexivity.
  intros ->. reflexivity.
Qed.

Lemma rowOverTheWire_finite (row : AppService.GvizRow) :
  finiteRow row = true -> Catalog.rowOverTheWire row = row.
Proof.
  destruct row as [cells]. unfold finiteRow, Catalog.rowOverTheWire.
  cbn [AppService.c]. intro H. f_equal.
  induction cells as [|cell cells IH]; [reflexivity|].
  cbn [forallb] in H. apply andb_true_iff in H. destruct H as [Hcell Hcells].
  cbn [map]. rewrite (IH Hcells). f_equal.
  destruct cell as [cell|]; [|reflexivity].
  cbn [option_map]. now rewrite cellOverTheWire_finite.
Qed.

Lemma payloadRows_overTheWire (payload : AppService.GvizResponse) :
  AppService.payloadRows (Catalog.overTheWire payload) =
  map Catalog.rowOverTheWire (AppService.payloadRows payload).
Proof.
  unfold AppService.payloadRows, Catalog.overTheWire.
  destruct payload as [[[cols [rows|]]|]]; cbn; try reflexivity.
  induction rows as [|[row|] rows IH]; cbn; [reflexivity | now rewrite IH | exact IH].
Qed.

Lemma labelToIndex_overTheWire (payload : AppService.GvizResponse) :
  AppService.labelToIndex (Catalog.overTheWire payload) = AppService.labelToIndex payload.
Proof.
  unfold AppService.labelToIndex, AppService.payloadCols, Catalog.overTheWire.
  destruct payload as [[[cols rows]|]]; reflexivity.
Qed.

(** A payload whose numbers are all finite is loaded alike before and after
    the round trip. *)
Lemma loadAppsFromSheet_overTheWire (payload : AppService.GvizResponse) :
  finiteNumbers payload = true ->
  AppService.loadAppsFromSheet (Catalog.overTheWire payload) =
  AppService.loadAppsFromSheet payload.
Proof.
  unfold finiteNumbers, AppService.loadAppsFromSheet. intro H.
  rewrite labelToIndex_overTheWire, payloadRows_overTheWire. do 2 f_equal.
  induction (AppService.payloadRows payload) as [|row rows IH]; [reflexivity|].
  cbn [forallb] in H. apply andb_true_iff in H. destruct H as [Hrow Hrows].
  cbn [map]. now rewrite (rowOverTheWire_finite row Hrow), (IH Hrows).
Qed.

(** X14. When the sheet service answers with success and the unwrapped
    text parses, both ways give the page a catalog: directly on localhost
    the catalog of the parsed payload; through the proxy, which answers 200
    with the parsed payload, the catalog of the payload as it reads after
    being written as JSON, where a number that is not finite has become
    [null]. The two catalogs are the same when every number of the payload
    is finite. *)
Theorem loadApps_agrees_through_the_proxy_and_directly :
  forall (JSON_parse : string -> AppService.GvizResponse + string)
         (status : Z) (text : string) (payload : AppService.GvizResponse),
    JSON_parse (Text.extractJson text) = inl payload ->
    let sheetResponse := Sheets.Answered true status text in
    Sheets.handler JSON_parse "GET" sheetResponse = Http.respond 200 (Http.Data payload) /\
    Catalog.loadApps JSON_parse true sheetResponse =
      AppService.Resolved (AppService.loadAppsFromSheet (Catalog.overTheWire payload)) /\
    Catalog.loadApps JSON_parse false sheetResponse =
      AppService.Resolved (AppService.loadAppsFromSheet payload) /\
    (finiteNumbers payload = true ->
     Catalog.loadApps JSON_parse true sheetResponse =
     Catalog.loadApps JSON_parse false sheetResponse).
Proof.
  intros JSON_parse status text payload Hparse sheetResponse. subst sheetResponse.
  assert (Hanswer : Sheets.handler JSON_parse "GET" (Sheets.Answered true status text) =
                    Http.respond 200 (Http.Data payload)).
  { unfold Sheets.handler. cbn [String.eqb Ascii.eqb Bool.eqb negb]. now rewrite Hparse. }
  assert (Hproxy : Catalog.loadApps JSON_parse true (Sheets.Answered true status text) =
                   AppService.Resolved
                     (AppService.loadAppsFromSheet (Catalog.overTheWire payload))).
  { unfold Catalog.loadApps. rewrite fetchPayload_through_the_proxy, Hanswer. reflexivity. }
  assert (Hdirect : Catalog.loadApps JSON_parse false (Sheets.Answered true status text) =
                    AppService.Resolved (AppService.loadAppsFromSheet payload)).
  { unfold Catalog.loadApps. rewrite fetchPayload_directly, Hparse. reflexivity. }
  split; [exact Hanswer|]. split; [exact Hproxy|]. split; [exact Hdirect|].
  intro Hfinite. rewrite Hproxy, Hdirect. now rewrite loadAppsFromSheet_overTheWire.
Qed.

(** X14 at work. The example sheet holds finite numbers only and gives the
    same five records on both ways. With one more row whose id cell holds an
    infinity, the record of that row is dropped on localhost, where its id is
    not finite, and kept with the id 0 through the proxy, where the cell
    arrives as [null]. *)
Lemma loadApps_agrees_example :
  let text := gvizWrapped "{sheet}" in
  let textWithInfinity := gvizWrapped "{sheet, 1e999}" in
  parseExampleSheets (Text.extractJson text) = inl Examples.sheet /\
  finiteNumbers Examples.sheet = true /\
  Catalog.loadApps parseExampleSheets true (Sheets.Answered true 200 text) =
    Catalog.loadApps parseExampleSheets false (Sheets.Answered true 200 text) /\
  Catalog.loadApps parseExampleSheets false (Sheets.Answered true 200 text) =
    AppService.Resolved (AppService.loadAppsFromSheet Examples.sheet) /\
  List.length (AppService.loadAppsFromSheet Examples.sheet) = 5 /\
  parseExampleSheets (Text.extractJson textWithInfinity) = inl Examples.sheetWithInfinity /\
  finiteNumbers Examples.sheetWithInfinity = false /\
  option_map (map (fun a => (AppService.id a, AppService.name a)))
    (match Catalog.loadApps parseExampleSheets false
             (Sheets.Answered true 200 textWithInfinity) with
     | AppService.Resolved apps => Some apps
     | AppService.Rejected => None
     end) = Some [(JS.Int 5, "gamma app")] /\
  option_map (map (fun a => (AppService.id a, AppService.name a)))
    (match Catalog.loadApps parseExampleSheets true
             (Sheets.Answered true 200 textWithInfinity) with
     | AppService.Resolved apps => Some apps
     | AppService.Rejected => None
     end) = Some [(JS.Int 0, "Omega"); (JS.Int 5, "gamma app")].
Proof.
  intros text textWithInfinity.
  assert (H : parseExampleSheets (Text.extractJson text) = inl Examples.sheet)
    by (vm_compute; reflexivity).
  assert (H' : parseExampleSheets (Text.extractJson textWithInfinity) =
               inl Examples.sheetWithInfinity) by (vm_compute; reflexivity).
  assert (Hfinite : finiteNumbers Examples.sheet = true) by (vm_compute; reflexivity).
  destruct (loadApps_agrees_through_the_proxy_and_directly
              parseExampleSheets 200 text Examples.sheet H) as [_ [_ [Edirect Esame]]].
  destruct (loadApps_agrees_through_the_proxy_and_directly
              parseExampleSheets 200 textWithInfinity Examples.sheetWithInfinity H')
    as [_ [Eproxy' [Edirect' _]]].
  split; [exact H|]. split; [exact Hfinite|]. split; [exact (Esame Hfinite)|].
  split; [exact Edirect|]. split; [vm_compute; reflexivity|].
  split; [exact H'|]. split; [vm_compute; reflexivity|]. split.
  - rewrite Edirect'. vm_compute. reflexivity.
  - rewrite Eproxy'. vm_compute. reflexivity.
Defined.

(** X15. How the two ways differ when something fails. The proxy answers
    200 with the payload only to a GET whose fetch of the sheet succeeds and
    parses; it answers 200 without a body to OPTIONS, 405 to any other
    method without looking at the sheet, and 500 otherwise. The page does not
    look at the status: through the proxy the load never rejects, and every
    failure of the sheet service shows as an empty catalog. On localhost the
    load rejects exactly when the fetch rejects or the unwrapped text does
    not parse, and the [ok] flag and status of the answer play no part. *)
Theorem sheets_failures_empty_the_catalog_through_the_proxy_and_reject_directly :
  forall (JSON_parse : string -> AppService.GvizResponse + string)
         (method : string) (sheetResponse : Sheets.Upstream),
    let response := Sheets.handler JSON_parse method sheetResponse in
    Http.headers response = Http.corsHeaders /\
    In (Http.status response) [200; 405; 500]%Z /\
    (forall payload,
        Http.body response = Http.Data payload <->
        method = "GET" /\
        exists status text,
          sheetResponse = Sheets.Answered true status text /\
          JSON_parse (Text.extractJson text) = inl payload) /\
    (Http.status response = 200%Z <->
     method = "OPTIONS" \/ exists payload, Http.body response = Http.Data payload) /\
    (method <> "GET" ->
     forall other, Sheets.handler JSON_parse method other = response) /\
    (exists apps, Catalog.loadApps JSON_parse true sheetResponse = AppService.Resolved apps) /\
    (Http.status (Sheets.handler JSON_parse "GET" sheetResponse) <> 200%Z ->
     Catalog.loadApps JSON_parse true sheetResponse = AppService.Resolved []) /\
    (Catalog.loadApps JSON_parse false sheetResponse = AppService.Rejected <->
     (exists message, sheetResponse = Sheets.NetworkError message) \/
     (exists ok status text message,
         sheetResponse = Sheets.Answered ok status text /\
         JSON_parse (Text.extractJson text) = inr message)) /\
    (forall ok status text,
        Catalog.loadApps JSON_parse false (Sheets.Answered ok status text) =
        Catalog.loadApps JSON_parse false (Sheets.Answered true 200 text)).
Proof.
  intros JSON_parse method sheetResponse response.
  assert (Hget : forall up,
             Sheets.handler JSON_parse "GET" up =
             match up with
             | Sheets.NetworkError message =>
                 Http.respond 500
                   (Http.ErrorBody "Failed to fetch data from Google Sheets" (Some message))
             | Sheets.Answered ok status text =>
                 if negb ok then
                   Http.respond 500
                     (Http.ErrorBody "Failed to fetch data from Google Sheets"
                        (Some ("Google Sheets API returned " ++
                               JS.NumberToString (JS.Int status))%string))
                 else
                   match JSON_parse (Text.extractJson text) with
                   | inl payload => Http.respond 200 (Http.Data payload)
                   | inr message =>
                       Http.respond 500
                         (Http.ErrorBody "Failed to fetch data from Google Sheets"
                            (Some message))
                   end
             end).
  { intro up. reflexivity. }
  assert (Hcases : (method = "OPTIONS" /\ response = Http.respond 200 Http.NoBody) \/
                   (method <> "OPTIONS" /\ method <> "GET" /\
                    response = Http.respond 405 (Http.ErrorBody "Method not allowed" None)) \/
                   (method = "GET" /\
                    response = Sheets.handler JSON_parse "GET" sheetResponse)).
  { subst response. unfold Sheets.handler.
    destruct (String.eqb_spec method "OPTIONS") as [E1|E1]; [left; auto|].
    destruct (String.eqb_spec method "GET") as [E2|E2]; cbn [negb].
    - right. right. subst method. auto.
    - right. left. auto. }
  split; [|split; [|split; [|split; [|split; [|split; [|split; [|split]]]]]]].
  - destruct Hcases as [[_ ->]|[[_ [_ ->]]|[_ ->]]]; try reflexivity.
    rewrite Hget. destruct sheetResponse as [m|ok st text]; [reflexivity|].
    destruct ok; cbn [negb]; [|reflexivity].
    destruct (JSON_parse (Text.extractJson text)); reflexivity.
  - destruct Hcases as [[_ ->]|[[_ [_ ->]]|[_ ->]]]; simpl; try tauto.
    rewrite Hget. destruct sheetResponse as [m|ok st text]; [simpl; tauto|].
    destruct ok; cbn [negb]; [|simpl; tauto].
    destruct (JSON_parse (Text.extractJson text)); simpl; tauto.
  - intro payload. destruct Hcases as [[E ->]|[[_ [E ->]]|[E ->]]].
    + split; [discriminate|]. intros [E' _]. congruence.
    + split; [discriminate|]. intros [E' _]. congruence.
    + rewrite Hget. destruct sheetResponse as [m|ok st text].
      * split; [discriminate|]. intros [_ [st' [text' [E' _]]]]. discriminate E'.
      * destruct ok; cbn [negb].
        -- destruct (JSON_parse (Text.extractJson text)) as [p|m] eqn:Ep; simpl.
           ++ split.
              ** intro H. injection H as <-. split; [exact E|]. exists st, text. auto.
              ** intros [_ [st' [text' [E' Hp]]]]. injection E' as <- <-. congruence.
           ++ split; [discriminate|].
              intros [_ [st' [text' [E' Hp]]]]. injection E' as <- <-. congruence.
        -- split; [discriminate|]. intros [_ [st' [text' [E' _]]]]. discriminate E'.
  - destruct Hcases as [[E ->]|[[E1 [_ ->]]|[E ->]]].
    + split; [left; exact E | reflexivity].
    + split; [discriminate|]. intros [H|[p H]]; [contradiction | discriminate H].
    + rewrite Hget. destruct sheetResponse as [m|ok st text].
      * split; [discriminate|]. intros [H|[p H]]; [subst; discriminate | discriminate H].
      * destruct ok; cbn [negb].
        -- destruct (JSON_parse (Text.extractJson text)) as [p|m]; simpl.
           ++ split; [right; exists p; reflexivity | reflexivity].
           ++ split; [discriminate|].
              intros [H|[p H]]; [subst; discriminate | discriminate H].
        -- split; [discriminate|].
           intros [H|[p H]]; [subst; discriminate | discriminate H].
  - intros Hne other. subst response. unfold Sheets.handler.
    destruct (method =? "OPTIONS"); [reflexivity|].
    destruct (String.eqb_spec method "GET") as [E|_]; [contradiction | reflexivity].
  - unfold Catalog.loadApps. rewrite fetchPayload_through_the_proxy.
    unfold Catalog.responseJson. rewrite Hget.
    destruct sheetResponse as [m|ok st text]; [eexists; reflexivity|].
    destruct ok; cbn [negb]; [|eexists; reflexivity].
    destruct (JSON_parse (Text.extractJson text)); eexists; reflexivity.
  - unfold Catalog.loadApps. rewrite fetchPayload_through_the_proxy.
    unfold Catalog.responseJson. rewrite Hget.
    destruct sheetResponse as [m|ok st text]; [reflexivity|].
    destruct ok; cbn [negb]; [|reflexivity].
    destruct (JSON_parse (Text.extractJson text)); [|reflexivity].
    intro H. exfalso. apply H. reflexivity.
  - unfold Catalog.loadApps. rewrite fetchPayload_directly.
    destruct sheetResponse as [m|ok st text].
    + split; [intros _; left; exists m; reflexivity | reflexivity].
    + destruct (JSON_parse (Text.extractJson text)) as [p|m] eqn:Ep.
      * split; [discriminate|].
        intros [[m E]|[ok' [st' [text' [m [E Hp]]]]]]; [discriminate E|].
        injection E as <- <- <-. congruence.
      * split; [|reflexivity]. intros _. right. exists ok, st, text, m. auto.
  - intros ok status text. reflexivity.
Qed.

(** X16. The proxy of the store lookup answers 200 with the data of the
    store, unchanged, exactly to a GET with one non-empty [id] whose fetch of
    the store succeeds and parses. It answers 200 without a body to OPTIONS,
    405 to any other method, 400 to a GET without such an [id] (none, an
    empty one, or several), and 500 to a failure of the store. Whatever a GET
    is answered, the page reads it without rejecting, and [result.results ||
    []] is empty unless the answer is 200. *)
Theorem itunesHandler_passes_the_store_data_or_answers_an_error :
  forall (method : string) (ids : Itunes.QueryValue) (itunesResponse : Itunes.Upstream),
    let response := Itunes.handler method ids itunesResponse in
    Http.headers response = Http.corsHeaders /\
    In (Http.status response) [200; 400; 405; 500]%Z /\
    (forall data,
        Http.body response = Http.Data data <->
        method = "GET" /\
        (exists value, ids = Itunes.Single value /\ value <> "") /\
        exists status, itunesResponse = Itunes.Answered true status (inl data)) /\
    (method = "GET" ->
     (Http.status response = 400%Z <->
      forall value, ids = Itunes.Single value -> value = "")) /\
    (method = "GET" ->
     exists result,
       Itunes.responseJson response = AppService.Resolved result /\
       (Http.status response <> 200%Z -> AppService.resultsOrEmpty result = [])).
Proof.
  intros method ids itunesResponse response.
  assert (Hcases :
            (method = "OPTIONS" /\ response = Http.respond 200 Http.NoBody) \/
            (method <> "OPTIONS" /\ method <> "GET" /\
             response = Http.respond 405 (Http.ErrorBody "Method not allowed" None)) \/
            (method = "GET" /\
             ((forall value, ids = Itunes.Single value -> value = "") /\
              response =
                Http.respond 400 (Http.ErrorBody "Missing or invalid id parameter" None) \/
              (exists value, ids = Itunes.Single value /\ value <> "") /\
              ((exists message,
                   response =
                     Http.respond 500
                       (Http.ErrorBody "Failed to fetch data from iTunes API" (Some message)) /\
                   forall status data,
                     itunesResponse <> Itunes.Answered true status (inl data)) \/
               (exists status data,
                   itunesResponse = Itunes.Answered true status (inl data) /\
                   response = Http.respond 200 (Http.Data data)))))).
  { subst response. unfold Itunes.handler.
    destruct (String.eqb_spec method "OPTIONS") as [E1|E1]; [left; auto|].
    destruct (String.eqb_spec method "GET") as [E2|E2]; cbn [negb]; [|right; left; auto].
    right. right. split; [exact E2|].
    destruct ids as [|value|values].
    - left. split; [intros value H; discriminate H | reflexivity].
    - destruct (JS.nonEmpty value) eqn:Ev; cbn [negb].
      + right. apply nonEmpty_true_iff in Ev.
        split; [exists value; auto|].
        destruct itunesResponse as [message|ok status json].
        * left. eexists. split; [reflexivity | discriminate].
        * destruct ok; cbn [negb].
          -- destruct json as [data|message].
             ++ right. exists status, data. auto.
             ++ left. eexists. split; [reflexivity | discriminate].
          -- left. eexists. split; [reflexivity | discriminate].
      + left. split; [|reflexivity].
        intros value' H. injection H as <-.
        destruct (string_dec value "") as [E|E]; [exact E|].
        apply nonEmpty_true_iff in E. congruence.
    - left. split; [intros value H; discriminate H | reflexivity]. }
  split; [|split; [|split; [|split]]].
  - destruct Hcases as [[_ ->]|[[_ [_ ->]]|[_ [[_ ->]|[_ [[m [-> _]]|[st [d [_ ->]]]]]]]]];
      reflexivity.
  - destruct Hcases as [[_ ->]|[[_ [_ ->]]|[_ [[_ ->]|[_ [[m [-> _]]|[st [d [_ ->]]]]]]]]];
      simpl; tauto.
  - intro data.
    destruct Hcases as [[E ->]|[[_ [E ->]]|[E [[Hid ->]|[Hid [[m [-> Hno]]|[st [d [Eup ->]]]]]]]]].
    + split; [discriminate|]. intros [E' _]. congruence.
    + split; [discriminate|]. intros [E' _]. congruence.
    + split; [discriminate|]. intros [_ [[value [Ev Hne]] _]].
      exfalso. apply Hne. now apply Hid.
    + split; [discriminate|]. intros [_ [_ [st Eup]]]. exfalso. exact (Hno st data Eup).
    + simpl. split.
      * intro H. injection H as <-. split; [exact E|]. split; [exact Hid|].
        exists st. exact Eup.
      * intros [_ [_ [st' Eup']]]. rewrite Eup in Eup'. injection Eup' as _ <-. reflexivity.
  - intro Eget.
    destruct Hcases as [[E _]|[[_ [E _]]|[_ [[Hid ->]|[[value [Ev Hne]] [[m [-> _]]|[st [d [_ ->]]]]]]]]].
    + rewrite E in Eget. discriminate Eget.
    + contradiction.
    + split; [intros _; exact Hid | reflexivity].
    + split; [discriminate|]. intro H. exfalso. apply Hne. now apply H.
    + split; [discriminate|]. intro H. exfalso. apply Hne. now apply H.
  - intro Eget.
    destruct Hcases as [[E _]|[[_ [E _]]|[_ [[Hid ->]|[_ [[m [-> _]]|[st [d [_ ->]]]]]]]]].
    + rewrite E in Eget. discriminate Eget.
    + contradiction.
    + eexists. split; [reflexivity|]. reflexivity.
    + eexists. split; [reflexivity|]. reflexivity.
    + eexists. split; [reflexivity|]. intro H. exfalso. apply H. reflexivity.
Qed.

(** *** The search history *)





(** *** The header of the sheet *)

Lemma getLabel_setLabel (m : AppService.LabelMap) (k : string) (idx : nat) (key : string) :
  AppService.getLabel (AppService.setLabel m k idx) key =
  if k =? key then Some idx else AppService.getLabel m key.
Proof. reflexivity. Qed.

Lemma normalisedLabel_dec (col : AppService.GvizColumn) (key : string) :
  {normalisedLabel col = Some key} + {normalisedLabel col <> Some key}.
Proof.
  destruct (normalisedLabel col) as [l|].
  - destruct (string_dec l key) as [->|H]; [left; reflexivity | right; congruence].
  - right. discriminate.
Qed.

Lemma indexLabels_getLabel (columns : list AppService.GvizColumn) (idx : nat)
    (m : AppService.LabelMap) (key : string) :
  match AppService.getLabel (AppService.indexLabels columns idx m) key with
  | Some i =>
      (exists k col,
          i = idx + k /\ nth_error columns k = Some col /\
          normalisedLabel col = Some key /\
          forall j col', k < j -> nth_error columns j = Some col' ->
                         normalisedLabel col' <> Some key) \/
      (AppService.getLabel m key = Some i /\
       forall col, In col columns -> normalisedLabel col <> Some key)
  | None =>
      AppService.getLabel m key = None /\
      forall col, In col columns -> normalisedLabel col <> Some key
  end.
Proof.
  revert idx m. induction columns as [|col rest IH]; intros idx m.
  - simpl. destruct (AppService.getLabel m key) as [i|]; [right|]; split; auto.
  - cbn [AppService.indexLabels].
    set (m' := match AppService.label col with
               | Some l => AppService.setLabel m (JS.toLowerCase (JS.trim l)) idx
               | None => m
               end).
    assert (Hm' : AppService.getLabel m' key =
                  if normalisedLabel_dec col key then Some idx else AppService.getLabel m key).
    { subst m'. unfold normalisedLabel in *.
      destruct (normalisedLabel_dec col key) as [E|E]; unfold normalisedLabel in E;
        destruct (AppService.label col) as [l|]; simpl in E.
      - injection E as E. rewrite getLabel_setLabel, E, String.eqb_refl. reflexivity.
      - discriminate E.
      - rewrite getLabel_setLabel.
        destruct (String.eqb_spec (JS.toLowerCase (JS.trim l)) key) as [E'|_];
          [congruence | reflexivity].
      - reflexivity. }
    specialize (IH (S idx) m').
    destruct (AppService.getLabel (AppService.indexLabels rest (S idx) m') key) as [i|].
    + destruct IH as [[k [col' [Ei [Hnth [Hlab Hlater]]]]]|[Hget Hnone]].
      * left. exists (S k), col'. split; [lia|]. split; [exact Hnth|]. split; [exact Hlab|].
        intros j c Hj Hc. destruct j as [|j]; [lia|]. apply (Hlater j c); [lia | exact Hc].
      * rewrite Hm' in Hget. destruct (normalisedLabel_dec col key) as [E|E].
        -- injection Hget as <-. left. exists 0, col. split; [lia|].
           split; [reflexivity|]. split; [exact E|].
           intros j c Hj Hc. destruct j as [|j]; [lia|].
           apply Hnone. simpl in Hc. now apply nth_error_In in Hc.
        -- right. split; [exact Hget|]. intros c [<-|Hc]; [exact E | now apply Hnone].
    + destruct IH as [Hget Hnone]. rewrite Hm' in Hget.
      destruct (normalisedLabel_dec col key) as [E|E]; [discriminate Hget|].
      split; [exact Hget|]. intros c [<-|Hc]; [exact E | now apply Hnone].
Qed.

(** X18. How a field finds its column. Header labels are compared after
    trimming and lower-casing. A field whose name no label matches has no
    column, and [getVal] gives null for it in every row. Otherwise the
    column is the last one whose label matches, counted among the columns
    that are not null, and [getVal] reads the cell of the row at that
    position, null when the row is shorter or the cell or its value is
    null. *)
Theorem labelToIndex_finds_the_last_column_with_the_label :
  forall (payload : AppService.GvizResponse) (key : string) (row : AppService.GvizRow),
    let columns := AppService.payloadCols payload in
    let m := AppService.labelToIndex payload in
    match AppService.getLabel m key with
    | Some idx =>
        (exists col,
            nth_error columns idx = Some col /\
            normalisedLabel col = Some key /\
            forall j col', idx < j -> nth_error columns j = Some col' ->
                           normalisedLabel col' <> Some key) /\
        AppService.getVal m row key =
          match nth_error (AppService.c row) idx with
          | Some (Some cell) => AppService.v cell
          | _ => None
          end
    | None =>
        (forall col, In col columns -> normalisedLabel col <> Some key) /\
        AppService.getVal m row key = None
    end.
Proof.
  intros payload key row columns m.
  pose proof (indexLabels_getLabel columns 0 [] key) as H.
  unfold AppService.getVal. subst m. unfold AppService.labelToIndex. fold columns.
  destruct (AppService.getLabel (AppService.indexLabels columns 0 []) key) as [idx|].
  - split; [|reflexivity].
    destruct H as [[k [col [Ei [Hnth [Hlab Hlater]]]]]|[Hget _]]; [|discriminate Hget].
    simpl in Ei. subst k. exists col. auto.
  - split; [|reflexivity]. apply H.
Qed.
